(** * Slides-to-scene-graph import pipeline: model and verified properties

    The development embeds the import pipeline of the plugin (font
    resolver, scene builder, leaf materializers, orchestrator) as
    executable Rocq functions over an explicit host state, and proves
    the properties the specification states about them.  The compiled
    build shipped next to the sources, the handler of UI messages and
    the sign-in worker are embedded too, each with the properties its
    code shows.

    Conventions of the embedding:
    - a JavaScript number is an exact rational ([Qc]); rounding, NaN and
      the infinities of IEEE doubles are outside the model, and so is a
      division by zero.  Where the code divides a position by the
      scale it was multiplied by before (the children of a group), the
      two cancel in a rational and not in a double: the properties of
      groups simplify that expression at scale 1 only, where a double
      is exact as well, and module [Doubles] has the same expressions
      on IEEE doubles;
    - a JavaScript string is its sequence of UTF-16 code units
      ([list N]);
    - an object used as a map ([FONT_FALLBACKS], the image data) is the
      finite map of its own properties, and a lookup [obj[key]] that
      finds no own property goes on to the members the object
      inherits ([constructor], [toString], ...), which are truthy and
      are not strings; which names are inherited is the platform's to
      say;
    - the host (the [figma] object) is a state threaded through every
      call; a scene node is the list of property writes the code
      performs on it, in order, plus its appended children; creating a
      node and writing its properties always succeeds, the host calls
      that may throw are the font load, the base64 decoder and the
      image constructor;
    - a thrown exception is a result that keeps the state reached at the
      point of the throw. *)

From Stdlib Require Import QArith Qcanon Qround.
From Stdlib Require Qcabs.
From Stdlib Require PrimFloat.
From Stdlib Require Import Ascii String.
From stdpp Require Import gmap list numbers pretty.

Set Warnings "-register-all".

Local Open Scope Qc_scope.
Local Open Scope list_scope.

(** ** Numbers *)

Definition Math_max (a b : Qc) : Qc := if bool_decide (a ≤ b) then b else a.
Definition Math_min (a b : Qc) : Qc := if bool_decide (a ≤ b) then a else b.
Definition Math_abs (a : Qc) : Qc := Qcabs.Qcabs a.

(** [Math.round]: nearest integer, ties towards plus infinity. *)
Definition Math_round (a : Qc) : Qc := Qc_of_Z (Qfloor (a + Q2Qc (1 # 2))).

(** [v || d] on a number: zero is falsy. *)
Definition num_or (v d : Qc) : Qc := if bool_decide (v = 0) then d else v.

(** ** Strings *)

(** A string literal as code units. *)
Definition js (s : string) : list N := N_of_ascii <$> list_ascii_of_string s.

(** Decimal rendering of a natural number, as template literals do. *)
Definition js_nat (n : nat) : list N := js (pretty n).

(** WhiteSpace and LineTerminator code points of ECMAScript, the set
    [String.prototype.trim] strips. *)
Definition isWhiteSpace (c : N) : bool :=
  bool_decide (c ∈ [9; 10; 11; 12; 13; 32; 160; 5760; 8232; 8233; 8239; 8287;
                    12288; 65279]%N)
  || (N.leb 8192 c && N.leb c 8202).

Fixpoint trimStart (s : list N) : list N :=
  match s with
  | c :: s' => if isWhiteSpace c then trimStart s' else s
  | [] => []
  end.

Definition trim (s : list N) : list N :=
  reverse (trimStart (reverse (trimStart s))).

(** Truthiness of a string: non-empty. *)
Definition truthy (s : list N) : bool :=
  match s with [] => false | _ => true end.

(** ASCII case folding; with the [i] flag and no [u] flag a pattern
    letter matches exactly its two ASCII cases. *)
Definition asciiLower (c : N) : N :=
  if N.leb 65 c && N.leb c 90 then (c + 32)%N else c.

Fixpoint startsWith (p s : list N) : bool :=
  match p, s with
  | [], _ => true
  | a :: p', b :: s' => bool_decide (a = b) && startsWith p' s'
  | _ :: _, [] => false
  end.

Fixpoint includes (p s : list N) : bool :=
  startsWith p s
  || match s with
     | [] => false
     | _ :: s' => includes p s'
     end.

(** [/k1|k2|.../i.test(s)] for literal lower-case alternatives. *)
Definition testAnyKeyword (keywords : list (list N)) (s : list N) : bool :=
  existsb (fun k => includes k (asciiLower <$> s)) keywords.

(** ** Fonts *)

(** What a lookup [obj[key]] in an object literal of strings can give:
    a string the literal holds, or the member of [Object.prototype]
    found under an inherited name ([constructor], [toString], ...),
    which is a function or an object, never a string, and truthy. *)
Inductive Value :=
  | Str (s : list N)
  | Proto (name : list N).

#[global] Instance Value_eq_dec : EqDecision Value.
Proof. solve_decision. Defined.

Definition truthyValue (v : Value) : bool :=
  match v with
  | Str s => truthy s
  | Proto _ => true
  end.

(** The family of a font name is what the code puts there: a string,
    or whatever the lookup in [FONT_FALLBACKS] gave. *)
Record FontName := { family : Value; style : list N }.

#[global] Instance FontName_eq_dec : EqDecision FontName.
Proof. solve_decision. Defined.

Definition FONT_FALLBACKS : gmap (list N) (list N) :=
  list_to_map
    [ (js "Arial", js "Inter");
      (js "Helvetica", js "Inter");
      (js "Roboto", js "Inter");
      (js "Open Sans", js "Inter");
      (js "Lato", js "Inter");
      (js "Montserrat", js "Inter");
      (js "Source Sans Pro", js "Inter");
      (js "Nunito", js "Inter");
      (js "Poppins", js "Inter");
      (js "Times New Roman", js "Georgia");
      (js "Georgia", js "Georgia");
      (js "Playfair Display", js "Georgia");
      (js "Merriweather", js "Georgia");
      (js "Lora", js "Georgia");
      (js "Courier New", js "Roboto Mono");
      (js "Consolas", js "Roboto Mono");
      (js "Monaco", js "Roboto Mono");
      (js "Source Code Pro", js "Roboto Mono") ].

(** ** Scene nodes and host state *)

Record ColorRGB := { r : Qc; g : Qc; b : Qc }.

Inductive Paint :=
  | SOLID (color : ColorRGB)
  | IMAGE (imageHash : list N) (scaleMode : list N).

Inductive NodeType := FRAME | RECTANGLE | ELLIPSE | LINE | TEXT.

#[global] Instance NodeType_eq_dec : EqDecision NodeType.
Proof. solve_decision. Defined.

(** The property writes the pipeline performs on a node. *)
Inductive Assign :=
  | SetName (v : list N)
  | SetX (v : Qc)
  | SetY (v : Qc)
  | Resize (w h : Qc)
  | SetCornerRadius (v : Qc)
  | SetFills (v : list Paint)
  | SetStrokes (v : list Paint)
  | SetStrokeWeight (v : Qc)
  | SetRotation (v : Qc)
  | SetFontName (v : FontName)
  | SetCharacters (v : list N)
  | SetFontSize (v : Qc)
  | SetRangeFontName (s e : nat) (v : FontName)
  | SetRangeFontSize (s e : nat) (v : Qc)
  | SetRangeFills (s e : nat) (v : list Paint)
  | SetRangeTextDecoration (s e : nat) (v : list N)
  | SetTextAlignHorizontal (v : list N)
  | SetTextAlignVertical (v : list N)
  | SetTextAutoResize (v : list N).

Inductive SceneNode :=
  | Node (type : NodeType) (props : list Assign) (children : list SceneNode).

Definition nodeType (n : SceneNode) : NodeType :=
  match n with Node t _ _ => t end.
Definition nodeProps (n : SceneNode) : list Assign :=
  match n with Node _ p _ => p end.
Definition nodeChildren (n : SceneNode) : list SceneNode :=
  match n with Node _ _ c => c end.

(** Exceptions that travel through the pipeline. *)
Inductive Exn :=
  | FontLoadError (f : FontName)       (* rejected [figma.loadFontAsync] *)
  | Error (message : list N)           (* [throw new Error(message)] *)
  | TypeError (what : list N)          (* a property read on [undefined],
                                         a call of what is no function *)
  | HostError (call : list N).         (* a throwing host call *)

Inductive UiMessage :=
  | MsgError (message : list N)
  | MsgProgress (percent : Qc) (text : list N)
  | MsgComplete (slideCount : nat).

Inductive ConsoleEntry :=
  | ConsoleLog (text : list N) (values : list Qc)
  | ConsoleError (text : list N) (err : Exn).

(** The host as the pipeline sees it.  [parent] holds the children
    appended so far to the container passed as [parent] in the source:
    it is always the slide frame being filled (groups flatten into it, a
    table fills a frame of its own), and it lives in the state so that
    what was appended before a throw stays appended. *)
Record Host := mkHost {
  fontLog : list FontName;        (* [figma.loadFontAsync] calls, oldest first *)
  created : list NodeType;        (* [figma.create*] calls, oldest first *)
  console : list ConsoleEntry;
  ui : list UiMessage;            (* [figma.ui.postMessage] calls *)
  parent : list SceneNode;
  page : list SceneNode;          (* children of [figma.currentPage] *)
  selection : list SceneNode;
  viewport : list (list SceneNode) (* [scrollAndZoomIntoView] calls *)
}.

Definition initialHost : Host := mkHost [] [] [] [] [] [] [] [].

Definition with_fontLog (v : list FontName) (h : Host) : Host :=
  mkHost v (created h) (console h) (ui h) (parent h) (page h) (selection h) (viewport h).
Definition with_created (v : list NodeType) (h : Host) : Host :=
  mkHost (fontLog h) v (console h) (ui h) (parent h) (page h) (selection h) (viewport h).
Definition with_console (v : list ConsoleEntry) (h : Host) : Host :=
  mkHost (fontLog h) (created h) v (ui h) (parent h) (page h) (selection h) (viewport h).
Definition with_ui (v : list UiMessage) (h : Host) : Host :=
  mkHost (fontLog h) (created h) (console h) v (parent h) (page h) (selection h) (viewport h).
Definition with_parent (v : list SceneNode) (h : Host) : Host :=
  mkHost (fontLog h) (created h) (console h) (ui h) v (page h) (selection h) (viewport h).
Definition with_page (v : list SceneNode) (h : Host) : Host :=
  mkHost (fontLog h) (created h) (console h) (ui h) (parent h) v (selection h) (viewport h).
Definition with_selection (v : list SceneNode) (h : Host) : Host :=
  mkHost (fontLog h) (created h) (console h) (ui h) (parent h) (page h) v (viewport h).
Definition with_viewport (v : list (list SceneNode)) (h : Host) : Host :=
  mkHost (fontLog h) (created h) (console h) (ui h) (parent h) (page h) (selection h) v.

(** ** The effect monad: host state plus exceptions *)

Inductive Outcome (A : Type) :=
  | Return (a : A)
  | Throw (e : Exn).
Arguments Return {A} a.
Arguments Throw {A} e.

Definition M (A : Type) : Type := Host → Host * Outcome A.

Definition ret {A} (a : A) : M A := fun h => (h, Return a).
Definition throw {A} (e : Exn) : M A := fun h => (h, Throw e).
Definition bind {A B} (m : M A) (k : A → M B) : M B :=
  fun h => match m h with
           | (h', Return a) => k a h'
           | (h', Throw e) => (h', Throw e)
           end.
(** [try { m } catch (err) { handler err }] *)
Definition tryCatch {A} (m : M A) (handler : Exn → M A) : M A :=
  fun h => match m h with
           | (h', Return a) => (h', Return a)
           | (h', Throw e) => handler e h'
           end.

Notation "'let*' x := m 'in' k" := (bind m (fun x => k))
  (at level 10, x name, m at level 100, k at level 200).
Notation "m >> k" := (bind m (fun _ => k))
  (at level 100, k at level 200, right associativity).

(** A loop body outcome for code that may [return] from inside a loop
    or a [try] block: [Some v] is "the function returned [v]". *)
Fixpoint firstReturn {A B} (body : A → M (option B)) (l : list A) : M (option B) :=
  match l with
  | [] => ret None
  | a :: l' =>
      let* res := body a in
      match res with
      | Some v => ret (Some v)
      | None => firstReturn body l'
      end
  end.

(** [for (const a of l) { body a }] *)
Section ForOf.
Context {A : Type} (body : A → M unit).

Fixpoint forOf (l : list A) : M unit :=
  match l with
  | [] => ret tt
  | a :: l' => body a >> forOf l'
  end.
End ForOf.


(** ** What the platform decides

    The calls whose result the pipeline cannot compute: whether a font
    load is accepted (it may depend on the loads attempted before), the
    base64 decoder and the image constructor (both may throw), the
    two irrational functions of [Math], and which names every object
    inherits a member for from [Object.prototype]. *)
Class Platform := {
  fontAvailable : list FontName → FontName → bool;
  base64Decode : list N → option (list N);
  createImageHash : list N → option (list N);
  Math_sqrt : Qc → Qc;
  Math_atan2 : Qc → Qc → Qc;
  Math_PI : Qc;
  inherits : list N → bool
}.

(** [obj[key]] on an object literal whose own properties are [obj]:
    the own property when there is one, and otherwise the inherited
    member of that name, when there is one. *)
Definition getMember `{Platform} (obj : gmap (list N) (list N)) (key : list N)
  : option Value :=
  match obj !! key with
  | Some s => Some (Str s)
  | None => if inherits key then Some (Proto key) else None
  end.

Section FontResolver.
Context `{Platform}.

(** [await figma.loadFontAsync(fontName)] *)
Definition loadFontAsync (fontName : FontName) : M unit :=
  fun h =>
    let h' := with_fontLog (fontLog h ++ [fontName]) h in
    if fontAvailable (fontLog h) fontName
    then (h', Return tt)
    else (h', Throw (FontLoadError fontName)).

(** The style chosen from weight and italic flag. *)
Definition styleFor (fontWeight : Qc) (isItalic : bool) : list N :=
  if bool_decide (Qc_of_Z 700 ≤ fontWeight) && isItalic then js "Bold Italic"
  else if bool_decide (Qc_of_Z 700 ≤ fontWeight) then js "Bold"
  else if isItalic then js "Italic"
  else js "Regular".

(** [fontWeight >= 700 ? 'Bold' : 'Regular'] *)
Definition fallbackStyleFor (fontWeight : Qc) : list N :=
  if bool_decide (Qc_of_Z 700 ≤ fontWeight) then js "Bold" else js "Regular".

(** The block used for the exact family, the mapped family and each
    generic candidate: the full style, and in the handler the
    weight-only style when italic was asked for. *)
Definition tryFamily (fam : Value) (fontWeight : Qc) (isItalic : bool)
  : M (option FontName) :=
  tryCatch
    (let fontName := {| family := fam; style := styleFor fontWeight isItalic |} in
     loadFontAsync fontName >> ret (Some fontName))
    (fun _ =>
       if isItalic
       then tryCatch
              (let fontName := {| family := fam;
                                  style := fallbackStyleFor fontWeight |} in
               loadFontAsync fontName >> ret (Some fontName))
              (fun _ => ret None)
       else ret None).

Definition isSerif (fontFamily : list N) : bool :=
  testAnyKeyword [js "serif"; js "georgia"; js "times"; js "garamond";
                  js "palatino"] fontFamily.
Definition isMono (fontFamily : list N) : bool :=
  testAnyKeyword [js "mono"; js "courier"; js "consolas"; js "code"] fontFamily.

Definition fallbackList (fontFamily : list N) : list (list N) :=
  if isMono fontFamily then [js "Roboto Mono"; js "Courier New"]
  else if isSerif fontFamily then [js "Georgia"; js "Times New Roman"]
  else [js "Inter"; js "Roboto"; js "Arial"].

Definition loadFont (fontFamily : list N) (fontWeight : Qc) (isItalic : bool)
  : M FontName :=
  (* Try to load the exact font *)
  let* exact := tryFamily (Str fontFamily) fontWeight isItalic in
  match exact with
  | Some fontName => ret fontName
  | None =>
    (* Try fallback from mapping *)
    let* mapped :=
      match getMember FONT_FALLBACKS fontFamily with
      | Some fallbackFamily =>
          if truthyValue fallbackFamily
          then tryFamily fallbackFamily fontWeight isItalic
          else ret None
      | None => ret None
      end in
    match mapped with
    | Some fontName => ret fontName
    | None =>
      (* Try system fonts based on category *)
      let* generic :=
        firstReturn (fun fallback => tryFamily (Str fallback) fontWeight isItalic)
                    (fallbackList fontFamily) in
      match generic with
      | Some fontName => ret fontName
      | None =>
        (* Last resort: try Inter Regular *)
        tryCatch
          (let fontName := {| family := Str (js "Inter"); style := js "Regular" |} in
           loadFontAsync fontName >> ret fontName)
          (fun _ =>
             (* Even Inter failed, try Arial *)
             let fontName :=
               {| family := Str (js "Arial"); style := js "Regular" |} in
             loadFontAsync fontName >> ret fontName)
      end
    end
  end.

(** *** The resolution ladder, as the specification lists it *)

Definition familyRungs (fam : Value) (fontWeight : Qc) (isItalic : bool)
  : list FontName :=
  {| family := fam; style := styleFor fontWeight isItalic |}
  :: (if isItalic
      then [{| family := fam; style := fallbackStyleFor fontWeight |}]
      else []).

(** [FONT_FALLBACKS[fontFamily]], when it is truthy: the mapped family
    or, under an inherited name, a member of [Object.prototype]. *)
Definition mappedFamily (fontFamily : list N) : option Value :=
  match getMember FONT_FALLBACKS fontFamily with
  | Some fallbackFamily =>
      if truthyValue fallbackFamily then Some fallbackFamily else None
  | None => None
  end.

Definition exactRungs (fontFamily : list N) (fontWeight : Qc) (isItalic : bool) :=
  familyRungs (Str fontFamily) fontWeight isItalic.
Definition mappedRungs (fontFamily : list N) (fontWeight : Qc) (isItalic : bool) :=
  match mappedFamily fontFamily with
  | Some fallbackFamily => familyRungs fallbackFamily fontWeight isItalic
  | None => []
  end.
Definition genericRungs (fontFamily : list N) (fontWeight : Qc) (isItalic : bool) :=
  flat_map (fun fallback => familyRungs (Str fallback) fontWeight isItalic)
           (fallbackList fontFamily).
Definition interRegular : FontName :=
  {| family := Str (js "Inter"); style := js "Regular" |}.
Definition arialRegular : FontName :=
  {| family := Str (js "Arial"); style := js "Regular" |}.

Definition lastResortRungs : list FontName := [interRegular; arialRegular].

Definition ladder (fontFamily : list N) (fontWeight : Qc) (isItalic : bool)
  : list FontName :=
  exactRungs fontFamily fontWeight isItalic
  ++ mappedRungs fontFamily fontWeight isItalic
  ++ genericRungs fontFamily fontWeight isItalic
  ++ lastResortRungs.

(** The longest ladder: two rungs for the exact family, two for the
    mapped one, six for three generic candidates, two last resorts. *)
Definition ladderLength : nat := 12.

(** Climbing a list of rungs from a given load history: the history
    after the climb and the first rung that loaded, if any. *)
Fixpoint climb (log : list FontName) (rungs : list FontName)
  : list FontName * option FontName :=
  match rungs with
  | [] => (log, None)
  | f :: rest =>
      if fontAvailable log f then (log ++ [f], Some f)
      else climb (log ++ [f]) rest
  end.

(** Rung [i] of [rungs] loads when reached after the rungs before it
    were tried from history [log]. *)
Definition loadsAt (log : list FontName) (rungs : list FontName) (i : nat) : Prop :=
  ∃ f, rungs !! i = Some f ∧ fontAvailable (log ++ take i rungs) f = true.

End FontResolver.

(** ** The document model *)

Record TextRun := {
  run_text : list N;
  run_fontFamily : list N;
  run_fontSize : Qc;
  run_fontWeight : Qc;
  run_fontStyle : list N;
  run_color : option ColorRGB;
  run_backgroundColor : option ColorRGB;
  run_underline : bool;
  run_strikethrough : bool;
  run_alignment : option (list N)
}.

Record TextContent := {
  runs : list TextRun;
  alignment : option (list N)
}.

(** The fields of a slide element other than its children; an optional
    field that is absent is [None]. *)
Record ElementFields := {
  el_type : list N;
  el_x : Qc;
  el_y : Qc;
  el_width : Qc;
  el_height : Qc;
  el_scaleX : Qc;
  el_scaleY : Qc;
  el_rotation : Qc;
  el_shapeType : option (list N);
  el_fillColor : option ColorRGB;
  el_strokeColor : option ColorRGB;
  el_strokeWeight : option Qc;
  el_text : option TextContent;
  el_imageUrl : option (list N);
  el_rows : option (list (list (list N)));
  el_rowCount : option Qc;
  el_columnCount : option Qc
}.

Inductive SlideElement :=
  | Element (fields : ElementFields) (children : option (list SlideElement)).

Definition fieldsOf (element : SlideElement) : ElementFields :=
  match element with Element f _ => f end.
Definition childrenOf (element : SlideElement) : option (list SlideElement) :=
  match element with Element _ c => c end.

(** [{ ...fields, x: x, y: y }] *)
Definition withXY (x y : Qc) (f : ElementFields) : ElementFields :=
  {| el_type := el_type f; el_x := x; el_y := y;
     el_width := el_width f; el_height := el_height f;
     el_scaleX := el_scaleX f; el_scaleY := el_scaleY f;
     el_rotation := el_rotation f; el_shapeType := el_shapeType f;
     el_fillColor := el_fillColor f; el_strokeColor := el_strokeColor f;
     el_strokeWeight := el_strokeWeight f; el_text := el_text f;
     el_imageUrl := el_imageUrl f; el_rows := el_rows f;
     el_rowCount := el_rowCount f; el_columnCount := el_columnCount f |}.

(** [{ ...fields, rowCount: rc, columnCount: cc }] *)
Definition withCounts (rc cc : option Qc) (f : ElementFields) : ElementFields :=
  {| el_type := el_type f; el_x := el_x f; el_y := el_y f;
     el_width := el_width f; el_height := el_height f;
     el_scaleX := el_scaleX f; el_scaleY := el_scaleY f;
     el_rotation := el_rotation f; el_shapeType := el_shapeType f;
     el_fillColor := el_fillColor f; el_strokeColor := el_strokeColor f;
     el_strokeWeight := el_strokeWeight f; el_text := el_text f;
     el_imageUrl := el_imageUrl f; el_rows := el_rows f;
     el_rowCount := rc; el_columnCount := cc |}.

Record Dimension := { magnitude : Qc; dim_unit : list N }.
Record PageSize := { ps_width : option Dimension; ps_height : option Dimension }.

Record Slide := { index : Qc; elements : list SlideElement }.

Record Presentation := {
  title : list N;
  pageSize : option PageSize;
  slides : list Slide
}.

(** ** Host calls *)

(** [figma.createFrame()], [figma.createRectangle()], ... *)
Definition figmaCreate (t : NodeType) : M unit :=
  fun h => (with_created (created h ++ [t]) h, Return tt).

(** [parent.appendChild(node)] *)
Definition appendChild (node : SceneNode) : M unit :=
  fun h => (with_parent (parent h ++ [node]) h, Return tt).

(** [figma.currentPage.appendChild(frame)] *)
Definition appendToPage (frame : SceneNode) : M unit :=
  fun h => (with_page (page h ++ [frame]) h, Return tt).

(** [figma.ui.postMessage(msg)] *)
Definition postMessage (msg : UiMessage) : M unit :=
  fun h => (with_ui (ui h ++ [msg]) h, Return tt).

Definition consoleWrite (entry : ConsoleEntry) : M unit :=
  fun h => (with_console (console h ++ [entry]) h, Return tt).

Definition setSelection (nodes : list SceneNode) : M unit :=
  fun h => (with_selection nodes h, Return tt).

Definition scrollAndZoomIntoView (nodes : list SceneNode) : M unit :=
  fun h => (with_viewport (viewport h ++ [nodes]) h, Return tt).

(** Run [m] against a fresh container and give back the children it
    appended; the enclosing container is put back afterwards. *)
Definition fillContainer {A} (m : M A) : M (list SceneNode) :=
  fun h =>
    match m (with_parent [] h) with
    | (h', Return _) => (with_parent (parent h) h', Return (parent h'))
    | (h', Throw e) => (with_parent (parent h) h', Throw e)
    end.

(** A host call that throws when the platform gives no result. *)
Definition hostCall {A} (name : list N) (result : option A) : M A :=
  match result with
  | Some a => ret a
  | None => throw (HostError name)
  end.

(** ** Small pieces shared by the materializers *)

Definition white : ColorRGB := {| r := 1; g := 1; b := 1 |}.
Definition placeholderGray : ColorRGB :=
  {| r := Q2Qc (9 # 10); g := Q2Qc (9 # 10); b := Q2Qc (9 # 10) |}.
Definition cellBorderGray : ColorRGB :=
  {| r := Q2Qc (8 # 10); g := Q2Qc (8 # 10); b := Q2Qc (8 # 10) |}.

(** [if (element.rotation && element.rotation !== 0) node.rotation = -element.rotation] *)
Definition rotationWrites (rotation : Qc) : list Assign :=
  if bool_decide (rotation = 0) then [] else [SetRotation (- rotation)].

Definition isLineTerminator (c : N) : bool :=
  bool_decide (c ∈ [10; 13; 8232; 8233]%N).

(** The longest prefix of [s] free of the code unit [c]. *)
Fixpoint takeUntil (c : N) (s : list N) : list N :=
  match s with
  | a :: s' => if bool_decide (a = c) then [] else a :: takeUntil c s'
  | [] => []
  end.

(** [s.match(/^data:([^;]+);base64,(.+)$/)]: the two captures.  The
    first group is the longest run without a semicolon after [data:],
    the second is the non-empty rest, free of line terminators. *)
Definition matchDataUrl (s : list N) : option (list N * list N) :=
  if startsWith (js "data:") s then
    let rest := drop 5 s in
    let mime := takeUntil 59 rest in
    let after := drop (length mime) rest in
    if truthy mime && startsWith (js ";base64,") after then
      let payload := drop 8 after in
      if truthy payload && forallb (fun c => negb (isLineTerminator c)) payload
      then Some (mime, payload)
      else None
    else None
  else None.

(** [runs.map(r => r.text).join('')] *)
Definition fullTextOf (rs : list TextRun) : list N :=
  concat (run_text <$> rs).

(** The placeholder rectangle of the image materializer. *)
Definition placeholder (x y width height : Qc) (name : list N) : SceneNode :=
  Node RECTANGLE
       [SetX x; SetY y; Resize width height;
        SetFills [SOLID placeholderGray]; SetName name] [].

Definition Qc_of_nat (n : nat) : Qc := Qc_of_Z (Z.of_nat n).

(** ** The scene builder and its leaf materializers *)

Section SceneBuilder.
Context `{Platform}.

(** The per-run loop of [createTextForShape]: [props] are the writes
    made on the text node so far, [charIndex] the running offset. *)
Fixpoint styleRuns (scale : Qc) (rs : list TextRun) (charIndex : nat)
    (props : list Assign) : M (list Assign) :=
  match rs with
  | [] => ret props
  | run :: rest =>
      let runLength := length (run_text run) in
      if bool_decide (runLength = 0%nat) then styleRuns scale rest charIndex props
      else
        let startIndex := charIndex in
        let endIndex := (charIndex + runLength)%nat in
        let* props' :=
          tryCatch
            (let isItalic := bool_decide (run_fontStyle run = js "italic") in
             let* fontName :=
               loadFont (run_fontFamily run) (run_fontWeight run) isItalic in
             let runFontSize :=
               Math_round (num_or (run_fontSize run) (Qc_of_Z 14) * scale) in
             ret (props
                  ++ [SetRangeFontName startIndex endIndex fontName;
                      SetRangeFontSize startIndex endIndex (Math_max 1 runFontSize)]
                  ++ match run_color run with
                     | Some c => [SetRangeFills startIndex endIndex [SOLID c]]
                     | None => []
                     end
                  ++ (if run_underline run
                      then [SetRangeTextDecoration startIndex endIndex (js "UNDERLINE")]
                      else [])
                  ++ (if run_strikethrough run
                      then [SetRangeTextDecoration startIndex endIndex
                                                   (js "STRIKETHROUGH")]
                      else [])))
            (fun err =>
               consoleWrite (ConsoleError (js "Failed to apply text formatting:") err)
               >> ret props) in
        styleRuns scale rest endIndex props'
  end.

Definition horizontalAlign (a : option (list N)) : list N :=
  let alignment :=
    match a with
    | Some s => if truthy s then s else js "START"
    | None => js "START"
    end in
  if bool_decide (alignment = js "CENTER") then js "CENTER"
  else if bool_decide (alignment = js "END") then js "RIGHT"
  else if bool_decide (alignment = js "JUSTIFIED") then js "JUSTIFIED"
  else js "LEFT".

(** The set [fontsToLoad] the source fills before loading is never
    read; it has no counterpart here. *)
Definition createTextForShape (element : ElementFields)
    (x y width height scale : Qc) : M unit :=
  match el_text element with
  | None => ret tt
  | Some text =>
    match runs text with
    | [] => ret tt
    | firstRun :: _ =>
      (* Combine all text runs *)
      let fullText := fullTextOf (runs text) in
      if negb (truthy (trim fullText)) then ret tt
      else
        figmaCreate TEXT >>
        let isFirstItalic := bool_decide (run_fontStyle firstRun = js "italic") in
        let* defaultFont :=
          loadFont (run_fontFamily firstRun) (run_fontWeight firstRun)
                   isFirstItalic in
        let scaledFontSize :=
          Math_round (num_or (run_fontSize firstRun) (Qc_of_Z 14) * scale) in
        let* styled :=
          styleRuns scale (runs text) 0
                    [SetFontName defaultFont; SetCharacters fullText;
                     SetFontSize (Math_max 1 scaledFontSize)] in
        let padding := Qc_of_Z 4 * scale in
        appendChild
          (Node TEXT
             (styled
              ++ [Resize (Math_max 1 (width - padding * 2))
                         (Math_max 1 (height - padding * 2));
                  SetX (x + padding); SetY (y + padding);
                  SetTextAlignHorizontal (horizontalAlign (alignment text));
                  SetTextAlignVertical (js "CENTER");
                  SetTextAutoResize (js "NONE")]
              ++ rotationWrites (el_rotation element))
             [])
    end
  end.

Definition createShape (element : ElementFields)
    (x y width height scale : Qc) : M unit :=
  let shapeType :=
    match el_shapeType element with
    | Some s => if truthy s then s else js "RECTANGLE"
    | None => js "RECTANGLE"
    end in
  let* node :=
    if bool_decide (shapeType = js "ELLIPSE")
    then figmaCreate ELLIPSE >> ret (ELLIPSE, [Resize width height])
    else if bool_decide (shapeType = js "ROUND_RECTANGLE")
    then figmaCreate RECTANGLE
         >> ret (RECTANGLE,
                 [Resize width height;
                  SetCornerRadius (Math_min width height * Q2Qc (1 # 10))])
    else figmaCreate RECTANGLE >> ret (RECTANGLE, [Resize width height]) in
  appendChild
    (Node (fst node)
       (snd node
        ++ [SetX x; SetY y]
        ++ [SetFills match el_fillColor element with
                     | Some c => [SOLID c]
                     | None => []
                     end]
        ++ match el_strokeColor element, el_strokeWeight element with
           | Some c, Some w =>
               if bool_decide (w = 0) then []
               else [SetStrokes [SOLID c]; SetStrokeWeight w]
           | _, _ => []
           end
        ++ rotationWrites (el_rotation element))
       [])
  >>
  (* Handle text content *)
  match el_text element with
  | Some text =>
      if bool_decide (0 < length (runs text))%nat
      then createTextForShape element x y width height scale
      else ret tt
  | None => ret tt
  end.

Definition createImage (element : ElementFields) (x y width height : Qc)
    (imageData : gmap (list N) (list N)) : M unit :=
  match el_imageUrl element with
  | None => ret tt
  | Some imageUrl =>
    if negb (truthy imageUrl) then ret tt
    else
      let failedToLoad :=
        figmaCreate RECTANGLE
        >> appendChild (placeholder x y width height (js "Image (failed to load)")) in
      let onError := fun err =>
        consoleWrite (ConsoleError (js "Failed to create image:") err) >>
        figmaCreate RECTANGLE >>
        appendChild (placeholder x y width height (js "Image (error)")) in
      match getMember imageData imageUrl with
      | None => failedToLoad
      | Some (Str base64Data) =>
        if negb (truthy base64Data) then failedToLoad
        else
          tryCatch
            (match matchDataUrl base64Data with
             | None => throw (Error (js "Invalid base64 data"))
             | Some (_, base64Content) =>
                 let* bytes :=
                   hostCall (js "base64Decode") (base64Decode base64Content) in
                 let* imageHash :=
                   hostCall (js "createImage") (createImageHash bytes) in
                 figmaCreate RECTANGLE >>
                 appendChild
                   (Node RECTANGLE
                      ([SetX x; SetY y; Resize width height;
                        SetFills [IMAGE imageHash (js "FILL")];
                        SetName (js "Image")]
                       ++ rotationWrites (el_rotation element))
                      [])
             end)
            onError
      | Some (Proto _) =>
        (* an inherited member is truthy and has no [match] to call *)
        tryCatch (throw (TypeError (js "base64Data.match"))) onError
      end
  end.

Definition createLine (element : ElementFields) (x y width height : Qc) : M unit :=
  figmaCreate LINE >>
  let lineLength := Math_sqrt (width * width + height * height) in
  appendChild
    (Node LINE
       ([SetX x; SetY y; Resize lineLength 0]
        ++ (if negb (bool_decide (width = 0)) || negb (bool_decide (height = 0))
            then [SetRotation (- (Math_atan2 height width
                                  * (Qc_of_Z 180 / Math_PI)))]
            else [])
        ++ match el_strokeColor element with
           | Some c => [SetStrokes [SOLID c]]
           | None => []
           end
        ++ [SetStrokeWeight match el_strokeWeight element with
                            | Some w => num_or w 1
                            | None => 1
                            end])
       []).

(** The nodes one table cell contributes to the table frame. *)
Definition cellNodes (rows : list (list (list N))) (fontName : FontName)
    (cellWidth cellHeight padding scale : Qc) (row col : nat) : list SceneNode :=
  let cellText := default [] (rows !! row ≫= (fun cells => cells !! col)) in
  Node RECTANGLE
       [SetX (Qc_of_nat col * cellWidth); SetY (Qc_of_nat row * cellHeight);
        Resize cellWidth cellHeight;
        SetFills [SOLID white]; SetStrokes [SOLID cellBorderGray];
        SetStrokeWeight (Math_max 1 scale)] []
  :: (if truthy (trim cellText)
      then [Node TEXT
                 [SetFontName fontName; SetCharacters cellText;
                  SetFontSize (Qc_of_Z 10);
                  SetX (Qc_of_nat col * cellWidth + padding);
                  SetY (Qc_of_nat row * cellHeight + padding);
                  Resize (cellWidth - padding * 2) (cellHeight - padding * 2);
                  SetTextAutoResize (js "TRUNCATE")] []]
      else []).

(** The two nested loops of [createTable], row-major. *)
Definition tableCells (rows : list (list (list N))) (fontName : FontName)
    (rowCount colCount : nat) (cellWidth cellHeight padding scale : Qc)
  : list SceneNode :=
  flat_map (fun row =>
    flat_map (fun col =>
      cellNodes rows fontName cellWidth cellHeight padding scale row col)
      (seq 0 colCount))
    (seq 0 rowCount).

Definition createTable (element : ElementFields)
    (x y width height scale : Qc) : M unit :=
  let rows := default [] (el_rows element) in
  let rowCount := length rows in
  let colCount := match rows with row0 :: _ => length row0 | [] => 0%nat end in
  if bool_decide (rowCount = 0%nat) || bool_decide (colCount = 0%nat) then ret tt
  else
    (* Create a frame to hold the table *)
    figmaCreate FRAME >>
    let cellWidth := width / Qc_of_nat colCount in
    let cellHeight := height / Qc_of_nat rowCount in
    (* Load a default font *)
    let* fontName := loadFont (js "Arial") (Qc_of_Z 400) false in
    let padding := Qc_of_Z 4 * scale in
    let cells :=
      tableCells rows fontName rowCount colCount cellWidth cellHeight padding scale in
    forOf figmaCreate (nodeType <$> cells) >>
    appendChild
      (Node FRAME
         [SetName (js "Table"); SetX x; SetY y; Resize width height; SetFills []]
         cells).

End SceneBuilder.

Section Dispatch.
Context `{Platform}.

Definition effectiveWidth (element : ElementFields) (scale : Qc) : Qc :=
  Math_max 1 (el_width element * Math_abs (el_scaleX element) * scale).
Definition effectiveHeight (element : ElementFields) (scale : Qc) : Qc :=
  Math_max 1 (el_height element * Math_abs (el_scaleY element) * scale).

(** The body of [createElement], with the call to [createGroup] left
    open: it is the one place where the recursion goes through. *)
Definition dispatch (group : Qc → Qc → M unit) (element : ElementFields)
    (imageData : gmap (list N) (list N)) (scale : Qc) : M unit :=
  (* Apply scale to dimensions and positions *)
  let width := effectiveWidth element scale in
  let height := effectiveHeight element scale in
  let x := el_x element * scale in
  let y := el_y element * scale in
  if bool_decide (el_type element = js "shape")
  then createShape element x y width height scale
  else if bool_decide (el_type element = js "image")
  then createImage element x y width height imageData
  else if bool_decide (el_type element = js "line")
  then createLine element x y width height
  else if bool_decide (el_type element = js "table")
  then createTable element x y width height scale
  else if bool_decide (el_type element = js "group")
  then group x y
  else ret tt.

(** [{ ...child, x: x / scale + child.x, y: y / scale + child.y }].
    The division is the exact one of the rationals, so here
    [x * scale / scale] is [x] for every non-zero scale; a double
    rounds both operations, and the two agree at scale 1 only (module
    [Doubles] below).  The properties proved of a group therefore
    simplify this expression at scale 1 and nowhere else. *)
Definition childFields (x y scale : Qc) (child : SlideElement) : ElementFields :=
  withXY (x / scale + el_x (fieldsOf child)) (y / scale + el_y (fieldsOf child))
         (fieldsOf child).

(** [createElement] on the element that has the children of [node] and
    the fields [fields].  The source rebuilds each child of a group
    with a new position before recursing; taking the fields apart from
    the tree keeps the recursion structural. *)
Fixpoint createElementOn (node : SlideElement) (fields : ElementFields)
    (imageData : gmap (list N) (list N)) (scale : Qc) {struct node} : M unit :=
  dispatch
    (fun x y =>
       match node with
       | Element _ (Some children) =>
           if bool_decide (length children = 0%nat) then ret tt
           else forOf (fun child =>
                         createElementOn child (childFields x y scale child)
                                         imageData scale)
                      children
       | Element _ None => ret tt
       end)
    fields imageData scale.

Definition createElement (element : SlideElement)
    (imageData : gmap (list N) (list N)) (scale : Qc) : M unit :=
  createElementOn element (fieldsOf element) imageData scale.

Definition createGroup (element : SlideElement) (x y : Qc)
    (imageData : gmap (list N) (list N)) (scale : Qc) : M unit :=
  match childrenOf element with
  | Some children =>
      if bool_decide (length children = 0%nat) then ret tt
      else forOf (fun child =>
                    (* Offset child positions by group position *)
                    let childElement :=
                      Element (childFields x y scale child) (childrenOf child) in
                    createElement childElement imageData scale)
                 children
  | None => ret tt
  end.

Definition createElements (elements : list SlideElement)
    (imageData : gmap (list N) (list N)) (scale : Qc) : M unit :=
  forOf (fun element =>
           tryCatch (createElement element imageData scale)
                    (fun err =>
                       consoleWrite
                         (ConsoleError (js "Failed to create element:") err)))
        elements.

(** *** The orchestrator *)

Definition targetWidth : Qc := Qc_of_Z 1920.
Definition targetHeight : Qc := Qc_of_Z 1080.
Definition spacing : Qc := Qc_of_Z 100.

Definition emuToPixels (emu : Qc) : Qc :=
  num_or emu 0 / Qc_of_Z 914400 * Qc_of_Z 72.

(** [presentation.pageSize?.width?.magnitude || fallback] *)
Definition pageMagnitude (presentation : Presentation)
    (side : PageSize → option Dimension) (fallback : Qc) : Qc :=
  match pageSize presentation ≫= side with
  | Some d => num_or (magnitude d) fallback
  | None => fallback
  end.

Definition fitScale (presentation : Presentation) : Qc :=
  let originalWidth :=
    emuToPixels (pageMagnitude presentation ps_width (Qc_of_Z 9144000)) in
  let originalHeight :=
    emuToPixels (pageMagnitude presentation ps_height (Qc_of_Z 5143500)) in
  Math_min (targetWidth / originalWidth) (targetHeight / originalHeight).

Definition progressPercent (i totalSlides : nat) : Qc :=
  Qc_of_Z 60 + (Qc_of_nat i / Qc_of_nat totalSlides) * Qc_of_Z 35.

Definition progressText (i totalSlides : nat) : list N :=
  js "Creating slide " ++ js_nat (i + 1) ++ js " of " ++ js_nat totalSlides
  ++ js "...".

Definition slideFrame (i : nat) (children : list SceneNode) : SceneNode :=
  Node FRAME
       [SetName (js "Slide " ++ js_nat (i + 1));
        Resize targetWidth targetHeight;
        SetX (Qc_of_nat i * (targetWidth + spacing));
        SetY 0;
        SetFills [SOLID white]]
       children.

(** The loop over slides from index [i] on; the result is
    [createdFrames] after the loop. *)
Fixpoint slideLoop (totalSlides i : nat) (rest : list Slide)
    (createdFrames : list SceneNode)
    (imageData : gmap (list N) (list N)) (scale : Qc) : M (list SceneNode) :=
  match rest with
  | [] => ret createdFrames
  | slide :: rest' =>
      postMessage (MsgProgress (progressPercent i totalSlides)
                               (progressText i totalSlides)) >>
      (* Create frame for slide at fixed 1920x1080 *)
      figmaCreate FRAME >>
      (* Create elements within the frame with scaling *)
      let* children :=
        fillContainer (createElements (elements slide) imageData scale) in
      let frame := slideFrame i children in
      appendToPage frame >>
      slideLoop totalSlides (S i) rest' (createdFrames ++ [frame]) imageData scale
  end.

Definition importPresentation (presentation : Presentation)
    (imageData : gmap (list N) (list N)) : M unit :=
  let totalSlides := length (slides presentation) in
  if bool_decide (totalSlides = 0%nat)
  then postMessage (MsgError (js "No slides found in presentation"))
  else
    let originalWidth :=
      emuToPixels (pageMagnitude presentation ps_width (Qc_of_Z 9144000)) in
    let originalHeight :=
      emuToPixels (pageMagnitude presentation ps_height (Qc_of_Z 5143500)) in
    let scale := fitScale presentation in
    consoleWrite (ConsoleLog (js "Original size, Scale")
                             [originalWidth; originalHeight; scale]) >>
    let* createdFrames :=
      slideLoop totalSlides 0 (slides presentation) [] imageData scale in
    (* Select all created frames and zoom to fit *)
    setSelection createdFrames >>
    scrollAndZoomIntoView createdFrames >>
    postMessage (MsgComplete totalSlides).

End Dispatch.

(** ** The earlier build of the plugin

    The compiled build shipped next to the sources predates the fit
    scale and the italic handling.  Its text materializer and the font
    resolver it calls are embedded here. *)
Module Legacy.
Section Legacy.
Context `{Platform}.

(** [try { load f; return f } catch { }] *)
Definition tryStyle (fam : Value) (style : list N) : M (option FontName) :=
  let fontName := {| family := fam; style := style |} in
  tryCatch (loadFontAsync fontName >> ret (Some fontName)) (fun _ => ret None).

Definition loadFont (fontFamily : list N) (fontWeight : Qc) : M FontName :=
  (* Determine style based on weight *)
  let style := fallbackStyleFor fontWeight in
  let* exact := tryStyle (Str fontFamily) style in
  match exact with
  | Some fontName => ret fontName
  | None =>
    let* mapped :=
      match getMember FONT_FALLBACKS fontFamily with
      | Some fallbackFamily =>
          if truthyValue fallbackFamily
          then tryStyle fallbackFamily style
          else ret None
      | None => ret None
      end in
    match mapped with
    | Some fontName => ret fontName
    | None =>
      let* generic :=
        firstReturn (fun fallback => tryStyle (Str fallback) style)
                    (fallbackList fontFamily) in
      match generic with
      | Some fontName => ret fontName
      | None =>
        tryCatch
          (let fontName := {| family := Str (js "Inter"); style := js "Regular" |} in
           loadFontAsync fontName >> ret fontName)
          (fun _ =>
             let fontName :=
               {| family := Str (js "Arial"); style := js "Regular" |} in
             loadFontAsync fontName >> ret fontName)
      end
    end
  end.

Definition createTextForShape (element : ElementFields)
    (x y width height : Qc) : M unit :=
  match el_text element with
  | None => ret tt
  | Some text =>
    (* the node is created, and positioned, before the text is looked at *)
    figmaCreate TEXT >>
    let placed := [SetX (x + Qc_of_Z 8); SetY (y + Qc_of_Z 8)] in
    (* Combine all text runs *)
    let fullText := fullTextOf (runs text) in
    if negb (truthy (trim fullText)) then ret tt
    else
      match runs text with
      | [] => throw (TypeError (js "firstRun"))
      | firstRun :: _ =>
        let* fontName :=
          loadFont (run_fontFamily firstRun) (run_fontWeight firstRun) in
        let* color := hostCall (js "fills") (run_color firstRun) in
        appendChild
          (Node TEXT
             (placed
              ++ [SetFontName fontName; SetCharacters fullText;
                  SetFontSize (num_or (run_fontSize firstRun) (Qc_of_Z 14));
                  SetFills [SOLID color];
                  Resize (Math_max 1 (width - Qc_of_Z 16))
                         (Math_max 1 (height - Qc_of_Z 16));
                  SetTextAutoResize (js "HEIGHT")]
              ++ rotationWrites (el_rotation element))
             [])
      end
  end.

End Legacy.
End Legacy.

(** ** The rest of the compiled build

    The materializers, the dispatcher and the orchestrator of the
    compiled build.  Its image and line materializers are, statement
    for statement, those of the sources, and are shared; its text
    materializer and font resolver are the ones of [Legacy]. *)
Module Compiled.
Section Compiled.
Context `{Platform}.

Definition createShape (element : ElementFields)
    (x y width height : Qc) : M unit :=
  let shapeType :=
    match el_shapeType element with
    | Some s => if truthy s then s else js "RECTANGLE"
    | None => js "RECTANGLE"
    end in
  let* node :=
    if bool_decide (shapeType = js "ELLIPSE")
    then figmaCreate ELLIPSE >> ret (ELLIPSE, [Resize width height])
    else if bool_decide (shapeType = js "ROUND_RECTANGLE")
    then figmaCreate RECTANGLE
         >> ret (RECTANGLE,
                 [Resize width height;
                  SetCornerRadius (Math_min width height * Q2Qc (1 # 10))])
    else figmaCreate RECTANGLE >> ret (RECTANGLE, [Resize width height]) in
  appendChild
    (Node (fst node)
       (snd node
        (* Position *)
        ++ [SetX x; SetY y]
        (* Apply fill *)
        ++ [SetFills match el_fillColor element with
                     | Some c => [SOLID c]
                     | None => []
                     end]
        (* Apply stroke *)
        ++ match el_strokeColor element, el_strokeWeight element with
           | Some c, Some w =>
               if bool_decide (w = 0) then []
               else [SetStrokes [SOLID c]; SetStrokeWeight w]
           | _, _ => []
           end
        ++ rotationWrites (el_rotation element))
       [])
  >>
  (* Handle text content *)
  match el_text element with
  | Some text =>
      if bool_decide (0 < length (runs text))%nat
      then Legacy.createTextForShape element x y width height
      else ret tt
  | None => ret tt
  end.

Definition cellNodes (rows : list (list (list N))) (fontName : FontName)
    (cellWidth cellHeight : Qc) (row col : nat) : list SceneNode :=
  let cellText := default [] (rows !! row ≫= (fun cells => cells !! col)) in
  Node RECTANGLE
       [SetX (Qc_of_nat col * cellWidth); SetY (Qc_of_nat row * cellHeight);
        Resize cellWidth cellHeight;
        SetFills [SOLID white]; SetStrokes [SOLID cellBorderGray];
        SetStrokeWeight 1] []
  :: (if truthy (trim cellText)
      then [Node TEXT
                 [SetFontName fontName; SetCharacters cellText;
                  SetFontSize (Qc_of_Z 10);
                  SetX (Qc_of_nat col * cellWidth + Qc_of_Z 4);
                  SetY (Qc_of_nat row * cellHeight + Qc_of_Z 4);
                  Resize (cellWidth - Qc_of_Z 8) (cellHeight - Qc_of_Z 8);
                  SetTextAutoResize (js "TRUNCATE")] []]
      else []).

Definition createTable (element : ElementFields)
    (x y width height : Qc) : M unit :=
  let rows := default [] (el_rows element) in
  let rowCount := length rows in
  let colCount := match rows with row0 :: _ => length row0 | [] => 0%nat end in
  if bool_decide (rowCount = 0%nat) || bool_decide (colCount = 0%nat) then ret tt
  else
    (* Create a frame to hold the table *)
    figmaCreate FRAME >>
    let cellWidth := width / Qc_of_nat colCount in
    let cellHeight := height / Qc_of_nat rowCount in
    (* Load a default font *)
    let* fontName := Legacy.loadFont (js "Arial") (Qc_of_Z 400) in
    let cells :=
      flat_map (fun row =>
        flat_map (fun col => cellNodes rows fontName cellWidth cellHeight row col)
                 (seq 0 colCount))
        (seq 0 rowCount) in
    forOf figmaCreate (nodeType <$> cells) >>
    appendChild
      (Node FRAME
         [SetName (js "Table"); SetX x; SetY y; Resize width height; SetFills []]
         cells).

(** The [switch] of [createElement], with the call to [createGroup]
    left open. *)
Definition dispatch (group : Qc → Qc → M unit) (element : ElementFields)
    (imageData : gmap (list N) (list N)) : M unit :=
  (* Apply scale to dimensions *)
  let width := Math_max 1 (el_width element * Math_abs (el_scaleX element)) in
  let height := Math_max 1 (el_height element * Math_abs (el_scaleY element)) in
  let x := el_x element in
  let y := el_y element in
  if bool_decide (el_type element = js "shape")
  then createShape element x y width height
  else if bool_decide (el_type element = js "image")
  then createImage element x y width height imageData
  else if bool_decide (el_type element = js "line")
  then createLine element x y width height
  else if bool_decide (el_type element = js "table")
  then createTable element x y width height
  else if bool_decide (el_type element = js "group")
  then group x y
  else ret tt.

(** [Object.assign(Object.assign({}, child), { x: x + child.x, y: y + child.y })] *)
Definition childFields (x y : Qc) (child : SlideElement) : ElementFields :=
  withXY (x + el_x (fieldsOf child)) (y + el_y (fieldsOf child)) (fieldsOf child).

Fixpoint createElementOn (node : SlideElement) (fields : ElementFields)
    (imageData : gmap (list N) (list N)) {struct node} : M unit :=
  dispatch
    (fun x y =>
       match node with
       | Element _ (Some children) =>
           if bool_decide (length children = 0%nat) then ret tt
           else forOf (fun child =>
                         createElementOn child (childFields x y child) imageData)
                      children
       | Element _ None => ret tt
       end)
    fields imageData.

Definition createElement (element : SlideElement)
    (imageData : gmap (list N) (list N)) : M unit :=
  createElementOn element (fieldsOf element) imageData.

Definition createGroup (element : SlideElement) (x y : Qc)
    (imageData : gmap (list N) (list N)) : M unit :=
  match childrenOf element with
  | Some children =>
      if bool_decide (length children = 0%nat) then ret tt
      else forOf (fun child =>
                    (* Offset child positions by group position *)
                    let childElement :=
                      Element (childFields x y child) (childrenOf child) in
                    createElement childElement imageData)
                 children
  | None => ret tt
  end.

Definition createElements (elements : list SlideElement)
    (imageData : gmap (list N) (list N)) : M unit :=
  forOf (fun element =>
           tryCatch (createElement element imageData)
                    (fun err =>
                       consoleWrite
                         (ConsoleError (js "Failed to create element:") err)))
        elements.

End Compiled.
End Compiled.

(** An element tree the compiled build and the sources treat alike:
    no shape in it carries text runs.  Only the children of a group
    count, the others are never looked at. *)
Fixpoint textless (element : SlideElement) : bool :=
  match element with
  | Element fields children =>
      if bool_decide (el_type fields = js "group")
      then match children with
           | Some cs => forallb textless cs
           | None => true
           end
      else if bool_decide (el_type fields = js "shape")
      then match el_text fields with
           | Some text => bool_decide (length (runs text) = 0%nat)
           | None => true
           end
      else true
  end.


(** ** Reading a node back *)

Definition lastWrite {A} (pick : Assign → option A) (n : SceneNode) : option A :=
  last (omap pick (nodeProps n)).

Definition nodeX : SceneNode → option Qc :=
  lastWrite (fun a => match a with SetX v => Some v | _ => None end).
Definition nodeY : SceneNode → option Qc :=
  lastWrite (fun a => match a with SetY v => Some v | _ => None end).
Definition nodeSize : SceneNode → option (Qc * Qc) :=
  lastWrite (fun a => match a with Resize w h => Some (w, h) | _ => None end).
Definition nodeFills : SceneNode → option (list Paint) :=
  lastWrite (fun a => match a with SetFills v => Some v | _ => None end).
Definition nodeName : SceneNode → option (list N) :=
  lastWrite (fun a => match a with SetName v => Some v | _ => None end).

(** Position and size of a node, when all four were written. *)
Definition nodeBox (n : SceneNode) : option (Qc * Qc * Qc * Qc) :=
  match nodeX n, nodeY n, nodeSize n with
  | Some x, Some y, Some (w, h) => Some (x, y, w, h)
  | _, _, _ => None
  end.

(** ** Positions on IEEE doubles

    The expressions that place the child of a group, on the numbers
    the plugin runs on.  [createElement] scales the group's position,
    [createGroup] divides it by the scale again and adds the child's
    offset, and [createElement] scales the sum: three rounded
    operations where scaling the sum of position and offset takes
    one. *)
Module Doubles.
Import PrimFloat.
Local Open Scope float_scope.

(** [(emu || 0) / 914400 * 72] *)
Definition emuToPixels (emu : float) : float :=
  (if is_nan emu || (emu =? 0) then 0 else emu) / 914400 * 72.

(** [Math.min] of two numbers neither of which is NaN or a zero. *)
Definition Math_min (a b : float) : float := if a <=? b then a else b.

(** The fit scale of a presentation that states no page size:
    [Math.min(targetWidth / originalWidth, targetHeight / originalHeight)]
    with the two default magnitudes. *)
Definition defaultFitScale : float :=
  let originalWidth := emuToPixels 9144000 in
  let originalHeight := emuToPixels 5143500 in
  Math_min (1920 / originalWidth) (1080 / originalHeight).

(** [const x = element.x * scale] of [createElement]. *)
Definition scaled (coordinate scale : float) : float := coordinate * scale.

(** [x: x / scale + child.x] of [createGroup]. *)
Definition childCoordinate (x scale child : float) : float := x / scale + child.

(** The coordinate at which the child of a group is drawn: the one
    [createElement] computes from the child [createGroup] built out of
    the scaled coordinate of the group. *)
Definition placedChild (group child scale : float) : float :=
  scaled (childCoordinate (scaled group scale) scale child) scale.

(** The group's coordinate plus the child's offset, scaled once. *)
Definition directPlacement (group child scale : float) : float :=
  scaled (group + child) scale.

End Doubles.

(** ** Sample platforms and documents *)

(** The names of the members of [Object.prototype] in ECMAScript. *)
Definition objectPrototypeMembers : list (list N) :=
  [js "constructor"; js "hasOwnProperty"; js "isPrototypeOf";
   js "propertyIsEnumerable"; js "toLocaleString"; js "toString"; js "valueOf";
   js "__proto__"; js "__defineGetter__"; js "__defineSetter__";
   js "__lookupGetter__"; js "__lookupSetter__"].

(** A platform where the fonts in [installed] load and nothing else
    does, every payload decodes to itself, every image is accepted,
    and objects inherit the members ECMAScript gives them. *)
Definition platformWith (installed : list FontName) : Platform :=
  {| fontAvailable := fun _ f => bool_decide (f ∈ installed);
     base64Decode := fun s => Some s;
     createImageHash := fun bytes => Some bytes;
     Math_sqrt := fun v => v;
     Math_atan2 := fun _ _ => 0;
     Math_PI := Q2Qc (355 # 113);
     inherits := fun key => bool_decide (key ∈ objectPrototypeMembers) |}.

Definition font (fam sty : string) : FontName :=
  {| family := Str (js fam); style := js sty |}.

(** A shape-like record with every optional field absent. *)
Definition blankFields (type : string) (x y width height : Z) : ElementFields :=
  {| el_type := js type; el_x := Qc_of_Z x; el_y := Qc_of_Z y;
     el_width := Qc_of_Z width; el_height := Qc_of_Z height;
     el_scaleX := 1; el_scaleY := 1; el_rotation := 0;
     el_shapeType := None; el_fillColor := None; el_strokeColor := None;
     el_strokeWeight := None; el_text := None; el_imageUrl := None;
     el_rows := None; el_rowCount := None; el_columnCount := None |}.

(** ** Vocabulary of the statements *)

(** The image hash the platform yields for a key: the entry exists, is
    a non-empty data URL, decodes, and is accepted as an image. *)
Definition usableImage `{Platform} (imageData : gmap (list N) (list N))
    (imageUrl : list N) : option (list N) :=
  match imageData !! imageUrl with
  | Some base64Data =>
      if truthy base64Data then
        match matchDataUrl base64Data with
        | Some (_, base64Content) =>
            match base64Decode base64Content with
            | Some bytes => createImageHash bytes
            | None => None
            end
        | None => None
        end
      else None
  | None => None
  end.

(** The host after a run that created [newNodes], logged [entries] and
    appended [appended] to the container, and did nothing else. *)
Definition hostAfter (h : Host) (newNodes : list NodeType)
    (entries : list ConsoleEntry) (appended : list SceneNode) : Host :=
  mkHost (fontLog h) (created h ++ newNodes) (console h ++ entries) (ui h)
         (parent h ++ appended) (page h) (selection h) (viewport h).

(** The image rectangle of the image materializer. *)
Definition imageRectangle (x y width height rotation : Qc) (imageHash : list N)
  : SceneNode :=
  Node RECTANGLE
       ([SetX x; SetY y; Resize width height;
         SetFills [IMAGE imageHash (js "FILL")]; SetName (js "Image")]
        ++ rotationWrites rotation) [].

(** A text-bearing shape whose only run is a single space. *)
Definition blankRun : TextRun :=
  {| run_text := js " "; run_fontFamily := js "Arial";
     run_fontSize := Qc_of_Z 12; run_fontWeight := Qc_of_Z 400;
     run_fontStyle := js "normal"; run_color := Some white;
     run_backgroundColor := None; run_underline := false;
     run_strikethrough := false; run_alignment := None |}.

Definition withText (text : option TextContent) (f : ElementFields) : ElementFields :=
  {| el_type := el_type f; el_x := el_x f; el_y := el_y f;
     el_width := el_width f; el_height := el_height f;
     el_scaleX := el_scaleX f; el_scaleY := el_scaleY f;
     el_rotation := el_rotation f; el_shapeType := el_shapeType f;
     el_fillColor := el_fillColor f; el_strokeColor := el_strokeColor f;
     el_strokeWeight := el_strokeWeight f; el_text := text;
     el_imageUrl := el_imageUrl f; el_rows := el_rows f;
     el_rowCount := el_rowCount f; el_columnCount := el_columnCount f |}.

Definition withImageUrl (url : option (list N)) (f : ElementFields) : ElementFields :=
  {| el_type := el_type f; el_x := el_x f; el_y := el_y f;
     el_width := el_width f; el_height := el_height f;
     el_scaleX := el_scaleX f; el_scaleY := el_scaleY f;
     el_rotation := el_rotation f; el_shapeType := el_shapeType f;
     el_fillColor := el_fillColor f; el_strokeColor := el_strokeColor f;
     el_strokeWeight := el_strokeWeight f; el_text := el_text f;
     el_imageUrl := url; el_rows := el_rows f;
     el_rowCount := el_rowCount f; el_columnCount := el_columnCount f |}.

Definition withScales (sx sy : Qc) (f : ElementFields) : ElementFields :=
  {| el_type := el_type f; el_x := el_x f; el_y := el_y f;
     el_width := el_width f; el_height := el_height f;
     el_scaleX := sx; el_scaleY := sy;
     el_rotation := el_rotation f; el_shapeType := el_shapeType f;
     el_fillColor := el_fillColor f; el_strokeColor := el_strokeColor f;
     el_strokeWeight := el_strokeWeight f; el_text := el_text f;
     el_imageUrl := el_imageUrl f; el_rows := el_rows f;
     el_rowCount := el_rowCount f; el_columnCount := el_columnCount f |}.

Definition withRows (rows : option (list (list (list N)))) (f : ElementFields)
  : ElementFields :=
  {| el_type := el_type f; el_x := el_x f; el_y := el_y f;
     el_width := el_width f; el_height := el_height f;
     el_scaleX := el_scaleX f; el_scaleY := el_scaleY f;
     el_rotation := el_rotation f; el_shapeType := el_shapeType f;
     el_fillColor := el_fillColor f; el_strokeColor := el_strokeColor f;
     el_strokeWeight := el_strokeWeight f; el_text := el_text f;
     el_imageUrl := el_imageUrl f; el_rows := rows;
     el_rowCount := el_rowCount f; el_columnCount := el_columnCount f |}.

Definition blankTextShape : ElementFields :=
  withText (Some {| runs := [blankRun]; alignment := None |})
           (blankFields "shape" 0 0 100 40).

Definition noFonts : Platform := platformWith [].
Definition interOnly : Platform :=
  platformWith [font "Inter" "Bold"; font "Inter" "Regular"].

(** A 10 by 10 shape stretched twice across and three times down. *)
Definition stretchedShape : ElementFields :=
  withScales (Qc_of_Z 2) (Qc_of_Z 3) (blankFields "shape" 0 0 10 10).

(** An image element at (30, 40), 200 by 100, whose key is [url]. *)
Definition imageWithUrl (url : option (list N)) : ElementFields :=
  withImageUrl url (blankFields "image" 30 40 200 100).

(** The host once an attempt on one element is over: as the attempt
    left it when it returned, with one more console entry when it threw. *)
Definition settled (attempt : Host * Outcome unit) : Host :=
  match attempt with
  | (h', Return _) => h'
  | (h', Throw err) =>
      with_console
        (console h' ++ [ConsoleError (js "Failed to create element:") err]) h'
  end.

(** A shape carrying the text "Hi" in Helvetica. *)
Definition hiRun : TextRun :=
  {| run_text := js "Hi"; run_fontFamily := js "Helvetica";
     run_fontSize := Qc_of_Z 12; run_fontWeight := Qc_of_Z 400;
     run_fontStyle := js "normal"; run_color := Some white;
     run_backgroundColor := None; run_underline := false;
     run_strikethrough := false; run_alignment := None |}.

Definition hiShape : SlideElement :=
  Element (withText (Some {| runs := [hiRun]; alignment := None |})
                    (blankFields "shape" 0 0 100 40)) None.

Definition plainRectangle : SlideElement :=
  Element (blankFields "shape" 5 5 20 30) None.

(** The boxes [(x, y, width, height)] of a uniform grid, row-major. *)
Definition cellBoxes (rowCount colCount : nat) (cellWidth cellHeight : Qc)
  : list (Qc * Qc * Qc * Qc) :=
  flat_map (fun row =>
    map (fun col => (Qc_of_nat col * cellWidth, Qc_of_nat row * cellHeight,
                     cellWidth, cellHeight))
        (seq 0 colCount))
    (seq 0 rowCount).

(** The boxes of the rectangles among [nodes], in order. *)
Definition rectangleBoxes (nodes : list SceneNode) : list (option (Qc * Qc * Qc * Qc)) :=
  nodeBox <$> filter (fun n => nodeType n = RECTANGLE) nodes.

(** A 2 by 3 table, 300 by 100 at the origin, that declares 7 rows and
    1 column. *)
Definition table2x3 : ElementFields :=
  withCounts (Some (Qc_of_Z 7)) (Some 1)
    (withRows (Some [[js "a"; js ""; js "c"]; [js "d"; js " "; js "f"]])
              (blankFields "table" 0 0 300 100)).

(** The leaves of an element, in document order, each at its absolute
    document position: [flattenAt X Y node] is for [node] placed at
    [(X, Y)], and a child of a group is placed at the group's position
    plus its own. *)
Fixpoint flattenAt (X Y : Qc) (node : SlideElement) : list ElementFields :=
  match node with
  | Element fields children =>
      if bool_decide (el_type fields = js "group") then
        match children with
        | Some cs =>
            flat_map (fun child =>
                        flattenAt (X + el_x (fieldsOf child))
                                  (Y + el_y (fieldsOf child)) child) cs
        | None => []
        end
      else [withXY X Y fields]
  end.

Definition flatten (element : SlideElement) : list ElementFields :=
  flattenAt (el_x (fieldsOf element)) (el_y (fieldsOf element)) element.

(** [createElement] on an element that is not a group. *)
Definition createLeaf `{Platform} (fields : ElementFields)
    (imageData : gmap (list N) (list N)) (scale : Qc) : M unit :=
  dispatch (fun _ _ => ret tt) fields imageData scale.

(** Induction over an element and, for a group, all its children. *)
Section SlideElementInduction.
Context (P : SlideElement → Prop).
Context (Hleaf : ∀ fields, P (Element fields None)).
Context (Hnode : ∀ fields children,
            Forall P children → P (Element fields (Some children))).

Fixpoint SlideElement_nested_ind (element : SlideElement) : P element :=
  match element with
  | Element fields None => Hleaf fields
  | Element fields (Some children) =>
      Hnode fields children
        ((fix all (l : list SlideElement) : Forall P l :=
            match l with
            | [] => @List.Forall_nil _ P
            | child :: l' =>
                @List.Forall_cons _ P child l' (SlideElement_nested_ind child)
                                  (all l')
            end) children)
  end.
End SlideElementInduction.

(** What a materializer may do to the host: it never touches the
    message channel, the page, the selection or the viewport, and it
    only ever appends to the container. *)
Definition sceneStep (h h' : Host) : Prop :=
  ui h' = ui h ∧ page h' = page h ∧ selection h' = selection h
  ∧ viewport h' = viewport h ∧ ∃ more, parent h' = parent h ++ more.

Definition sceneOnly {A} (m : M A) : Prop := ∀ h, sceneStep h (m h).1.

(** A group at (100, 50) holding one 20 by 30 shape at (10, 10). *)
Definition groupOfOne : SlideElement :=
  Element (blankFields "group" 100 50 0 0)
          (Some [Element (blankFields "shape" 10 10 20 30) None]).

(** The progress event for slide [i] of [totalSlides]. *)
Definition progressEvent (totalSlides i : nat) : UiMessage :=
  MsgProgress (Qc_of_Z 60 + (Qc_of_nat i / Qc_of_nat totalSlides) * Qc_of_Z 35)
              (js "Creating slide " ++ js_nat (i + 1) ++ js " of "
               ++ js_nat totalSlides ++ js "...").

(** The frames of slides [i], [i+1], ... given what each one holds. *)
Definition slideFrames `{Platform} (i : nat) (contents : list (list SceneNode))
  : list SceneNode :=
  zip_with slideFrame (seq i (length contents)) contents.

(** A deck of two slides: a plain rectangle, then a shape with text. *)
Definition twoSlides : Presentation :=
  {| title := js "Deck"; pageSize := None;
     slides := [ {| index := 0; elements := [plainRectangle] |};
                 {| index := 1; elements := [hiShape] |} ] |}.

Definition emptyDeck : Presentation :=
  {| title := js "Empty"; pageSize := None; slides := [] |}.

(** ** The message handler

    [figma.ui.onmessage]: the plugin is the host plus the fact that
    [figma.closePlugin()] was called.  [messageOf err] is [err.message]
    when [err instanceof Error], and nothing otherwise. *)

Record PluginMessage := {
  msg_type : list N;
  msg_presentation : Presentation;
  msg_imageData : gmap (list N) (list N)
}.

Record Plugin := { plugin_host : Host; plugin_closed : bool }.

Definition onmessage `{Platform} (messageOf : Exn → option (list N))
    (msg : PluginMessage) (p : Plugin) : Plugin * Outcome unit :=
  if bool_decide (msg_type msg = js "import-slides") then
    let run :=
      tryCatch
        (importPresentation (msg_presentation msg) (msg_imageData msg))
        (fun err =>
           postMessage
             (MsgError match messageOf err with
                       | Some message => message
                       | None => js "Failed to import slides"
                       end))
        (plugin_host p) in
    ({| plugin_host := run.1; plugin_closed := plugin_closed p |}, run.2)
  else if bool_decide (msg_type msg = js "cancel") then
    ({| plugin_host := plugin_host p; plugin_closed := true |}, Return tt)
  else (p, Return tt).

(** The error events among the messages sent to the UI. *)
Definition isErrorEvent (m : UiMessage) : bool :=
  match m with MsgError _ => true | _ => false end.


(** * The sign-in worker

    The worker that runs the Google sign-in for the plugin and hands
    the access token over through a key-value store.  Conventions of
    this embedding:
    - a request is its method and the parts of its URL the worker
      reads; [searchParams] is the query as an ordered list of pairs;
    - the key-value store is read-your-writes and keeps, with each
      value, the time (in seconds) at which it expires; store
      operations do not fail, and the time of a request is given with
      it;
    - the token exchange with Google is decided by the platform: the
      request fails, or the reply carries a truthy [error], or it
      carries none and has an [access_token];
    - a page is kept as the template and the values interpolated into
      it, a JSON body as the fields of the object, a redirect as the
      target URL and its parameters. *)
Module Worker.

Definition SCOPES : list N :=
  js "https://www.googleapis.com/auth/presentations.readonly" ++ js " "
  ++ js "https://www.googleapis.com/auth/userinfo.email" ++ js " "
  ++ js "https://www.googleapis.com/auth/userinfo.profile".

(** 5 minutes in seconds *)
Definition TOKEN_TTL : Z := 300.

Record Request := {
  req_method : list N;
  req_origin : list N;
  req_pathname : list N;
  req_searchParams : list (list N * list N)
}.

(** [url.searchParams.get(name)]: the first value given for [name]. *)
Fixpoint get (params : list (list N * list N)) (name : list N) : option (list N) :=
  match params with
  | (k, v) :: rest => if bool_decide (k = name) then Some v else get rest name
  | [] => None
  end.

(** [v || d] on a string that may be [null]. *)
Definition str_or (v : option (list N)) (d : list N) : list N :=
  match v with
  | Some s => if truthy s then s else d
  | None => d
  end.

(** The store: each key with its value and its expiration time. *)
Definition emptyStore : gmap (list N) (list N * Z) := ∅.

Definition kvGet (kv : gmap (list N) (list N * Z)) (now : Z) (key : list N)
  : option (list N) :=
  match kv !! key with
  | Some (value, expiration) =>
      if bool_decide (now < expiration)%Z then Some value else None
  | None => None
  end.

Definition kvPut (kv : gmap (list N) (list N * Z)) (now : Z) (key value : list N)
    (expirationTtl : Z) : gmap (list N) (list N * Z) :=
  <[key := (value, (now + expirationTtl)%Z)]> kv.

Definition kvDelete (kv : gmap (list N) (list N * Z)) (key : list N)
  : gmap (list N) (list N * Z) := delete key kv.

Record Env := {
  GOOGLE_CLIENT_ID : list N;
  GOOGLE_CLIENT_SECRET : list N;
  TOKEN_STORE : option (gmap (list N) (list N * Z))
}.

Inductive TokenReply :=
  | ExchangeThrows (message : list N)
  | ExchangeError (error : list N) (error_description : option (list N))
  | ExchangeGrants (access_token : list N).

(** [fetch('https://oauth2.googleapis.com/token', ...)] and [.json()] *)
Class Google := {
  exchange : list N → list N → list N → list N → TokenReply
}.

(** The two page templates interpolate one value each; neither uses
    the session it is given. *)
Inductive Page :=
  | SuccessPage (accessToken : list N)
  | ErrorPage (error : list N).

Inductive JsonValue := JString (s : list N) | JBool (b : bool).

Inductive Body :=
  | BodyNull
  | BodyText (text : list N)
  | BodyHtml (page : Page)
  | BodyJson (fields : list (list N * JsonValue)).

Record Url := { url_base : list N; url_searchParams : list (list N * list N) }.

Inductive Response :=
  | Redirect (location : Url) (status : Z)
  | Reply (status : Z) (headers : list (list N * list N)) (body : Body).

Definition successPage (accessToken sessionId : list N) : Page :=
  SuccessPage accessToken.

Definition errorPage (error sessionId : list N) : Page :=
  ErrorPage error.

(** CORS headers for API requests *)
Definition corsHeaders : list (list N * list N) :=
  [(js "Access-Control-Allow-Origin", js "*");
   (js "Access-Control-Allow-Methods", js "GET, POST, OPTIONS");
   (js "Access-Control-Allow-Headers", js "Content-Type")].

Definition htmlHeaders : list (list N * list N) :=
  [(js "Content-Type", js "text/html")].

Definition jsonHeaders : list (list N * list N) :=
  corsHeaders ++ [(js "Content-Type", js "application/json")].

(** The handler: the response, and the store after the request. *)
Definition fetch `{Google} (request : Request) (env : Env) (now : Z)
  : Response * option (gmap (list N) (list N * Z)) :=
  let params := req_searchParams request in
  (* Handle CORS preflight *)
  if bool_decide (req_method request = js "OPTIONS")
  then (Reply 200 corsHeaders BodyNull, TOKEN_STORE env)
  (* Route: Start OAuth flow *)
  else if bool_decide (req_pathname request = js "/auth") then
    let sessionId := str_or (get params (js "session")) [] in
    let redirectUri := req_origin request ++ js "/callback" in
    (Redirect
       {| url_base := js "https://accounts.google.com/o/oauth2/v2/auth";
          url_searchParams :=
            [(js "client_id", GOOGLE_CLIENT_ID env);
             (js "redirect_uri", redirectUri);
             (js "response_type", js "code");
             (js "scope", SCOPES);
             (js "access_type", js "offline");
             (js "prompt", js "consent");
             (* Pass session ID through OAuth state *)
             (js "state", sessionId)] |}
       302,
     TOKEN_STORE env)
  (* Route: OAuth callback *)
  else if bool_decide (req_pathname request = js "/callback") then
    let code := str_or (get params (js "code")) [] in
    let error := str_or (get params (js "error")) [] in
    let sessionId := str_or (get params (js "state")) [] in
    if truthy error
    then (Reply 200 htmlHeaders (BodyHtml (errorPage error sessionId)),
          TOKEN_STORE env)
    else if negb (truthy code)
    then (Reply 200 htmlHeaders
                (BodyHtml (errorPage (js "No authorization code received")
                                     sessionId)),
          TOKEN_STORE env)
    else
      (* Exchange code for tokens *)
      let redirectUri := req_origin request ++ js "/callback" in
      match exchange code (GOOGLE_CLIENT_ID env) (GOOGLE_CLIENT_SECRET env)
                     redirectUri with
      | ExchangeThrows message =>
          (Reply 200 htmlHeaders (BodyHtml (errorPage message sessionId)),
           TOKEN_STORE env)
      | ExchangeError error description =>
          (Reply 200 htmlHeaders
                 (BodyHtml (errorPage (str_or description error) sessionId)),
           TOKEN_STORE env)
      | ExchangeGrants access_token =>
          (* Store token with session ID in KV for polling *)
          let store :=
            match TOKEN_STORE env with
            | Some kv =>
                if truthy sessionId
                then Some (kvPut kv now sessionId access_token TOKEN_TTL)
                else Some kv
            | None => None
            end in
          (Reply 200 htmlHeaders (BodyHtml (successPage access_token sessionId)),
           store)
      end
  (* Route: Poll for token *)
  else if bool_decide (req_pathname request = js "/token") then
    let sessionId := str_or (get params (js "session")) [] in
    if negb (truthy sessionId)
    then (Reply 400 jsonHeaders
                (BodyJson [(js "error", JString (js "Missing session ID"))]),
          TOKEN_STORE env)
    else
      (* Check if KV is configured *)
      match TOKEN_STORE env with
      | None =>
          (Reply 500 jsonHeaders
                 (BodyJson
                    [(js "error",
                      JString (js "KV storage not configured. Please set up TOKEN_STORE KV binding."))]),
           None)
      | Some kv =>
          match kvGet kv now sessionId with
          | Some token =>
              if truthy token
              then
                (* Delete token after retrieval (one-time use) *)
                (Reply 200 jsonHeaders
                       (BodyJson [(js "success", JBool true);
                                  (js "accessToken", JString token)]),
                 Some (kvDelete kv sessionId))
              else
                (Reply 200 jsonHeaders
                       (BodyJson [(js "success", JBool false);
                                  (js "pending", JBool true)]),
                 Some kv)
          | None =>
              (* Token not ready yet *)
              (Reply 200 jsonHeaders
                     (BodyJson [(js "success", JBool false);
                                (js "pending", JBool true)]),
               Some kv)
          end
      end
  (* Default: show info *)
  else (Reply 200 [(js "Content-Type", js "text/plain")]
              (BodyText (js "GSlides Figma OAuth Worker. Use /auth to start.")),
        TOKEN_STORE env).

(** The session a request speaks for: the [state] of a callback, the
    [session] of any other request. *)
Definition sessionOf (request : Request) : list N :=
  if bool_decide (req_pathname request = js "/callback")
  then str_or (get (req_searchParams request) (js "state")) []
  else str_or (get (req_searchParams request) (js "session")) [].

(** The environment with the store [store]. *)
Definition withStore (store : option (gmap (list N) (list N * Z))) (env : Env) : Env :=
  {| GOOGLE_CLIENT_ID := GOOGLE_CLIENT_ID env;
     GOOGLE_CLIENT_SECRET := GOOGLE_CLIENT_SECRET env;
     TOKEN_STORE := store |}.

(** A poll for the token of [sessionId]. *)
Definition poll (sessionId : list N) : Request :=
  {| req_method := js "GET"; req_origin := js "https://worker.example";
     req_pathname := js "/token";
     req_searchParams := [(js "session", sessionId)] |}.

Definition pending : Response :=
  Reply 200 jsonHeaders
        (BodyJson [(js "success", JBool false); (js "pending", JBool true)]).

Definition handedOver (token : list N) : Response :=
  Reply 200 jsonHeaders
        (BodyJson [(js "success", JBool true); (js "accessToken", JString token)]).

(** A platform whose token exchange grants the token [tok-<code>]. *)
Definition granting : Google :=
  {| exchange := fun code _ _ _ => ExchangeGrants (js "tok-" ++ code) |}.

End Worker.


(** ** Vocabulary of the further properties *)

(** The character span a range write addresses. *)
Definition spanOf (a : Assign) : option (nat * nat) :=
  match a with
  | SetRangeFontName s e _ | SetRangeFontSize s e _
  | SetRangeFills s e _ | SetRangeTextDecoration s e _ => Some (s, e)
  | _ => None
  end.

Definition isFontRange (a : Assign) : bool :=
  match a with SetRangeFontName _ _ _ => true | _ => false end.

(** The font size a write sets, for the whole node or for a range. *)
Definition fontSizeOf (a : Assign) : option Qc :=
  match a with
  | SetFontSize v | SetRangeFontSize _ _ v => Some v
  | _ => None
  end.

Definition hasText (run : TextRun) : bool :=
  negb (bool_decide (length (run_text run) = 0%nat)).

Definition nodeStrokes : SceneNode → option (list Paint) :=
  lastWrite (fun a => match a with SetStrokes v => Some v | _ => None end).
Definition nodeStrokeWeight : SceneNode → option Qc :=
  lastWrite (fun a => match a with SetStrokeWeight v => Some v | _ => None end).
Definition nodeRotation : SceneNode → option Qc :=
  lastWrite (fun a => match a with SetRotation v => Some v | _ => None end).
Definition nodeCharacters : SceneNode → option (list N) :=
  lastWrite (fun a => match a with SetCharacters v => Some v | _ => None end).
Definition nodeCornerRadius : SceneNode → option Qc :=
  lastWrite (fun a => match a with SetCornerRadius v => Some v | _ => None end).

(** A run of "Hi" in a font that no sample platform has, and one in
    Inter. *)
Definition runOf (text family : string) : TextRun :=
  {| run_text := js text; run_fontFamily := js family;
     run_fontSize := Qc_of_Z 12; run_fontWeight := Qc_of_Z 400;
     run_fontStyle := js "normal"; run_color := Some white;
     run_backgroundColor := None; run_underline := true;
     run_strikethrough := false; run_alignment := None |}.

(** The texts of the text nodes among [nodes], in order. *)
Definition textsOf (nodes : list SceneNode) : list (list N) :=
  omap (fun n => if bool_decide (nodeType n = TEXT) then nodeCharacters n else None)
       nodes.

Definition nodeFontSize : SceneNode → option Qc :=
  lastWrite (fun a => match a with SetFontSize v => Some v | _ => None end).
Definition nodeFontName : SceneNode → option FontName :=
  lastWrite (fun a => match a with SetFontName v => Some v | _ => None end).

(** [cellText.trim()] is truthy. *)
Definition hasInk (cellText : list N) : bool := truthy (trim cellText).


(** The types of a node and of everything below it, parents first. *)
Fixpoint typesOf (n : SceneNode) : list NodeType :=
  match n with
  | Node t _ children => t :: flat_map typesOf children
  end.

(** The node books after a run from [h] to [h']: the nodes [new] were
    appended to the container, and the nodes created are exactly those
    of [new] and below, followed by [orphans], created and never
    appended. *)
Definition booksAfter (h h' : Host) (new : list SceneNode)
    (orphans : list NodeType) : Prop :=
  parent h' = parent h ++ new
  ∧ created h' = created h ++ flat_map typesOf new ++ orphans.

(** A run that returns leaves no orphan; a run that throws leaves
    exactly one, a frame or a text node. *)
Definition accounted (m : M unit) : Prop :=
  ∀ h, ∃ new,
    match (m h).2 with
    | Return _ => booksAfter h (m h).1 new []
    | Throw _ =>
        ∃ orphan, (orphan = FRAME ∨ orphan = TEXT)
                  ∧ booksAfter h (m h).1 new [orphan]
    end.


(** * Properties *)

#[local] Arguments FONT_FALLBACKS : simpl never.
#[local] Arguments js : simpl never.
#[local] Arguments familyRungs : simpl never.

(** ** State bookkeeping *)

Lemma with_fontLog_same h : with_fontLog (fontLog h) h = h.
Proof. by destruct h. Qed.

Lemma with_fontLog_twice a c h : with_fontLog a (with_fontLog c h) = with_fontLog a h.
Proof. done. Qed.

Lemma fontLog_with_fontLog a h : fontLog (with_fontLog a h) = a.
Proof. done. Qed.

(** ** The font resolver climbs its ladder *)

Section FontResolverFacts.
Context `{Platform}.

Lemma climb_app log l1 l2 :
  climb log (l1 ++ l2) =
  match climb log l1 with
  | (log', Some f) => (log', Some f)
  | (log', None) => climb log' l2
  end.
Proof.
  revert log. induction l1 as [|f l1 IH]; intros log; simpl; [done|].
  destruct (fontAvailable log f); [done|]. apply IH.
Qed.

(** What a climb leaves behind: the rungs tried are an initial
    segment of the ladder, each tried after the previous ones, and the
    result is the first rung that loaded. *)
Lemma climb_spec log rungs :
  ∃ n, (n ≤ length rungs)%nat
       ∧ (climb log rungs).1 = log ++ take n rungs
       ∧ (∀ i, (i < n - 1)%nat → ¬ loadsAt log rungs i)
       ∧ match (climb log rungs).2 with
         | Some f => (0 < n)%nat ∧ loadsAt log rungs (n - 1) ∧ rungs !! (n - 1)%nat = Some f
         | None => n = length rungs ∧ ∀ i, ¬ loadsAt log rungs i
         end.
Proof.
  revert log. induction rungs as [|f rest IH]; intros log; simpl.
  - exists 0%nat. rewrite app_nil_r. repeat split; try done; try lia.
    intros i [g [Hg _]]. by rewrite lookup_nil in Hg.
  - destruct (fontAvailable log f) eqn:Hf; simpl.
    + exists 1%nat. simpl. rewrite take_0. repeat split; try done; try lia.
      exists f. split; [done|]. by rewrite take_0, app_nil_r.
    + destruct (IH (log ++ [f])) as (n & Hn & Hlog & Hbefore & Hres).
      assert (Hshift : ∀ i, loadsAt log (f :: rest) (S i)
                            → loadsAt (log ++ [f]) rest i).
      { intros i [g [Hg Ha]]. exists g. split; [done|].
        simpl in Ha. by rewrite <- app_assoc. }
      assert (Hzero : ¬ loadsAt log (f :: rest) 0).
      { intros [g [Hg Ha]]. simpl in Hg. injection Hg as <-.
        rewrite take_0, app_nil_r in Ha. congruence. }
      exists (S n). split; [lia|]. split.
      { rewrite Hlog. simpl. by rewrite <- app_assoc. }
      split.
      { intros [|i] Hi; [done|]. intros Hl. apply (Hbefore i); [lia|].
        by apply Hshift. }
      destruct ((climb (log ++ [f]) rest).2) as [g|].
      * destruct Hres as (Hpos & [g' [Hg' Ha']] & Hlook).
        split; [lia|]. replace (S n - 1)%nat with (S (n - 1)) by lia.
        split; [|done]. exists g'. split; [done|].
        simpl. by rewrite <- app_assoc in Ha'.
      * destruct Hres as [-> Hnone]. split; [done|].
        intros [|i]; [done|]. intros Hl. by apply (Hnone i), Hshift.
Qed.

Lemma climb_finds log rungs i :
  loadsAt log rungs i → is_Some (climb log rungs).2.
Proof.
  intros Hl. destruct (climb_spec log rungs) as (n & _ & _ & _ & Hres).
  destruct ((climb log rungs).2); [done|].
  destruct Hres as [_ Hnone]. by destruct (Hnone i).
Qed.

Lemma tryFamily_climb fam fontWeight isItalic h :
  tryFamily fam fontWeight isItalic h =
  (with_fontLog (climb (fontLog h) (familyRungs fam fontWeight isItalic)).1 h,
   Return (climb (fontLog h) (familyRungs fam fontWeight isItalic)).2).
Proof.
  unfold tryFamily, familyRungs, tryCatch, bind, loadFontAsync, ret. simpl.
  destruct (fontAvailable (fontLog h) _) eqn:H1; simpl; [done|].
  destruct isItalic; simpl; [|done].
  by destruct (fontAvailable (fontLog h ++ _) _) eqn:H2; simpl.
Qed.

Lemma firstReturn_climb fontWeight isItalic fams h :
  firstReturn (fun fallback => tryFamily (Str fallback) fontWeight isItalic)
              fams h =
  (with_fontLog
     (climb (fontLog h)
            (flat_map (fun fallback =>
                         familyRungs (Str fallback) fontWeight isItalic)
                      fams)).1 h,
   Return (climb (fontLog h)
             (flat_map (fun fallback =>
                          familyRungs (Str fallback) fontWeight isItalic)
                       fams)).2).
Proof.
  revert h. induction fams as [|fam fams IH]; intros h;
    cbn [firstReturn flat_map].
  - simpl. by rewrite with_fontLog_same.
  - unfold bind at 1. rewrite tryFamily_climb, climb_app.
    destruct (climb (fontLog h) (familyRungs (Str fam) fontWeight isItalic))
      as [log' [f|]]; cbn [fst snd]; [done|].
    rewrite IH, !fontLog_with_fontLog, !with_fontLog_twice.
    by destruct (climb log' _).
Qed.

(** [loadFont] is the climb of [ladder]: it leaves exactly the load
    history of the climb, returns the first rung that loaded, and
    throws the failure of the last rung when none did. *)
Lemma loadFont_climb fontFamily fontWeight isItalic h :
  loadFont fontFamily fontWeight isItalic h =
  (with_fontLog (climb (fontLog h) (ladder fontFamily fontWeight isItalic)).1 h,
   match (climb (fontLog h) (ladder fontFamily fontWeight isItalic)).2 with
   | Some f => Return f
   | None => Throw (FontLoadError arialRegular)
   end).
Proof.
  unfold loadFont, ladder, exactRungs, mappedRungs, genericRungs, mappedFamily.
  unfold bind at 1. rewrite tryFamily_climb, climb_app.
  destruct (climb (fontLog h) (familyRungs (Str fontFamily) fontWeight isItalic))
    as [log1 [f|]]; cbn [fst snd]; [done|].
  set (h1 := with_fontLog log1 h).
  set (generic := flat_map _ (fallbackList fontFamily)).
  set (rest := fun mapped : option FontName => match mapped with
                              | Some fontName => ret fontName
                              | None => _
                              end).
  assert (Hmapped :
    ∀ rungs (m : M (option FontName)),
      m h1 = (with_fontLog (climb log1 rungs).1 h, Return (climb log1 rungs).2) →
      bind m rest h1 =
      (with_fontLog (climb log1 (rungs ++ generic ++ lastResortRungs)).1 h,
       match (climb log1 (rungs ++ generic ++ lastResortRungs)).2 with
       | Some f => Return f
       | None => Throw (FontLoadError arialRegular)
       end)).
  { intros rungs m Hm. unfold bind at 1. rewrite Hm, climb_app.
    destruct (climb log1 rungs) as [log2 [f|]]; cbn [fst snd]; [done|].
    unfold rest. unfold bind at 1. rewrite firstReturn_climb, climb_app.
    rewrite !fontLog_with_fontLog, !with_fontLog_twice. fold generic.
    destruct (climb log2 generic) as [log3 [f|]]; cbn [fst snd]; [done|].
    unfold tryCatch, bind, loadFontAsync, ret, lastResortRungs.
    cbn [climb]. rewrite !fontLog_with_fontLog, !with_fontLog_twice.
    destruct (fontAvailable log3 _); cbn [fst snd]; [done|].
    rewrite !fontLog_with_fontLog, !with_fontLog_twice.
    by destruct (fontAvailable (log3 ++ _) _). }
  destruct (getMember FONT_FALLBACKS fontFamily) as [fallbackFamily|].
  - destruct (truthyValue fallbackFamily).
    + apply Hmapped. by rewrite tryFamily_climb.
    + by apply (Hmapped []).
  - by apply (Hmapped []).
Qed.

End FontResolverFacts.

Section FontResolverClaims.
Context `{Platform}.

Lemma familyRungs_length fam fontWeight isItalic :
  (length (familyRungs fam fontWeight isItalic) ≤ 2)%nat.
Proof. unfold familyRungs. destruct isItalic; simpl; lia. Qed.

Lemma flat_map_familyRungs_length fontWeight isItalic fams :
  (length (flat_map (fun fallback =>
                       familyRungs (Str fallback) fontWeight isItalic) fams)
   ≤ 2 * length fams)%nat.
Proof.
  induction fams as [|fam fams IH]; cbn [flat_map length]; [lia|].
  rewrite length_app.
  pose proof (familyRungs_length (Str fam) fontWeight isItalic). lia.
Qed.

Lemma fallbackList_length fontFamily : (length (fallbackList fontFamily) ≤ 3)%nat.
Proof.
  unfold fallbackList. destruct (isMono fontFamily), (isSerif fontFamily);
    cbn [length]; lia.
Qed.

Lemma ladder_length fontFamily fontWeight isItalic :
  (length (ladder fontFamily fontWeight isItalic) ≤ ladderLength)%nat.
Proof.
  unfold ladder, exactRungs, mappedRungs, genericRungs, ladderLength.
  rewrite !length_app.
  pose proof (familyRungs_length (Str fontFamily) fontWeight isItalic).
  pose proof (flat_map_familyRungs_length fontWeight isItalic
                (fallbackList fontFamily)).
  pose proof (fallbackList_length fontFamily).
  assert (length (match mappedFamily fontFamily with
                  | Some fallbackFamily =>
                      familyRungs fallbackFamily fontWeight isItalic
                  | None => []
                  end) ≤ 2)%nat.
  { destruct (mappedFamily fontFamily); [apply familyRungs_length|simpl; lia]. }
  cbn [lastResortRungs length]. lia.
Qed.

(** The ladder always ends with Inter Regular then Arial Regular. *)
Lemma ladder_ends fontFamily fontWeight isItalic :
  ∃ front, ladder fontFamily fontWeight isItalic
           = front ++ [interRegular; arialRegular].
Proof.
  exists (exactRungs fontFamily fontWeight isItalic
          ++ mappedRungs fontFamily fontWeight isItalic
          ++ genericRungs fontFamily fontWeight isItalic).
  unfold ladder. by rewrite <- !app_assoc.
Qed.



(** At least one rung is tried, and the rungs tried are an initial
    segment of the ladder; nothing else of the host changes. *)
Lemma loadFont_attempts fontFamily fontWeight isItalic h :
  ∃ n, (1 ≤ n ≤ length (ladder fontFamily fontWeight isItalic))%nat
       ∧ (loadFont fontFamily fontWeight isItalic h).1
         = with_fontLog
             (fontLog h ++ take n (ladder fontFamily fontWeight isItalic)) h.
Proof.
  rewrite loadFont_climb. cbn [fst].
  destruct (climb_spec (fontLog h) (ladder fontFamily fontWeight isItalic))
    as (n & Hn & Hlog & _ & Hres).
  destruct (ladder_ends fontFamily fontWeight isItalic) as [front Hfront].
  assert (Hlen : length (ladder fontFamily fontWeight isItalic)
                 = (length front + 2)%nat).
  { rewrite Hfront, length_app. cbn [length]. lia. }
  exists n. rewrite Hlog. split; [|done].
  destruct ((climb (fontLog h) (ladder fontFamily fontWeight isItalic)).2).
  - destruct Hres as (Hpos & _). lia.
  - destruct Hres as [-> _]. lia.
Qed.

(** C2. Whatever is asked for, [loadFont] tries the rungs of the
    resolution ladder strictly in order, each only after the ones
    before it failed, and at most [ladderLength] of them; it returns the
    first rung that loads, so it returns a font whenever any rung
    loads; the only exception it can raise is the failed load of the
    very last rung, Arial Regular, reached after Inter Regular failed
    too. *)
Theorem loadFont_exhausts_ladder_before_failing
    fontFamily fontWeight isItalic h :
  let rungs := ladder fontFamily fontWeight isItalic in
  let result := loadFont fontFamily fontWeight isItalic h in
  (length rungs ≤ ladderLength)%nat
  ∧ (∃ n, (1 ≤ n ≤ length rungs)%nat
          ∧ result.1 = with_fontLog (fontLog h ++ take n rungs) h
          ∧ (∀ i, (i < n - 1)%nat → ¬ loadsAt (fontLog h) rungs i)
          ∧ match result.2 with
            | Return f =>
                rungs !! (n - 1)%nat = Some f ∧ loadsAt (fontLog h) rungs (n - 1)
            | Throw e => n = length rungs
            end)
  ∧ ((∃ i, loadsAt (fontLog h) rungs i) → ∃ f, result.2 = Return f)
  ∧ (∀ e, result.2 = Throw e →
          e = FontLoadError arialRegular
          ∧ rungs !! (length rungs - 1)%nat = Some arialRegular
          ∧ rungs !! (length rungs - 2)%nat = Some interRegular
          ∧ ∀ i, ¬ loadsAt (fontLog h) rungs i).
Proof.
  intros rungs result. subst result. rewrite loadFont_climb. fold rungs.
  cbn [fst snd].
  destruct (climb_spec (fontLog h) rungs) as (n & Hn & Hlog & Hbefore & Hres).
  destruct (ladder_ends fontFamily fontWeight isItalic) as [front Hfront].
  fold rungs in Hfront.
  assert (Hlen : length rungs = (length front + 2)%nat).
  { rewrite Hfront, length_app. cbn [length]. lia. }
  split; [apply ladder_length|]. split; [|split].
  - exists n. rewrite Hlog.
    destruct ((climb (fontLog h) rungs).2) as [f|].
    + destruct Hres as (Hpos & Hl & Hf). repeat split; try done; lia.
    + destruct Hres as [-> Hnone]. repeat split; try done; lia.
  - intros [i Hi]. destruct (climb_finds _ _ _ Hi) as [f Hf].
    rewrite Hf. by exists f.
  - intros e He. destruct ((climb (fontLog h) rungs).2) as [f|]; [done|].
    injection He as <-. destruct Hres as [_ Hnone].
    rewrite Hlen, Hfront. repeat split; try done.
    + replace (length front + 2 - 1)%nat with (length front + 1)%nat by lia.
      by rewrite lookup_app_r, Nat.add_comm, Nat.add_sub by lia.
    + replace (length front + 2 - 2)%nat with (length front + 0)%nat by lia.
      by rewrite lookup_app_r, Nat.add_comm, Nat.add_sub by lia.
    + by rewrite <- Hfront.
Qed.

End FontResolverClaims.

Section FontStyleClaims.
Context `{Platform}.

Lemma familyRungs_style fam fontWeight isItalic f :
  f ∈ familyRungs fam fontWeight isItalic →
  family f = fam
  ∧ (style f = styleFor fontWeight isItalic
     ∨ (isItalic = true
        ∧ style f = if bool_decide (Qc_of_Z 700 ≤ fontWeight)
                    then js "Bold" else js "Regular")).
Proof.
  unfold familyRungs. intros Hf. apply elem_of_cons in Hf as [->|Hf].
  - split; [done|]. by left.
  - destruct isItalic; [|by apply elem_of_nil in Hf].
    apply list_elem_of_singleton in Hf as ->. split; [done|]. by right.
Qed.



End FontStyleClaims.


(** ** Running the monad by hand *)

Ltac run :=
  repeat (unfold bind, ret, throw, tryCatch, figmaCreate, appendChild, consoleWrite,
            hostCall, hostAfter, with_created, with_parent, with_console;
          cbn [fontLog created console ui parent page selection viewport fst snd]).

Lemma truthy_nonempty (s : list N) : truthy s = true ↔ s ≠ [].
Proof. by destruct s. Qed.

(** ** The image materializer *)

Section ImageFacts.
Context `{Platform}.

Lemma createImage_no_url element x y width height imageData h :
  el_imageUrl element = None ∨ el_imageUrl element = Some [] →
  createImage element x y width height imageData h = (h, Return tt).
Proof. unfold createImage. by intros [-> | ->]. Qed.

Lemma createImage_usable element x y width height imageData h imageUrl imageHash :
  el_imageUrl element = Some imageUrl → imageUrl ≠ [] →
  usableImage imageData imageUrl = Some imageHash →
  createImage element x y width height imageData h =
  (hostAfter h [RECTANGLE] []
     [imageRectangle x y width height (el_rotation element) imageHash],
   Return tt).
Proof.
  unfold createImage, usableImage, getMember.
  intros -> Hurl%truthy_nonempty Huse. rewrite Hurl. cbn [negb].
  destruct (imageData !! imageUrl) as [d|]; [|done].
  destruct (truthy d); [|done]. cbn [negb].
  destruct (matchDataUrl d) as [[mime payload]|]; [|done].
  destruct (base64Decode payload) as [bytes|] eqn:Hb; [|done].
  run. rewrite Huse. run. unfold imageRectangle. by rewrite app_nil_r.
Qed.

Lemma createImage_unusable element x y width height imageData h imageUrl :
  el_imageUrl element = Some imageUrl → imageUrl ≠ [] →
  usableImage imageData imageUrl = None →
  ∃ name entries,
    createImage element x y width height imageData h =
    (hostAfter h [RECTANGLE] entries [placeholder x y width height name],
     Return tt).
Proof.
  unfold createImage, usableImage, getMember.
  intros -> Hurl%truthy_nonempty Huse. rewrite Hurl. cbn [negb].
  destruct (imageData !! imageUrl) as [d|].
  - destruct (truthy d); cbn [negb].
    + destruct (matchDataUrl d) as [[mime payload]|].
      * destruct (base64Decode payload) as [bytes|] eqn:Hb.
        -- eexists _, [_]. run. rewrite Huse. by run.
        -- eexists _, [_]. by run.
      * eexists _, [_]. by run.
    + eexists _, []. run. by rewrite app_nil_r.
  - destruct (inherits imageUrl).
    + eexists _, [_]. by run.
    + eexists _, []. run. by rewrite app_nil_r.
Qed.

Lemma createImage_returns element x y width height imageData h :
  (createImage element x y width height imageData h).2 = Return tt.
Proof.
  destruct (el_imageUrl element) as [imageUrl|] eqn:Hurl.
  - destruct imageUrl as [|c imageUrl'] eqn:Hne.
    + rewrite createImage_no_url; [done|by right].
    + rewrite <- Hne in *.
      assert (imageUrl ≠ []) by (by rewrite Hne).
      destruct (usableImage imageData imageUrl) as [imageHash|] eqn:Huse.
      * by erewrite createImage_usable.
      * destruct (createImage_unusable element x y width height imageData h
                    imageUrl) as (name & entries & ->); done.
  - rewrite createImage_no_url; [done|by left].
Qed.

End ImageFacts.

(** ** Dispatch *)

(** Decide the comparisons between type tags. *)
Ltac decide_tags :=
  repeat match goal with
         | |- context [bool_decide (js ?a = js ?b)] =>
             let v := eval vm_compute in (bool_decide (js a = js b)) in
             change (bool_decide (js a = js b)) with v
         end;
  cbv beta iota.

Section DispatchFacts.
Context `{Platform}.

Lemma forOf_ext {A} (f g : A → M unit) (l : list A) h :
  (∀ a h', f a h' = g a h') → forOf f l h = forOf g l h.
Proof.
  intros Hfg. revert h. induction l as [|a l IH]; intros h; [done|].
  cbn [forOf]. unfold bind. rewrite Hfg. destruct (g a h) as [h' [[]|e]]; [|done].
  apply IH.
Qed.

Lemma forOf_app {A} (f : A → M unit) (l1 l2 : list A) h :
  forOf f (l1 ++ l2) h = (forOf f l1 >> forOf f l2) h.
Proof.
  revert h. induction l1 as [|a l1 IH]; intros h.
  - done.
  - cbn [app forOf]. unfold bind in *.
    destruct (f a h) as [h' [[]|e]]; [|done]. by rewrite IH.
Qed.

Lemma dispatch_ext (g1 g2 : Qc → Qc → M unit) element imageData scale h :
  (∀ x y h', g1 x y h' = g2 x y h') →
  dispatch g1 element imageData scale h = dispatch g2 element imageData scale h.
Proof.
  intros Hg. unfold dispatch. repeat (destruct (bool_decide _); [done|]). done.
Qed.

(** The recursion of [createElementOn] only looks at the children of
    its first argument. *)
Lemma createElementOn_child child fields imageData scale :
  createElementOn child fields imageData scale
  = createElement (Element fields (childrenOf child)) imageData scale.
Proof. by destruct child. Qed.

(** The equation of [createElement] as the source writes it. *)
Lemma createElement_eq element imageData scale h :
  createElement element imageData scale h
  = dispatch (fun x y => createGroup element x y imageData scale)
             (fieldsOf element) imageData scale h.
Proof.
  destruct element as [fields children]. unfold createElement, createGroup.
  cbn [createElementOn fieldsOf childrenOf]. apply dispatch_ext.
  intros x y h'. destruct children as [children|]; [|done].
  destruct (bool_decide _); [done|]. apply forOf_ext.
  intros child h''. by rewrite createElementOn_child.
Qed.

Lemma createElement_shape fields children imageData scale h :
  el_type fields = js "shape" →
  createElement (Element fields children) imageData scale h
  = createShape fields (el_x fields * scale) (el_y fields * scale)
                (effectiveWidth fields scale) (effectiveHeight fields scale) scale h.
Proof.
  intros Ht. rewrite createElement_eq. unfold dispatch. cbn [fieldsOf].
  rewrite Ht. by decide_tags.
Qed.

Lemma createElement_image fields children imageData scale h :
  el_type fields = js "image" →
  createElement (Element fields children) imageData scale h
  = createImage fields (el_x fields * scale) (el_y fields * scale)
                (effectiveWidth fields scale) (effectiveHeight fields scale)
                imageData h.
Proof.
  intros Ht. rewrite createElement_eq. unfold dispatch. cbn [fieldsOf].
  rewrite Ht. by decide_tags.
Qed.

Lemma createElement_line fields children imageData scale h :
  el_type fields = js "line" →
  createElement (Element fields children) imageData scale h
  = createLine fields (el_x fields * scale) (el_y fields * scale)
               (effectiveWidth fields scale) (effectiveHeight fields scale) h.
Proof.
  intros Ht. rewrite createElement_eq. unfold dispatch. cbn [fieldsOf].
  rewrite Ht. by decide_tags.
Qed.

Lemma createElement_table fields children imageData scale h :
  el_type fields = js "table" →
  createElement (Element fields children) imageData scale h
  = createTable fields (el_x fields * scale) (el_y fields * scale)
                (effectiveWidth fields scale) (effectiveHeight fields scale) scale h.
Proof.
  intros Ht. rewrite createElement_eq. unfold dispatch. cbn [fieldsOf].
  rewrite Ht. by decide_tags.
Qed.

Lemma createElement_group fields children imageData scale h :
  el_type fields = js "group" →
  createElement (Element fields children) imageData scale h
  = createGroup (Element fields children) (el_x fields * scale)
                (el_y fields * scale) imageData scale h.
Proof.
  intros Ht. rewrite createElement_eq. unfold dispatch. cbn [fieldsOf].
  rewrite Ht. by decide_tags.
Qed.

End DispatchFacts.

(** ** Effective size *)

Lemma Math_max_spec a c :
  a ≤ Math_max a c ∧ c ≤ Math_max a c ∧ (Math_max a c = a ∨ Math_max a c = c).
Proof.
  unfold Math_max. case_bool_decide as Hle.
  - repeat split; [done|apply Qcle_refl|by right].
  - repeat split; [apply Qcle_refl| |by left].
    apply Qclt_le_weak. by apply Qcnot_le_lt.
Qed.

Section EffectiveSize.
Context `{Platform}.

(** C1 (as the code has it). The effective width is
    [max(1, width * |scaleX| * scale)] and the effective height is
    [max(1, height * |scaleY| * scale)]: each axis takes its own authored
    scale factor, the product is formed first and clamped afterwards,
    so both are at least 1 whatever the authored scale; these are the
    sizes every materializer receives. *)
Theorem effective_size_is_clamped_axis_product
    fields children imageData scale h :
  let w := el_width fields * Math_abs (el_scaleX fields) * scale in
  let ht := el_height fields * Math_abs (el_scaleY fields) * scale in
  (effectiveWidth fields scale = Math_max 1 w
   ∧ 1 ≤ effectiveWidth fields scale ∧ w ≤ effectiveWidth fields scale
   ∧ (effectiveWidth fields scale = 1 ∨ effectiveWidth fields scale = w))
  ∧ (effectiveHeight fields scale = Math_max 1 ht
     ∧ 1 ≤ effectiveHeight fields scale ∧ ht ≤ effectiveHeight fields scale
     ∧ (effectiveHeight fields scale = 1 ∨ effectiveHeight fields scale = ht))
  ∧ (el_type fields = js "shape" →
     createElement (Element fields children) imageData scale h
     = createShape fields (el_x fields * scale) (el_y fields * scale)
                   (Math_max 1 w) (Math_max 1 ht) scale h)
  ∧ (el_type fields = js "image" →
     createElement (Element fields children) imageData scale h
     = createImage fields (el_x fields * scale) (el_y fields * scale)
                   (Math_max 1 w) (Math_max 1 ht) imageData h)
  ∧ (el_type fields = js "line" →
     createElement (Element fields children) imageData scale h
     = createLine fields (el_x fields * scale) (el_y fields * scale)
                  (Math_max 1 w) (Math_max 1 ht) h)
  ∧ (el_type fields = js "table" →
     createElement (Element fields children) imageData scale h
     = createTable fields (el_x fields * scale) (el_y fields * scale)
                   (Math_max 1 w) (Math_max 1 ht) scale h).
Proof.
  intros w ht.
  destruct (Math_max_spec 1 w) as (Hw1 & Hw2 & Hw3).
  destruct (Math_max_spec 1 ht) as (Hh1 & Hh2 & Hh3).
  repeat split; try done.
  - apply createElement_shape.
  - apply createElement_image.
  - apply createElement_line.
  - apply createElement_table.
Qed.

End EffectiveSize.

(** C1 (as stated) fails: the width of a shape stretched by 2 across and
    by 3 down does not take the factor 3. *)
Lemma effectiveWidth_leaves_out_scaleY :
  effectiveWidth stretchedShape 1 = Qc_of_Z 20
  ∧ Math_max 1 (el_width stretchedShape * Math_abs (el_scaleX stretchedShape)
                * Math_abs (el_scaleY stretchedShape) * 1) = Qc_of_Z 60
  ∧ effectiveWidth stretchedShape 1
    ≠ Math_max 1 (el_width stretchedShape * Math_abs (el_scaleX stretchedShape)
                  * Math_abs (el_scaleY stretchedShape) * 1).
Proof.
  split; [by apply Qc_is_canon|]. split; [by apply Qc_is_canon|].
  intros Heq. apply (f_equal this) in Heq. vm_compute in Heq. discriminate.
Qed.

Lemma effective_size_is_clamped_axis_product_witness :
  createElement (H := interOnly) (Element stretchedShape None) ∅ 1 initialHost
  = createShape (H := interOnly) stretchedShape
      (el_x stretchedShape * 1) (el_y stretchedShape * 1)
      (Math_max 1 (el_width stretchedShape * Math_abs (el_scaleX stretchedShape) * 1))
      (Math_max 1 (el_height stretchedShape * Math_abs (el_scaleY stretchedShape) * 1))
      1 initialHost.
Proof.
  apply (effective_size_is_clamped_axis_product (H := interOnly)
           stretchedShape None ∅ 1 initialHost).
  reflexivity.
Defined.

(** ** Image claims *)

Section ImageClaims.
Context `{Platform}.

Lemma usableImage_missing imageData imageUrl :
  imageData !! imageUrl = None
  ∨ (∃ d, imageData !! imageUrl = Some d ∧ matchDataUrl d = None) →
  usableImage imageData imageUrl = None.
Proof.
  unfold usableImage. intros [-> | (d & -> & ->)]; [done|]. by destruct (truthy d).
Qed.

(** C8. An image element with a non-empty key that is missing from the
    image data, or whose entry is not of the shape
    [data:<mime>;base64,<payload>], gets exactly one node: a placeholder
    rectangle filled with the gray (0.9, 0.9, 0.9), at the element's
    scaled position and with its effective size; and the image
    materializer returns normally on every input. *)
Theorem createImage_degrades_to_gray_placeholder
    fields children imageData scale h imageUrl :
  el_type fields = js "image" →
  el_imageUrl fields = Some imageUrl →
  imageUrl ≠ [] →
  (imageData !! imageUrl = None
   ∨ ∃ d, imageData !! imageUrl = Some d ∧ matchDataUrl d = None) →
  (∃ name entries node,
     createElement (Element fields children) imageData scale h
     = (hostAfter h [RECTANGLE] entries [node], Return tt)
     ∧ node = placeholder (el_x fields * scale) (el_y fields * scale)
                          (effectiveWidth fields scale)
                          (effectiveHeight fields scale) name
     ∧ nodeType node = RECTANGLE
     ∧ nodeFills node
       = Some [SOLID {| r := Q2Qc (9 # 10); g := Q2Qc (9 # 10); b := Q2Qc (9 # 10) |}]
     ∧ nodeBox node
       = Some (el_x fields * scale, el_y fields * scale,
               effectiveWidth fields scale, effectiveHeight fields scale))
  ∧ (∀ element x y width height data h',
       (createImage element x y width height data h').2 = Return tt).
Proof.
  intros Ht Hurl Hne Hbad. split; [|apply createImage_returns].
  rewrite createElement_image by done.
  destruct (createImage_unusable fields (el_x fields * scale) (el_y fields * scale)
              (effectiveWidth fields scale) (effectiveHeight fields scale)
              imageData h imageUrl Hurl Hne (usableImage_missing _ _ Hbad))
    as (name & entries & ->).
  by eexists name, entries, _.
Qed.

Lemma app_singleton_self {A} (l : list A) (a : A) : l ≠ l ++ [a].
Proof.
  intros Heq. apply (f_equal length) in Heq. rewrite length_app in Heq.
  cbn [length] in Heq. lia.
Qed.

(** C10. An image element whose key is absent or empty leaves the host
    exactly as it was: no node, no log entry, no exception.  A
    placeholder is appended only for a non-empty key with no usable
    entry in the image data. *)
Theorem createImage_without_key_is_silent :
  (∀ fields children imageData scale h,
     el_type fields = js "image" →
     el_imageUrl fields = None ∨ el_imageUrl fields = Some [] →
     createElement (Element fields children) imageData scale h = (h, Return tt))
  ∧ (∀ fields x y width height imageData h x' y' width' height' name,
       parent (createImage fields x y width height imageData h).1
       = parent h ++ [placeholder x' y' width' height' name] →
       ∃ imageUrl, el_imageUrl fields = Some imageUrl ∧ imageUrl ≠ []
                   ∧ usableImage imageData imageUrl = None).
Proof.
  split.
  - intros fields children imageData scale h Ht Hno.
    rewrite createElement_image by done. by apply createImage_no_url.
  - intros fields x y width height imageData h x' y' width' height' name Hp.
    destruct (el_imageUrl fields) as [imageUrl|] eqn:Hurl.
    + destruct imageUrl as [|c rest] eqn:Hne.
      * rewrite createImage_no_url in Hp by (by right).
        by apply app_singleton_self in Hp.
      * rewrite <- Hne in *. assert (imageUrl ≠ []) by (by rewrite Hne).
        exists imageUrl. repeat split; try done.
        destruct (usableImage imageData imageUrl) as [imageHash|] eqn:Huse; [|done].
        erewrite createImage_usable in Hp by done.
        unfold hostAfter in Hp. cbn [fst parent] in Hp.
        apply app_inv_head in Hp. unfold imageRectangle, placeholder in Hp.
        cbn [app] in Hp. discriminate.
    + rewrite createImage_no_url in Hp by (by left).
      by apply app_singleton_self in Hp.
Qed.

End ImageClaims.

(** ** Text of a shape *)

Section TextFacts.
Context `{Platform}.

(** The current sources look at the text first: a blank text leaves the
    host untouched. *)
Lemma createTextForShape_blank fields text x y width height scale h :
  el_text fields = Some text →
  trim (fullTextOf (runs text)) = [] →
  createTextForShape fields x y width height scale h = (h, Return tt).
Proof.
  intros Ht Hblank. unfold createTextForShape. rewrite Ht.
  destruct (runs text) as [|firstRun rest]; [done|]. by rewrite Hblank.
Qed.

(** With a blank text the current [createShape] creates and appends the
    shape node and nothing else. *)
Lemma createShape_blank_text fields text x y width height scale h :
  el_text fields = Some text →
  trim (fullTextOf (runs text)) = [] →
  ∃ node, nodeType node ≠ TEXT
          ∧ createShape fields x y width height scale h
            = (hostAfter h [nodeType node] [] [node], Return tt).
Proof.
  intros Ht Hblank. unfold createShape. rewrite Ht.
  assert (Htext : ∀ h', (if bool_decide (0 < length (runs text))%nat
                         then createTextForShape fields x y width height scale
                         else ret tt) h' = (h', Return tt)).
  { intros h'. destruct (bool_decide _); [|done].
    by apply createTextForShape_blank with text. }
  destruct (bool_decide (_ = js "ELLIPSE")).
  - eexists (Node ELLIPSE _ []). split; [done|]. run. rewrite Htext.
    cbn [nodeType]. by rewrite app_nil_r.
  - destruct (bool_decide (_ = js "ROUND_RECTANGLE")).
    + eexists (Node RECTANGLE _ []). split; [done|]. run. rewrite Htext.
      cbn [nodeType]. by rewrite app_nil_r.
    + eexists (Node RECTANGLE _ []). split; [done|]. run. rewrite Htext.
      cbn [nodeType]. by rewrite app_nil_r.
Qed.

(** The earlier build creates the text node before it looks at the
    text, and leaves it behind when the text is blank. *)
Lemma legacy_createTextForShape_blank fields text x y width height h :
  el_text fields = Some text →
  trim (fullTextOf (runs text)) = [] →
  Legacy.createTextForShape fields x y width height h
  = (hostAfter h [TEXT] [] [], Return tt).
Proof.
  intros Ht Hblank. unfold Legacy.createTextForShape. rewrite Ht. run.
  rewrite Hblank. cbn [truthy negb]. run. by rewrite !app_nil_r.
Qed.

(** C9 (defect of the earlier build). For the shape whose text is a
    single space, the text materializer of the earlier build creates a
    text node and then returns without appending it, where the current
    sources create and append nothing. *)
Theorem legacy_blank_text_still_creates_text_node x y width height scale h :
  trim (fullTextOf [blankRun]) = []
  ∧ Legacy.createTextForShape blankTextShape x y width height h
    = (hostAfter h [TEXT] [] [], Return tt)
  ∧ createTextForShape blankTextShape x y width height scale h = (h, Return tt).
Proof.
  assert (Hblank : trim (fullTextOf [blankRun]) = []) by (by vm_compute).
  split; [done|]. split.
  - by apply legacy_createTextForShape_blank
      with {| runs := [blankRun]; alignment := None |}.
  - by apply createTextForShape_blank
      with {| runs := [blankRun]; alignment := None |}.
Qed.

End TextFacts.

(** ** Failure isolation between siblings *)

Section IsolationClaims.
Context `{Platform}.

Lemma createElements_cons element rest imageData scale h :
  createElements (element :: rest) imageData scale h
  = createElements rest imageData scale
      (settled (createElement element imageData scale h)).
Proof.
  unfold createElements. cbn [forOf]. unfold bind at 1, tryCatch.
  destruct (createElement element imageData scale h) as [h' [[]|err]]; done.
Qed.

Lemma createElements_returns elements imageData scale h :
  (createElements elements imageData scale h).2 = Return tt.
Proof.
  revert h. induction elements as [|element rest IH]; intros h; [done|].
  rewrite createElements_cons. apply IH.
Qed.

Lemma createElements_app before after imageData scale h :
  createElements (before ++ after) imageData scale h
  = createElements after imageData scale
      (createElements before imageData scale h).1.
Proof.
  revert h. induction before as [|element rest IH]; intros h; [done|].
  cbn [app]. rewrite !createElements_cons. apply IH.
Qed.

(** C7. [createElements] never lets an exception out, and it attempts
    every element in order: whatever the elements before did, the
    element is attempted from the host they left, and the elements
    after it are attempted from the host it left, whether it returned
    or threw; a throw adds one console entry and nothing else. *)
Theorem createElements_isolates_failures before element after imageData scale h :
  let hBefore := (createElements before imageData scale h).1 in
  let attempt := createElement element imageData scale hBefore in
  (createElements (before ++ element :: after) imageData scale h).2 = Return tt
  ∧ createElements (before ++ element :: after) imageData scale h
    = createElements after imageData scale (settled attempt)
  ∧ (∀ h' err,
       attempt = (h', Throw err) →
       createElements (before ++ element :: after) imageData scale h
       = createElements after imageData scale
           (with_console
              (console h' ++ [ConsoleError (js "Failed to create element:") err])
              h')).
Proof.
  intros hBefore attempt. split; [apply createElements_returns|].
  assert (Heq : createElements (before ++ element :: after) imageData scale h
                = createElements after imageData scale (settled attempt)).
  { by rewrite createElements_app, createElements_cons. }
  split; [done|]. intros h' err Hthrow. by rewrite Heq, Hthrow.
Qed.

End IsolationClaims.

(** ** Tables *)

Section TableFacts.
Context `{Platform}.

Lemma forOf_figmaCreate (types : list NodeType) h :
  forOf figmaCreate types h = (with_created (created h ++ types) h, Return tt).
Proof.
  revert h. induction types as [|t types IH]; intros h.
  - cbn [forOf]. unfold ret, with_created. rewrite app_nil_r. by destruct h.
  - cbn [forOf]. unfold bind, figmaCreate. rewrite IH. unfold with_created.
    cbn [fontLog created console ui parent page selection viewport].
    by rewrite <- app_assoc.
Qed.

Lemma rectangleBoxes_app l1 l2 :
  rectangleBoxes (l1 ++ l2) = rectangleBoxes l1 ++ rectangleBoxes l2.
Proof. unfold rectangleBoxes. by rewrite filter_app, fmap_app. Qed.

Lemma rectangleBoxes_cellNodes rows fontName cellWidth cellHeight padding scale row col :
  rectangleBoxes (cellNodes rows fontName cellWidth cellHeight padding scale row col)
  = [Some (Qc_of_nat col * cellWidth, Qc_of_nat row * cellHeight,
           cellWidth, cellHeight)].
Proof.
  unfold cellNodes, rectangleBoxes. by destruct (truthy _).
Qed.

(** The rectangles of the cell list are the cells of the grid, one per
    (row, column), whatever the texts. *)
Lemma rectangleBoxes_grid rows fontName cellWidth cellHeight padding scale
    (rowList colList : list nat) :
  rectangleBoxes
    (flat_map (fun row =>
       flat_map (fun col =>
         cellNodes rows fontName cellWidth cellHeight padding scale row col)
         colList) rowList)
  = Some <$> flat_map (fun row =>
               map (fun col => (Qc_of_nat col * cellWidth,
                                Qc_of_nat row * cellHeight,
                                cellWidth, cellHeight)) colList) rowList.
Proof.
  induction rowList as [|row rowList IHr]; [done|].
  cbn [flat_map]. rewrite rectangleBoxes_app, fmap_app, IHr. f_equal.
  clear IHr. induction colList as [|col colList IHc]; [done|].
  cbn [flat_map map]. rewrite rectangleBoxes_app, rectangleBoxes_cellNodes, IHc.
  done.
Qed.

Lemma rectangleBoxes_tableCells rows fontName rowCount colCount
    cellWidth cellHeight padding scale :
  rectangleBoxes (tableCells rows fontName rowCount colCount cellWidth cellHeight
                             padding scale)
  = Some <$> cellBoxes rowCount colCount cellWidth cellHeight.
Proof. apply rectangleBoxes_grid. Qed.

Lemma cellBoxes_length rowCount colCount cellWidth cellHeight :
  length (cellBoxes rowCount colCount cellWidth cellHeight)
  = (rowCount * colCount)%nat.
Proof.
  unfold cellBoxes.
  assert (Hgen : ∀ rowList : list nat,
            length (flat_map (fun row =>
                      map (fun col => (Qc_of_nat col * cellWidth,
                                       Qc_of_nat row * cellHeight,
                                       cellWidth, cellHeight))
                          (seq 0 colCount)) rowList)
            = (length rowList * colCount)%nat).
  { induction rowList as [|row rowList IH]; [done|].
    cbn [flat_map length]. rewrite length_app, length_map, length_seq, IH. lia. }
  by rewrite Hgen, length_seq.
Qed.

(** What [createTable] does on a grid with a non-empty first row when
    the default font resolves. *)
Lemma createTable_grid fields x y width height scale h rows row0 rest i :
  el_rows fields = Some rows →
  rows = row0 :: rest →
  row0 ≠ [] →
  loadsAt (fontLog h) (ladder (js "Arial") (Qc_of_Z 400) false) i →
  ∃ fontName hFont,
    loadFont (js "Arial") (Qc_of_Z 400) false
             (with_created (created h ++ [FRAME]) h) = (hFont, Return fontName)
    ∧ createTable fields x y width height scale h =
      (let cells :=
         tableCells rows fontName (length rows) (length row0)
                    (width / Qc_of_nat (length row0))
                    (height / Qc_of_nat (length rows))
                    (Qc_of_Z 4 * scale) scale in
       hostAfter hFont (nodeType <$> cells) []
         [Node FRAME
               [SetName (js "Table"); SetX x; SetY y; Resize width height;
                SetFills []] cells],
       Return tt).
Proof.
  intros Hrows -> Hne Hfont. unfold createTable. rewrite Hrows.
  cbn [default length]. destruct row0 as [|c0 row0]; [done|].
  cbn [length bool_decide orb]. 
  replace (bool_decide (S (length rest) = 0%nat)) with false
    by (symmetry; by apply bool_decide_eq_false_2).
  replace (bool_decide (S (length row0) = 0%nat)) with false
    by (symmetry; by apply bool_decide_eq_false_2).
  cbn [orb]. unfold bind at 1, figmaCreate at 1.
  set (h0 := with_created (created h ++ [FRAME]) h).
  assert (Hlog : fontLog h0 = fontLog h) by done.
  destruct (climb_finds _ _ _ Hfont) as [fontName Hfound].
  exists fontName, (loadFont (js "Arial") (Qc_of_Z 400) false h0).1.
  unfold bind at 1.
  rewrite (loadFont_climb (js "Arial") (Qc_of_Z 400) false h0), Hlog, Hfound.
  split; [done|]. cbn [fst snd]. unfold bind. rewrite forOf_figmaCreate.
  unfold appendChild, hostAfter, with_created, with_parent, with_fontLog.
  cbn [fontLog created console ui parent page selection viewport].
  by rewrite app_nil_r.
Qed.

End TableFacts.

Section TableClaims.
Context `{Platform}.

(** C5 (amended). The table materializer takes the row count from the number of
    rows and the column count from the first row, never from the
    declared [rowCount] and [columnCount]; when the default font
    resolves it appends one frame with the element's transformed box,
    holding one rectangle per (row, column), each of width
    box width / columns and height box height / rows, the cell (row,
    col) at (col * cell width, row * cell height); a 2 by 3 grid gives
    exactly 6 cells of width box width / 3 and height box height / 2. *)
Theorem createTable_partitions_box_by_grid_shape
    fields children imageData scale h rows row0 rest i :
  el_type fields = js "table" →
  el_rows fields = Some rows →
  rows = row0 :: rest →
  row0 ≠ [] →
  loadsAt (fontLog h) (ladder (js "Arial") (Qc_of_Z 400) false) i →
  let boxWidth := effectiveWidth fields scale in
  let boxHeight := effectiveHeight fields scale in
  (∀ rc cc,
     createElement (Element (withCounts rc cc fields) children) imageData scale h
     = createElement (Element fields children) imageData scale h)
  ∧ ∃ tableFrame h',
      createElement (Element fields children) imageData scale h = (h', Return tt)
      ∧ parent h' = parent h ++ [tableFrame]
      ∧ nodeType tableFrame = FRAME
      ∧ nodeBox tableFrame
        = Some (el_x fields * scale, el_y fields * scale, boxWidth, boxHeight)
      ∧ rectangleBoxes (nodeChildren tableFrame)
        = Some <$> cellBoxes (length rows) (length row0)
                             (boxWidth / Qc_of_nat (length row0))
                             (boxHeight / Qc_of_nat (length rows))
      ∧ length (rectangleBoxes (nodeChildren tableFrame))
        = (length rows * length row0)%nat
      ∧ (length rows = 2%nat → length row0 = 3%nat →
         let cw := boxWidth / Qc_of_Z 3 in
         let ch := boxHeight / Qc_of_Z 2 in
         rectangleBoxes (nodeChildren tableFrame)
         = [Some (Qc_of_nat 0 * cw, Qc_of_nat 0 * ch, cw, ch);
            Some (Qc_of_nat 1 * cw, Qc_of_nat 0 * ch, cw, ch);
            Some (Qc_of_nat 2 * cw, Qc_of_nat 0 * ch, cw, ch);
            Some (Qc_of_nat 0 * cw, Qc_of_nat 1 * ch, cw, ch);
            Some (Qc_of_nat 1 * cw, Qc_of_nat 1 * ch, cw, ch);
            Some (Qc_of_nat 2 * cw, Qc_of_nat 1 * ch, cw, ch)]).
Proof.
  intros Ht Hrows Hcons Hne Hfont. cbv zeta. split; [done|].
  rewrite createElement_table by done.
  destruct (createTable_grid fields (el_x fields * scale) (el_y fields * scale)
              (effectiveWidth fields scale) (effectiveHeight fields scale)
              scale h rows row0 rest i Hrows Hcons Hne Hfont)
    as (fontName & hFont & Hload & ->).
  assert (HparentFont : parent hFont = parent h).
  { destruct (loadFont_attempts (js "Arial") (Qc_of_Z 400) false
                (with_created (created h ++ [FRAME]) h)) as (n & _ & Hst).
    rewrite Hload in Hst. cbn [fst] in Hst. by rewrite Hst. }
  cbv zeta. eexists _, _. split; [reflexivity|].
  unfold hostAfter. cbn [parent nodeType nodeChildren]. rewrite HparentFont.
  split; [done|]. split; [done|]. split; [done|].
  cbn [nodeChildren]. rewrite rectangleBoxes_tableCells. split; [done|]. split.
  - by rewrite length_fmap, cellBoxes_length.
  - by intros -> ->.
Qed.

End TableClaims.

(** C5 (as stated) fails: the cells depend on the default font.  Where
    no font loads, a 2 by 3 grid, here one without any text, gets no
    cell: the frame is created, the resolver throws, and nothing is
    appended to the container. *)
Lemma createTable_without_font_makes_no_cell :
  let table := withRows (Some [[[]; []; []]; [[]; []; []]])
                        (blankFields "table" 0 0 300 100) in
  let run := createElement (H := noFonts) (Element table None) ∅ 1 initialHost in
  run.2 = Throw (FontLoadError arialRegular)
  ∧ parent run.1 = []
  ∧ created run.1 = [FRAME].
Proof. by vm_compute. Qed.

(** ** Groups *)

Section GroupFacts.
Context `{Platform}.

Lemma withXY_same fields : withXY (el_x fields) (el_y fields) fields = fields.
Proof. by destruct fields. Qed.

Lemma then_ret (m : M unit) h : (m >> ret tt) h = m h.
Proof. unfold bind, ret. by destruct (m h) as [h' [[]|e]]. Qed.

Lemma forOf_singleton {A} (f : A → M unit) a h : forOf f [a] h = f a h.
Proof. cbn [forOf]. apply then_ret. Qed.

Lemma forOf_flat_map {A B} (f : A → list B) (g : B → M unit) (l : list A) h :
  forOf (fun a => forOf g (f a)) l h = forOf g (flat_map f l) h.
Proof.
  revert h. induction l as [|a l IH]; intros h; [done|].
  cbn [forOf flat_map]. rewrite forOf_app. unfold bind.
  destruct (forOf g (f a) h) as [h' [[]|e]]; [|done]. apply IH.
Qed.

Lemma dispatch_group group fields imageData scale h :
  el_type fields = js "group" →
  dispatch group fields imageData scale h
  = group (el_x fields * scale) (el_y fields * scale) h.
Proof. intros Ht. unfold dispatch. rewrite Ht. by decide_tags. Qed.

Lemma dispatch_leaf group fields imageData scale h :
  el_type fields ≠ js "group" →
  dispatch group fields imageData scale h = createLeaf fields imageData scale h.
Proof.
  intros Ht. unfold createLeaf, dispatch.
  destruct (bool_decide (el_type fields = js "shape")); [reflexivity|].
  destruct (bool_decide (el_type fields = js "image")); [reflexivity|].
  destruct (bool_decide (el_type fields = js "line")); [reflexivity|].
  destruct (bool_decide (el_type fields = js "table")); [reflexivity|].
  by rewrite bool_decide_eq_false_2.
Qed.

Lemma childFields_origin X Y child :
  childFields (X * 1) (Y * 1) 1 child
  = withXY (X + el_x (fieldsOf child)) (Y + el_y (fieldsOf child)) (fieldsOf child).
Proof.
  unfold childFields.
  replace (X * 1 / 1) with X by (by field).
  by replace (Y * 1 / 1) with Y by (by field).
Qed.

(** At scale 1, whatever the nesting, a tree placed at [(X, Y)] is
    materialized as the sequence of its leaves, each through the
    ordinary per-element transform at its absolute position. *)
Lemma createElementOn_flatten imageData node :
  ∀ X Y h,
    createElementOn node (withXY X Y (fieldsOf node)) imageData 1 h
    = forOf (fun leaf => createLeaf leaf imageData 1) (flattenAt X Y node) h.
Proof.
  induction node as [fields|fields children IH]
    using SlideElement_nested_ind; intros X Y h;
    cbn [createElementOn fieldsOf flattenAt].
  - destruct (bool_decide (el_type fields = js "group")) eqn:Ht.
    + apply bool_decide_eq_true_1 in Ht. by rewrite dispatch_group.
    + apply bool_decide_eq_false_1 in Ht.
      by rewrite forOf_singleton, dispatch_leaf.
  - destruct (bool_decide (el_type fields = js "group")) eqn:Ht.
    + apply bool_decide_eq_true_1 in Ht. rewrite dispatch_group by done.
      cbn [withXY el_x el_y].
      destruct children as [|child children]; [done|].
      replace (bool_decide (length (child :: children) = 0%nat)) with false
        by (symmetry; by apply bool_decide_eq_false_2).
      rewrite <- forOf_flat_map. revert h.
      induction IH as [|c cs Hc Hcs IHcs]; intros h; [done|].
      cbn [forOf]. unfold bind.
      rewrite childFields_origin, Hc.
      destruct (forOf _ (flattenAt _ _ c) h) as [h' [[]|e]]; [|done].
      apply IHcs.
    + apply bool_decide_eq_false_1 in Ht.
      by rewrite forOf_singleton, dispatch_leaf.
Qed.

Lemma createElement_flatten element imageData h :
  createElement element imageData 1 h
  = forOf (fun leaf => createLeaf leaf imageData 1) (flatten element) h.
Proof.
  unfold createElement, flatten.
  rewrite <- createElementOn_flatten. by rewrite withXY_same.
Qed.

End GroupFacts.

(** ** Materializers stay inside the container *)

Section SceneOnly.
Context `{Platform}.

Lemma sceneStep_refl h : sceneStep h h.
Proof. repeat split. exists []. by rewrite app_nil_r. Qed.

Lemma sceneStep_same h h' :
  ui h' = ui h → page h' = page h → selection h' = selection h →
  viewport h' = viewport h → parent h' = parent h → sceneStep h h'.
Proof. intros ? ? ? ? Hp. repeat split; try done. exists []. by rewrite app_nil_r. Qed.

Lemma sceneStep_trans h1 h2 h3 : sceneStep h1 h2 → sceneStep h2 h3 → sceneStep h1 h3.
Proof.
  intros (Hu & Hp & Hs & Hv & m1 & Hm1) (Hu' & Hp' & Hs' & Hv' & m2 & Hm2).
  repeat split; try congruence.
  exists (m1 ++ m2). by rewrite Hm2, Hm1, app_assoc.
Qed.

Lemma sceneOnly_ret {A} (a : A) : sceneOnly (ret a).
Proof. intros h. apply sceneStep_refl. Qed.

Lemma sceneOnly_throw {A} e : sceneOnly (@throw A e).
Proof. intros h. apply sceneStep_refl. Qed.

Lemma sceneOnly_bind {A B} (m : M A) (k : A → M B) :
  sceneOnly m → (∀ a, sceneOnly (k a)) → sceneOnly (bind m k).
Proof.
  intros Hm Hk h. unfold bind. specialize (Hm h).
  destruct (m h) as [h' [a|e]]; cbn [fst] in *; [|done].
  by apply sceneStep_trans with h', Hk.
Qed.

Lemma sceneOnly_tryCatch {A} (m : M A) (handler : Exn → M A) :
  sceneOnly m → (∀ e, sceneOnly (handler e)) → sceneOnly (tryCatch m handler).
Proof.
  intros Hm Hk h. unfold tryCatch. specialize (Hm h).
  destruct (m h) as [h' [a|e]]; cbn [fst] in *; [done|].
  by apply sceneStep_trans with h', Hk.
Qed.

Lemma sceneOnly_figmaCreate t : sceneOnly (figmaCreate t).
Proof. intros h. by apply sceneStep_same. Qed.

Lemma sceneOnly_consoleWrite entry : sceneOnly (consoleWrite entry).
Proof. intros h. by apply sceneStep_same. Qed.

Lemma sceneOnly_appendChild node : sceneOnly (appendChild node).
Proof. intros h. repeat split. by exists [node]. Qed.

Lemma sceneOnly_loadFont fontFamily fontWeight isItalic :
  sceneOnly (loadFont fontFamily fontWeight isItalic).
Proof. intros h. rewrite loadFont_climb. by apply sceneStep_same. Qed.

Lemma sceneOnly_forOf {A} (body : A → M unit) l :
  (∀ a, sceneOnly (body a)) → sceneOnly (forOf body l).
Proof.
  intros Hbody. induction l as [|a l IH]; cbn [forOf].
  - apply sceneOnly_ret.
  - by apply sceneOnly_bind.
Qed.

Lemma sceneOnly_styleRuns scale rs charIndex props :
  sceneOnly (styleRuns scale rs charIndex props).
Proof.
  revert charIndex props. induction rs as [|run rs IH]; intros charIndex props;
    cbn [styleRuns].
  - apply sceneOnly_ret.
  - destruct (bool_decide _); [apply IH|].
    apply sceneOnly_bind; [|intros props'; apply IH].
    apply sceneOnly_tryCatch.
    + apply sceneOnly_bind; [apply sceneOnly_loadFont|].
      intros fontName. apply sceneOnly_ret.
    + intros err. apply sceneOnly_bind; [apply sceneOnly_consoleWrite|].
      intros _. apply sceneOnly_ret.
Qed.

Lemma sceneOnly_createTextForShape fields x y width height scale :
  sceneOnly (createTextForShape fields x y width height scale).
Proof.
  unfold createTextForShape.
  destruct (el_text fields) as [text|]; [|apply sceneOnly_ret].
  destruct (runs text) as [|firstRun rest]; [apply sceneOnly_ret|].
  destruct (negb _); [apply sceneOnly_ret|].
  apply sceneOnly_bind; [apply sceneOnly_figmaCreate|]. intros _.
  apply sceneOnly_bind; [apply sceneOnly_loadFont|]. intros defaultFont.
  apply sceneOnly_bind; [apply sceneOnly_styleRuns|]. intros styled.
  apply sceneOnly_appendChild.
Qed.

Lemma sceneOnly_createShape fields x y width height scale :
  sceneOnly (createShape fields x y width height scale).
Proof.
  unfold createShape. apply sceneOnly_bind.
  - repeat (destruct (bool_decide _));
      (apply sceneOnly_bind; [apply sceneOnly_figmaCreate|]; intros _;
       apply sceneOnly_ret).
  - intros node. apply sceneOnly_bind; [apply sceneOnly_appendChild|]. intros _.
    destruct (el_text fields) as [text|]; [|apply sceneOnly_ret].
    destruct (bool_decide _);
      [apply sceneOnly_createTextForShape|apply sceneOnly_ret].
Qed.

Lemma sceneOnly_createImage fields x y width height imageData :
  sceneOnly (createImage fields x y width height imageData).
Proof.
  intros h. destruct (el_imageUrl fields) as [imageUrl|] eqn:Hurl.
  - destruct imageUrl as [|c imageUrl'] eqn:Hne.
    + rewrite createImage_no_url by (by right). apply sceneStep_refl.
    + rewrite <- Hne in *. assert (imageUrl ≠ []) by (by rewrite Hne).
      destruct (usableImage imageData imageUrl) as [imageHash|] eqn:Huse.
      * erewrite createImage_usable by done. repeat split. by eexists.
      * destruct (createImage_unusable fields x y width height imageData h
                    imageUrl) as (name & entries & ->); try done.
        repeat split. by eexists.
  - rewrite createImage_no_url by (by left). apply sceneStep_refl.
Qed.

Lemma sceneOnly_createLine fields x y width height :
  sceneOnly (createLine fields x y width height).
Proof.
  unfold createLine. apply sceneOnly_bind; [apply sceneOnly_figmaCreate|].
  intros _. apply sceneOnly_appendChild.
Qed.

Lemma sceneOnly_createTable fields x y width height scale :
  sceneOnly (createTable fields x y width height scale).
Proof.
  unfold createTable. destruct (_ || _); [apply sceneOnly_ret|].
  apply sceneOnly_bind; [apply sceneOnly_figmaCreate|]. intros _.
  apply sceneOnly_bind; [apply sceneOnly_loadFont|]. intros fontName.
  apply sceneOnly_bind; [|intros _; apply sceneOnly_appendChild].
  apply sceneOnly_forOf. apply sceneOnly_figmaCreate.
Qed.

Lemma sceneOnly_dispatch group fields imageData scale :
  (∀ x y, sceneOnly (group x y)) → sceneOnly (dispatch group fields imageData scale).
Proof.
  intros Hg. unfold dispatch.
  destruct (bool_decide (el_type fields = js "shape"));
    [apply sceneOnly_createShape|].
  destruct (bool_decide (el_type fields = js "image"));
    [apply sceneOnly_createImage|].
  destruct (bool_decide (el_type fields = js "line"));
    [apply sceneOnly_createLine|].
  destruct (bool_decide (el_type fields = js "table"));
    [apply sceneOnly_createTable|].
  destruct (bool_decide (el_type fields = js "group")); [apply Hg|].
  apply sceneOnly_ret.
Qed.

Lemma sceneOnly_createElementOn imageData scale node :
  ∀ fields, sceneOnly (createElementOn node fields imageData scale).
Proof.
  induction node as [fields0|fields0 children IH] using SlideElement_nested_ind;
    intros fields; cbn [createElementOn]; apply sceneOnly_dispatch; intros x y.
  - apply sceneOnly_ret.
  - destruct (bool_decide _); [apply sceneOnly_ret|].
    induction IH as [|c cs Hc Hcs IHcs]; cbn [forOf]; [apply sceneOnly_ret|].
    apply sceneOnly_bind; [apply Hc|]. intros _. apply IHcs.
Qed.

Lemma sceneOnly_createElement element imageData scale :
  sceneOnly (createElement element imageData scale).
Proof. apply sceneOnly_createElementOn. Qed.

Lemma sceneOnly_createElements elements imageData scale :
  sceneOnly (createElements elements imageData scale).
Proof.
  unfold createElements. apply sceneOnly_forOf. intros element.
  apply sceneOnly_tryCatch; [apply sceneOnly_createElement|].
  intros err. apply sceneOnly_consoleWrite.
Qed.

(** The node a shape contributes comes first, at the given box. *)
Lemma createShape_first_node fields x y width height scale h :
  ∃ node more,
    parent (createShape fields x y width height scale h).1
    = parent h ++ node :: more
    ∧ nodeBox node = Some (x, y, width, height)
    ∧ (nodeType node = RECTANGLE ∨ nodeType node = ELLIPSE).
Proof.
  unfold createShape.
  set (after := fun _ : unit => match el_text fields with
                                | Some text => _
                                | None => _
                                end).
  assert (Hafter : ∀ u, sceneOnly (after u)).
  { intros u. unfold after.
    destruct (el_text fields) as [text|]; [|apply sceneOnly_ret].
    destruct (bool_decide _);
      [apply sceneOnly_createTextForShape|apply sceneOnly_ret]. }
  assert (Hbox : ∀ (first : list Assign) rest,
             (first = [Resize width height]
              ∨ ∃ r, first = [Resize width height; SetCornerRadius r]) →
             (∀ a, a ∈ rest → match a with
                               | SetX _ | SetY _ | Resize _ _ => False
                               | _ => True
                               end) →
             ∀ t, nodeBox (Node t (first ++ [SetX x; SetY y] ++ rest) [])
                  = Some (x, y, width, height)).
  { intros first rest Hfirst Hrest t. unfold nodeBox, nodeX, nodeY, nodeSize, lastWrite.
    cbn [nodeProps].
    assert (Hnone : ∀ B (pick : Assign → option B),
              (∀ a, a ∈ rest → pick a = None) → omap pick rest = []).
    { intros B pick Hpick. clear Hrest. induction rest as [|a rest IHr]; [done|].
      cbn [omap list_omap]. rewrite (Hpick a) by (by left).
      apply IHr. intros c Hc. apply Hpick. by right. }
    assert (Hx : omap (fun a => match a with SetX v => Some v | _ => None end) rest
                 = []).
    { apply Hnone. intros a Ha. apply Hrest in Ha. by destruct a. }
    assert (Hy : omap (fun a => match a with SetY v => Some v | _ => None end) rest
                 = []).
    { apply Hnone. intros a Ha. apply Hrest in Ha. by destruct a. }
    assert (Hs : omap (fun a => match a with
                                | Resize w ht => Some (w, ht)
                                | _ => None
                                end) rest = []).
    { apply Hnone. intros a Ha. apply Hrest in Ha. by destruct a. }
    destruct Hfirst as [-> | [r ->]]; cbn [app omap list_omap];
      by rewrite Hx, Hy, Hs. }
  set (tail := [SetFills _] ++ _ ++ rotationWrites _).
  assert (Htail : ∀ a, a ∈ tail → match a with
                                   | SetX _ | SetY _ | Resize _ _ => False
                                   | _ => True
                                   end).
  { intros a. unfold tail, rotationWrites.
    rewrite !elem_of_app, list_elem_of_singleton.
    intros [-> | [Hs | Hr]]; [done| |].
    - destruct (el_strokeColor fields), (el_strokeWeight fields);
        try by apply elem_of_nil in Hs.
      destruct (bool_decide _); [by apply elem_of_nil in Hs|].
      apply elem_of_cons in Hs as [-> | Hs]; [done|].
      by apply list_elem_of_singleton in Hs as ->.
    - destruct (bool_decide _); [by apply elem_of_nil in Hr|].
      by apply list_elem_of_singleton in Hr as ->. }
  assert (Hrun : ∀ t first,
             (first = [Resize width height]
              ∨ ∃ r, first = [Resize width height; SetCornerRadius r]) →
             ∃ node more,
               parent ((appendChild (Node t (first ++ [SetX x; SetY y] ++ tail) [])
                        >> after tt)
                         (with_created (created h ++ [t]) h)).1
               = parent h ++ node :: more
               ∧ nodeBox node = Some (x, y, width, height)
               ∧ nodeType node = t).
  { intros t first Hfirst.
    set (node := Node t (first ++ [SetX x; SetY y] ++ tail) []).
    unfold bind at 1, appendChild at 1. cbv beta iota.
    set (h1 := with_parent _ _).
    destruct (Hafter tt h1) as (_ & _ & _ & _ & more & Hmore).
    exists node, more. rewrite Hmore. unfold h1.
    cbn [parent with_parent with_created]. rewrite <- app_assoc.
    split; [done|]. split; [by apply Hbox|done]. }
  unfold bind at 1.
  destruct (bool_decide (_ = js "ELLIPSE")).
  - unfold bind at 1, figmaCreate at 1, ret at 1. cbn [fst snd].
    destruct (Hrun ELLIPSE [Resize width height]) as (node & more & Hp & Hb & Ht);
      [by left|].
    exists node, more. rewrite Ht. split; [done|]. split; [done|]. by right.
  - destruct (bool_decide (_ = js "ROUND_RECTANGLE")).
    + unfold bind at 1, figmaCreate at 1, ret at 1. cbn [fst snd].
      destruct (Hrun RECTANGLE
                  [Resize width height;
                   SetCornerRadius (Math_min width height * Q2Qc (1 # 10))])
        as (node & more & Hp & Hb & Ht); [right; by eexists|].
      exists node, more. rewrite Ht. split; [done|]. split; [done|]. by left.
    + unfold bind at 1, figmaCreate at 1, ret at 1. cbn [fst snd].
      destruct (Hrun RECTANGLE [Resize width height])
        as (node & more & Hp & Hb & Ht); [by left|].
      exists node, more. rewrite Ht. split; [done|]. split; [done|]. by left.
Qed.

End SceneOnly.

Section GroupClaims.
Context `{Platform}.

(** A group hands each child to [createElement] with the position the
    source computes for it. *)
Lemma createElement_group_children fields children imageData scale h :
  el_type fields = js "group" →
  createElement (Element fields (Some children)) imageData scale h
  = forOf (fun child =>
             createElement
               (Element (childFields (el_x fields * scale) (el_y fields * scale)
                                     scale child)
                        (childrenOf child))
               imageData scale)
          children h.
Proof.
  intros Ht. rewrite createElement_group by done.
  unfold createGroup. cbn [childrenOf].
  destruct children as [|child children]; [done|].
  by rewrite bool_decide_eq_false_2 by done.
Qed.

(** At scale 1 that position is the group's plus the child's own. *)
Lemma createElement_group_offsets fields children imageData h :
  el_type fields = js "group" →
  createElement (Element fields (Some children)) imageData 1 h
  = forOf (fun child =>
             createElement
               (Element (withXY (el_x fields + el_x (fieldsOf child))
                                (el_y fields + el_y (fieldsOf child))
                                (fieldsOf child))
                        (childrenOf child))
               imageData 1)
          children h.
Proof.
  intros Ht. rewrite createElement_group_children by done.
  apply forOf_ext. intros c h'. by rewrite childFields_origin.
Qed.

Lemma createElement_empty_group fields imageData scale h :
  el_type fields = js "group" →
  createElement (Element fields (Some [])) imageData scale h = (h, Return tt)
  ∧ createElement (Element fields None) imageData scale h = (h, Return tt).
Proof. intros Ht. by rewrite !createElement_group. Qed.

(** C4 (amended). A group hands each child to the ordinary per-element
    transform at the position the source computes,
    [x * scale / scale + child.x] for the group's [x], and that
    transform scales it once more.  At scale 1 this is the group's
    origin plus the child's own offset, however deep the nesting: the
    whole tree is materialized as the sequence of its leaves at their
    absolute document positions.  A group at (100, 50) with one child
    shape at (10, 10) and scale 1 puts that shape at (110, 60).  A
    group without children leaves the host as it was. *)
Theorem createGroup_offsets_children_scaled_once
    fields children imageData scale h :
  el_type fields = js "group" →
  createElement (Element fields (Some children)) imageData scale h
  = forOf (fun child =>
             createElement
               (Element (withXY (el_x fields * scale / scale + el_x (fieldsOf child))
                                (el_y fields * scale / scale + el_y (fieldsOf child))
                                (fieldsOf child))
                        (childrenOf child))
               imageData scale)
          children h
  ∧ (scale = 1 →
     createElement (Element fields (Some children)) imageData scale h
     = forOf (fun child =>
                createElement
                  (Element (withXY (el_x fields + el_x (fieldsOf child))
                                   (el_y fields + el_y (fieldsOf child))
                                   (fieldsOf child))
                           (childrenOf child))
                  imageData scale)
             children h
     ∧ createElement (Element fields (Some children)) imageData scale h
       = forOf (fun leaf => createLeaf leaf imageData scale)
               (flatten (Element fields (Some children))) h)
  ∧ (∀ shape shapeChildren,
       scale = 1 → el_x fields = Qc_of_Z 100 → el_y fields = Qc_of_Z 50 →
       children = [Element shape shapeChildren] →
       el_type shape = js "shape" →
       el_x shape = Qc_of_Z 10 → el_y shape = Qc_of_Z 10 →
       ∃ node more,
         parent (createElement (Element fields (Some children)) imageData scale h).1
         = parent h ++ node :: more
         ∧ nodeBox node
           = Some (Qc_of_Z 110, Qc_of_Z 60,
                   effectiveWidth shape 1, effectiveHeight shape 1)
         ∧ (nodeType node = RECTANGLE ∨ nodeType node = ELLIPSE))
  ∧ createElement (Element fields (Some [])) imageData scale h = (h, Return tt)
  ∧ createElement (Element fields None) imageData scale h = (h, Return tt).
Proof.
  intros Ht. split; [by apply createElement_group_children|].
  split.
  { intros ->. split; [by apply createElement_group_offsets|].
    apply createElement_flatten. }
  split; [|by apply createElement_empty_group].
  intros shape shapeChildren -> Hx Hy -> Hshape Hsx Hsy.
  rewrite createElement_group_offsets, forOf_singleton by done.
  cbn [fieldsOf childrenOf]. rewrite createElement_shape by done.
  cbn [el_x el_y withXY]. rewrite Hx, Hy, Hsx, Hsy.
  replace ((Qc_of_Z 100 + Qc_of_Z 10) * 1) with (Qc_of_Z 110)
    by (by apply Qc_is_canon).
  replace ((Qc_of_Z 50 + Qc_of_Z 10) * 1) with (Qc_of_Z 60)
    by (by apply Qc_is_canon).
  apply createShape_first_node.
Qed.

End GroupClaims.

Section GroupOnDoubles.
Import PrimFloat.
Local Open Scope float_scope.

(** C4 (as stated) fails on the numbers the plugin runs on: at the fit
    scale of the default page, 2.6666666666666665, the child at
    (10, 10) of a group at (100, 50) is drawn at
    (293.33333333333326, 159.99999999999997), and the group's origin
    plus its offset, scaled once, is (293.3333333333333, 160). *)
Lemma createGroup_child_misses_scaled_sum :
  Doubles.defaultFitScale = 0x1.5555555555555p+1
  ∧ Doubles.placedChild 100 10 Doubles.defaultFitScale = 0x1.2555555555554p+8
  ∧ Doubles.directPlacement 100 10 Doubles.defaultFitScale = 0x1.2555555555555p+8
  ∧ Doubles.placedChild 50 10 Doubles.defaultFitScale = 0x1.3ffffffffffffp+7
  ∧ Doubles.directPlacement 50 10 Doubles.defaultFitScale = 160
  ∧ Doubles.placedChild 100 10 Doubles.defaultFitScale
    ≠ Doubles.directPlacement 100 10 Doubles.defaultFitScale
  ∧ Doubles.placedChild 50 10 Doubles.defaultFitScale
    ≠ Doubles.directPlacement 50 10 Doubles.defaultFitScale.
Proof.
  do 5 (split; [vm_compute; reflexivity|]). split.
  - intros Heq.
    apply (f_equal (fun v => v =? 0x1.2555555555555p+8)) in Heq.
    vm_compute in Heq. discriminate Heq.
  - intros Heq. apply (f_equal (fun v => v =? 160)) in Heq.
    vm_compute in Heq. discriminate Heq.
Qed.

End GroupOnDoubles.

(** ** The orchestrator *)

Section OrchestratorFacts.
Context `{Platform}.

Lemma fillContainer_createElements elements imageData scale h :
  ∃ content h',
    fillContainer (createElements elements imageData scale) h = (h', Return content)
    ∧ ui h' = ui h ∧ page h' = page h ∧ selection h' = selection h
    ∧ viewport h' = viewport h ∧ parent h' = parent h.
Proof.
  unfold fillContainer.
  pose proof (createElements_returns elements imageData scale (with_parent [] h))
    as Hret.
  destruct (sceneOnly_createElements elements imageData scale (with_parent [] h))
    as (Hu & Hp & Hs & Hv & _).
  destruct (createElements elements imageData scale (with_parent [] h))
    as [h1 o]. cbn [fst snd] in *. subst o.
  by eexists _, _.
Qed.


(** The loop over the slides from index [i] on: one progress event and
    one frame on the page per slide, in order. *)
Lemma slideLoop_spec totalSlides imageData scale rest :
  ∀ i createdFrames h,
  ∃ contents h',
    slideLoop totalSlides i rest createdFrames imageData scale h
    = (h', Return (createdFrames ++ slideFrames i contents))
    ∧ length contents = length rest
    ∧ ui h' = ui h ++ (progressEvent totalSlides <$> seq i (length rest))
    ∧ page h' = page h ++ slideFrames i contents
    ∧ selection h' = selection h ∧ viewport h' = viewport h.
Proof.
  induction rest as [|slide rest IH]; intros i createdFrames h.
  - exists [], h. cbn [slideLoop]. unfold slideFrames. cbn.
    by rewrite !app_nil_r.
  - cbn [slideLoop]. unfold bind at 1, postMessage at 1.
    unfold bind at 1, figmaCreate at 1. unfold bind at 1.
    set (h0 := with_created _ _).
    destruct (fillContainer_createElements (elements slide) imageData scale h0)
      as (content & h1 & -> & Hu & Hp & Hs & Hv & _).
    unfold bind at 1, appendToPage at 1.
    set (h2 := with_page _ h1).
    destruct (IH (S i) (createdFrames ++ [slideFrame i content]) h2)
      as (contents & h' & -> & Hlen & Hu' & Hp' & Hs' & Hv').
    exists (content :: contents), h'.
    assert (Hframes : slideFrames i (content :: contents)
                      = slideFrame i content :: slideFrames (S i) contents) by done.
    rewrite Hframes. split; [by rewrite <- app_assoc|].
    split; [cbn [length]; lia|].
    rewrite Hu', Hp', Hs', Hv'. unfold h2. cbn [ui page selection viewport with_page].
    rewrite Hu, Hp, Hs, Hv. unfold h0.
    cbn [ui page selection viewport with_created with_ui length seq fmap list_fmap].
    by rewrite <- !app_assoc.
Qed.

Lemma slideFrames_length i contents :
  length (slideFrames i contents) = length contents.
Proof.
  unfold slideFrames. rewrite length_zip_with, length_seq. lia.
Qed.


End OrchestratorFacts.

Section OrchestratorClaims.
Context `{Platform}.


End OrchestratorClaims.

(** * Runs on sample documents *)

Example trim_examples :
  trim (js "  a b  ") = js "a b" ∧ trim (js " ") = [] ∧ trim [160; 9; 10]%N = [].
Proof. by vm_compute. Qed.

Example matchDataUrl_examples :
  matchDataUrl (js "data:image/png;base64,AAAA") = Some (js "image/png", js "AAAA")
  ∧ matchDataUrl (js "data:;base64,AAAA") = None
  ∧ matchDataUrl (js "data:image/png;base64,") = None
  ∧ matchDataUrl (js "https://example.com/a.png") = None.
Proof. by vm_compute. Qed.

Example ladder_roboto_bold_italic :
  ladder (H := interOnly) (js "Roboto") (Qc_of_Z 800) true
  = [font "Roboto" "Bold Italic"; font "Roboto" "Bold";
     font "Inter" "Bold Italic"; font "Inter" "Bold";
     font "Inter" "Bold Italic"; font "Inter" "Bold";
     font "Roboto" "Bold Italic"; font "Roboto" "Bold";
     font "Arial" "Bold Italic"; font "Arial" "Bold";
     font "Inter" "Regular"; font "Arial" "Regular"].
Proof. by vm_compute. Qed.

Example ladder_courier :
  ladder (H := interOnly) (js "Courier Prime") (Qc_of_Z 400) false
  = [font "Courier Prime" "Regular"; font "Roboto Mono" "Regular";
     font "Courier New" "Regular"; font "Inter" "Regular"; font "Arial" "Regular"].
Proof. by vm_compute. Qed.

(** A family name that the fallback table inherits a member for gets
    the mapped-family rung too, with that member as the family. *)
Example ladder_of_inherited_name :
  ladder (H := noFonts) (js "constructor") (Qc_of_Z 400) false
  = [font "constructor" "Regular";
     {| family := Proto (js "constructor"); style := js "Regular" |};
     font "Inter" "Regular"; font "Roboto" "Regular"; font "Arial" "Regular";
     font "Inter" "Regular"; font "Arial" "Regular"]
  ∧ fontLog (loadFont (H := noFonts) (js "constructor") (Qc_of_Z 400) false
                      initialHost).1
    = ladder (H := noFonts) (js "constructor") (Qc_of_Z 400) false.
Proof. by vm_compute. Qed.

(** An image key that names an inherited member and has no entry ends
    in the error placeholder, with one console entry. *)
Example inherited_image_key :
  let after := (createElement (H := interOnly)
                  (Element (imageWithUrl (Some (js "constructor"))) None)
                  ∅ 1 initialHost).1 in
  nodeName <$> parent after = [Some (js "Image (error)")]
  ∧ console after = [ConsoleError (js "Failed to create image:")
                                  (TypeError (js "base64Data.match"))].
Proof. by vm_compute. Qed.

Example helvetica_resolves_to_inter :
  (loadFont (H := interOnly) (js "Helvetica") (Qc_of_Z 400) false initialHost).2
  = Return (font "Inter" "Regular").
Proof. by vm_compute. Qed.

Example no_fonts_is_fatal :
  loadFont (H := noFonts) (js "Helvetica") (Qc_of_Z 400) false initialHost
  = (with_fontLog (ladder (H := noFonts) (js "Helvetica") (Qc_of_Z 400) false)
                   initialHost,
     Throw (FontLoadError arialRegular)).
Proof. by vm_compute. Qed.

(** A sibling survives a failing element: without any font the text of
    [hiShape] cannot be built, its rectangle and the next element are. *)
Example failing_text_keeps_siblings :
  (createElement (H := noFonts) hiShape ∅ 1 initialHost).2
  = Throw (FontLoadError arialRegular)
  ∧ nodeType <$> parent (createElements (H := noFonts) [hiShape; plainRectangle]
                                        ∅ 1 initialHost).1
    = [RECTANGLE; RECTANGLE]
  ∧ length (console (createElements (H := noFonts) [hiShape; plainRectangle]
                                    ∅ 1 initialHost).1) = 1%nat.
Proof. by vm_compute. Qed.

Example empty_deck_reports_error :
  importPresentation (H := interOnly) emptyDeck ∅ initialHost
  = (with_ui [MsgError (js "No slides found in presentation")] initialHost,
     Return tt).
Proof. by vm_compute. Qed.

Example two_slides_run :
  let h' := (importPresentation (H := interOnly) twoSlides ∅ initialHost).1 in
  nodeName <$> page h' = [Some (js "Slide 1"); Some (js "Slide 2")]
  ∧ (fun frame => nodeType <$> nodeChildren frame) <$> page h'
    = [[RECTANGLE]; [RECTANGLE; TEXT]]
  ∧ fontLog h' = [font "Helvetica" "Regular"; font "Inter" "Regular";
                  font "Helvetica" "Regular"; font "Inter" "Regular"]
  ∧ (fun m => match m with
              | MsgProgress _ text => text
              | MsgComplete n => js_nat n
              | MsgError text => text
              end) <$> ui h'
    = [js "Creating slide 1 of 2..."; js "Creating slide 2 of 2..."; js "2"].
Proof. by vm_compute. Qed.

(** Two levels of nesting at scale 2: the leaf lands at twice the sum
    of the three offsets. *)
Example nested_group_run :
  let inner := Element (blankFields "group" 1 2 0 0)
                       (Some [Element (blankFields "shape" 10 10 20 30) None]) in
  let outer := Element (blankFields "group" 100 50 0 0) (Some [inner]) in
  (fun n => (this <$> nodeX n, this <$> nodeY n))
    <$> parent (createElement (H := interOnly) outer ∅ (Qc_of_Z 2) initialHost).1
  = [(Some (222 # 1)%Q, Some (124 # 1)%Q)].
Proof. by vm_compute. Qed.

(** * The theorems at concrete inputs *)

Lemma interOnly_resolves_arial :
  loadsAt (H := interOnly) [] (ladder (H := interOnly) (js "Arial") (Qc_of_Z 400) false) 1.
Proof. exists (font "Inter" "Regular"). split; vm_compute; reflexivity. Defined.

Lemma loadFont_exhausts_ladder_before_failing_witness :
  ∃ f, (loadFont (H := interOnly) (js "Roboto") (Qc_of_Z 800) false initialHost).2
       = Return f.
Proof.
  apply (loadFont_exhausts_ladder_before_failing (H := interOnly)
           (js "Roboto") (Qc_of_Z 800) false initialHost).
  exists 1%nat, (font "Inter" "Bold"). split; vm_compute; reflexivity.
Defined.


Lemma createGroup_offsets_children_scaled_once_witness :
  ∃ node more,
    parent (createElement (H := interOnly) groupOfOne ∅ 1 initialHost).1
    = parent initialHost ++ node :: more
    ∧ nodeBox node
      = Some (Qc_of_Z 110, Qc_of_Z 60,
              effectiveWidth (blankFields "shape" 10 10 20 30) 1,
              effectiveHeight (blankFields "shape" 10 10 20 30) 1)
    ∧ (nodeType node = RECTANGLE ∨ nodeType node = ELLIPSE).
Proof.
  destruct (createGroup_offsets_children_scaled_once (H := interOnly)
              (blankFields "group" 100 50 0 0)
              [Element (blankFields "shape" 10 10 20 30) None]
              ∅ 1 initialHost eq_refl) as (_ & _ & Hexample & _).
  apply (Hexample (blankFields "shape" 10 10 20 30) None); reflexivity.
Defined.

Lemma createTable_partitions_box_by_grid_shape_witness :
  ∃ tableFrame h',
    createElement (H := interOnly) (Element table2x3 None) ∅ 1 initialHost
    = (h', Return tt)
    ∧ parent h' = [tableFrame]
    ∧ length (rectangleBoxes (nodeChildren tableFrame)) = 6%nat.
Proof.
  assert (Hrow : [js "a"; js ""; js "c"] ≠ []) by discriminate.
  destruct (createTable_partitions_box_by_grid_shape (H := interOnly)
              table2x3 None ∅ 1 initialHost
              [[js "a"; js ""; js "c"]; [js "d"; js " "; js "f"]]
              [js "a"; js ""; js "c"] [[js "d"; js " "; js "f"]] 1
              eq_refl eq_refl eq_refl Hrow interOnly_resolves_arial)
    as (_ & tableFrame & h' & Hrun & Hparent & _ & _ & _ & Hcount & _).
  exists tableFrame, h'. split; [exact Hrun|]. split; [exact Hparent|exact Hcount].
Defined.


Lemma createElements_isolates_failures_witness :
  createElements (H := noFonts) ([] ++ hiShape :: [plainRectangle]) ∅ 1 initialHost
  = createElements (H := noFonts) [plainRectangle] ∅ 1
      (with_console
         (console (createElement (H := noFonts) hiShape ∅ 1 initialHost).1
          ++ [ConsoleError (js "Failed to create element:")
                           (FontLoadError arialRegular)])
         (createElement (H := noFonts) hiShape ∅ 1 initialHost).1).
Proof.
  apply (createElements_isolates_failures (H := noFonts)
           [] hiShape [plainRectangle] ∅ 1 initialHost).
  change ((createElements [] ∅ 1 initialHost).1) with initialHost.
  rewrite (surjective_pairing (createElement hiShape ∅ 1 initialHost)) at 1.
  apply (f_equal (pair _)). vm_compute. reflexivity.
Defined.

Lemma createImage_degrades_to_gray_placeholder_witness :
  ∃ name entries node,
    createElement (H := interOnly) (Element (imageWithUrl (Some (js "k"))) None)
                  ∅ 1 initialHost
    = (hostAfter initialHost [RECTANGLE] entries [node], Return tt)
    ∧ node = placeholder (el_x (imageWithUrl (Some (js "k"))) * 1)
                         (el_y (imageWithUrl (Some (js "k"))) * 1)
                         (effectiveWidth (imageWithUrl (Some (js "k"))) 1)
                         (effectiveHeight (imageWithUrl (Some (js "k"))) 1) name
    ∧ nodeType node = RECTANGLE
    ∧ nodeFills node
      = Some [SOLID {| r := Q2Qc (9 # 10); g := Q2Qc (9 # 10); b := Q2Qc (9 # 10) |}]
    ∧ nodeBox node
      = Some (el_x (imageWithUrl (Some (js "k"))) * 1,
              el_y (imageWithUrl (Some (js "k"))) * 1,
              effectiveWidth (imageWithUrl (Some (js "k"))) 1,
              effectiveHeight (imageWithUrl (Some (js "k"))) 1).
Proof.
  assert (Hkey : js "k" ≠ []) by discriminate.
  apply (createImage_degrades_to_gray_placeholder (H := interOnly)
           (imageWithUrl (Some (js "k"))) None ∅ 1 initialHost (js "k")
           eq_refl eq_refl Hkey).
  left. reflexivity.
Defined.

Lemma createImage_without_key_is_silent_witness :
  createElement (H := interOnly) (Element (imageWithUrl None) None) ∅ 1 initialHost
  = (initialHost, Return tt).
Proof.
  apply (createImage_without_key_is_silent (H := interOnly)).
  - reflexivity.
  - left. reflexivity.
Defined.

(** * Further properties of the plugin *)

(** ** The font resolver beyond the ladder *)

Section FontResolverMore.
Context `{Platform}.

Lemma styleFor_upright fontWeight : styleFor fontWeight false = fallbackStyleFor fontWeight.
Proof. unfold styleFor, fallbackStyleFor. by destruct (bool_decide _). Qed.

Lemma tryFamily_upright fam fontWeight h :
  tryFamily fam fontWeight false h = Legacy.tryStyle fam (fallbackStyleFor fontWeight) h.
Proof. unfold tryFamily, Legacy.tryStyle. by rewrite styleFor_upright. Qed.

Lemma firstReturn_ext {A B} (f g : A → M (option B)) l h :
  (∀ a h', f a h' = g a h') → firstReturn f l h = firstReturn g l h.
Proof.
  intros Hfg. revert h. induction l as [|a l IH]; intros h; [done|].
  cbn [firstReturn]. unfold bind. rewrite Hfg.
  destruct (g a h) as [h' [[v|]|e]]; [done|apply IH|done].
Qed.

Lemma bind_ext {A B} (m1 m2 : M A) (k1 k2 : A → M B) h :
  m1 h = m2 h → (∀ a h', k1 a h' = k2 a h') → bind m1 k1 h = bind m2 k2 h.
Proof.
  intros Hm Hk. unfold bind. rewrite Hm. by destruct (m2 h) as [h' [a|e]].
Qed.

Lemma upright_ladder_length fontFamily fontWeight :
  (length (ladder fontFamily fontWeight false) ≤ 7)%nat.
Proof.
  unfold ladder, exactRungs, mappedRungs, genericRungs, familyRungs.
  rewrite !length_app. cbn [length lastResortRungs].
  assert (length (match mappedFamily fontFamily with
                  | Some fallbackFamily =>
                      [{| family := fallbackFamily;
                          style := styleFor fontWeight false |}]
                  | None => []
                  end) ≤ 1)%nat by (destruct (mappedFamily fontFamily); cbn; lia).
  assert (length (flat_map (fun fallback =>
                              [{| family := Str fallback;
                                  style := styleFor fontWeight false |}])
                           (fallbackList fontFamily)) ≤ 3)%nat.
  { unfold fallbackList. destruct (isMono fontFamily), (isSerif fontFamily);
      cbn [flat_map app length]; lia. }
  lia.
Qed.

Lemma legacy_loadFont_eq fontFamily fontWeight h :
  Legacy.loadFont fontFamily fontWeight h = loadFont fontFamily fontWeight false h.
Proof.
  unfold Legacy.loadFont, loadFont.
  apply bind_ext; [by rewrite tryFamily_upright|]. intros [f|] h1; [done|].
  apply bind_ext.
  { destruct (getMember FONT_FALLBACKS fontFamily) as [fallbackFamily|]; [|done].
    destruct (truthyValue fallbackFamily); [|done]. by rewrite tryFamily_upright. }
  intros [f|] h2; [done|].
  apply bind_ext; [|by intros [f|] h3].
  apply firstReturn_ext. intros a h'. by rewrite tryFamily_upright.
Qed.

(** X1. The earlier resolver is the current one without italic: for an
    upright request both leave the same host and give the same
    result, after at most seven load attempts. *)
Theorem legacy_loadFont_is_upright_loadFont fontFamily fontWeight h :
  Legacy.loadFont fontFamily fontWeight h = loadFont fontFamily fontWeight false h
  ∧ ∃ attempts,
      fontLog (Legacy.loadFont fontFamily fontWeight h).1 = fontLog h ++ attempts
      ∧ (1 ≤ length attempts ≤ 7)%nat.
Proof.
  split; [apply legacy_loadFont_eq|]. rewrite legacy_loadFont_eq.
  destruct (loadFont_attempts fontFamily fontWeight false h) as (n & Hn & ->).
  exists (take n (ladder fontFamily fontWeight false)).
  rewrite fontLog_with_fontLog. split; [done|].
  pose proof (upright_ladder_length fontFamily fontWeight).
  rewrite length_take. lia.
Qed.

Lemma ladder_styles fontFamily fontWeight isItalic f :
  f ∈ ladder fontFamily fontWeight isItalic →
  style f = styleFor fontWeight isItalic
  ∨ style f = fallbackStyleFor fontWeight
  ∨ style f = js "Regular".
Proof.
  unfold ladder, exactRungs, mappedRungs, genericRungs, lastResortRungs.
  change (fallbackStyleFor fontWeight)
    with (if bool_decide (Qc_of_Z 700 ≤ fontWeight)
          then js "Bold" else js "Regular").
  rewrite !elem_of_app. intros [Hf | [Hf | [Hf | Hf]]].
  - apply familyRungs_style in Hf as [_ [Hs | [_ Hs]]]; auto.
  - destruct (mappedFamily fontFamily); [|by apply elem_of_nil in Hf].
    apply familyRungs_style in Hf as [_ [Hs | [_ Hs]]]; auto.
  - apply list_elem_of_In, in_flat_map in Hf as (fallback & _ & Hf).
    apply list_elem_of_In, familyRungs_style in Hf as [_ [Hs | [_ Hs]]]; auto.
  - apply elem_of_cons in Hf as [-> | Hf]; [auto|].
    apply list_elem_of_singleton in Hf as ->. auto.
Qed.

(** X2. The resolver never returns more than was asked for: the style of
    the font it returns is italic only when italic was requested and
    bold only when the weight is at least 700. *)
Theorem loadFont_never_adds_bold_or_italic fontFamily fontWeight isItalic h f :
  (loadFont fontFamily fontWeight isItalic h).2 = Return f →
  f ∈ ladder fontFamily fontWeight isItalic
  ∧ (isItalic = false → style f = js "Bold" ∨ style f = js "Regular")
  ∧ (fontWeight < Qc_of_Z 700 → style f = js "Italic" ∨ style f = js "Regular")
  ∧ (isItalic = false → fontWeight < Qc_of_Z 700 → style f = js "Regular").
Proof.
  intros Hret. rewrite loadFont_climb in Hret. cbn [snd] in Hret.
  destruct (climb_spec (fontLog h) (ladder fontFamily fontWeight isItalic))
    as (n & _ & _ & _ & Hres).
  destruct ((climb (fontLog h) (ladder fontFamily fontWeight isItalic)).2)
    as [g|]; [|done].
  injection Hret as ->. destruct Hres as (_ & _ & Hlook).
  apply list_elem_of_lookup_2 in Hlook. split; [done|].
  apply ladder_styles in Hlook. unfold styleFor, fallbackStyleFor in Hlook.
  repeat split.
  - intros ->. destruct (bool_decide _); cbn [andb] in Hlook; tauto.
  - intros Hlt. rewrite bool_decide_eq_false_2 in Hlook
      by (by apply Qclt_not_le). cbn [andb] in Hlook. destruct isItalic; tauto.
  - intros -> Hlt. rewrite bool_decide_eq_false_2 in Hlook
      by (by apply Qclt_not_le). cbn [andb] in Hlook. tauto.
Qed.

End FontResolverMore.

(** ** Per-run styling *)

Section RunStyling.
Context `{Platform}.

Lemma loadFont_keeps_scene fontFamily fontWeight isItalic h :
  console (loadFont fontFamily fontWeight isItalic h).1 = console h
  ∧ parent (loadFont fontFamily fontWeight isItalic h).1 = parent h
  ∧ created (loadFont fontFamily fontWeight isItalic h).1 = created h.
Proof. by rewrite loadFont_climb. Qed.

Lemma fullTextOf_app before after :
  fullTextOf (before ++ after) = fullTextOf before ++ fullTextOf after.
Proof. unfold fullTextOf. by rewrite fmap_app, concat_app. Qed.

Lemma scaled_font_size_is_positive_integer v :
  ∃ z, (1 ≤ z)%Z ∧ Math_max 1 (Math_round v) = Qc_of_Z z.
Proof.
  unfold Math_max, Math_round. case_bool_decide as Hle.
  - eexists. split; [|done]. apply Z2Qc_inj_le. by rewrite Z2Qc_inj_1.
  - exists 1%Z. split; [done|]. by rewrite Z2Qc_inj_1.
Qed.

(** What the loop over the runs does, from any starting offset. *)
Lemma styleRuns_accounting scale rs charIndex props h :
  ∃ added entries h',
    styleRuns scale rs charIndex props h = (h', Return (props ++ added))
    ∧ console h' = console h ++ entries
    ∧ parent h' = parent h
    ∧ created h' = created h
    ∧ (∀ a, a ∈ added →
         ∃ before run after,
           rs = before ++ run :: after
           ∧ run_text run ≠ []
           ∧ spanOf a
             = Some ((charIndex + length (fullTextOf before))%nat,
                     (charIndex + length (fullTextOf before)
                      + length (run_text run))%nat))
    ∧ (∀ a v, a ∈ added → fontSizeOf a = Some v →
              ∃ z, (1 ≤ z)%Z ∧ v = Qc_of_Z z)
    ∧ (length (List.filter isFontRange added) + length entries
       = length (List.filter hasText rs))%nat.
Proof.
  revert charIndex props h.
  induction rs as [|run rest IH]; intros charIndex props h.
  - exists [], [], h. cbn [styleRuns]. rewrite !app_nil_r.
    repeat split; try done; intros a; intros; by apply elem_of_nil in H0.
  - cbn [styleRuns List.filter]. unfold hasText at 1.
    destruct (bool_decide (length (run_text run) = 0%nat)) eqn:Hlen.
    + apply bool_decide_eq_true_1 in Hlen.
      destruct (IH charIndex props h)
        as (added & entries & h' & Hrun & Hc & Hp & Hcr & Hsp & Hfs & Hn).
      exists added, entries, h'. cbn [negb]. repeat split; try done.
      intros a Ha. destruct (Hsp a Ha) as (before & r & after & -> & Hne & Hs).
      exists (run :: before), r, after. repeat split; try done.
      unfold fullTextOf in *. cbn [fmap list_fmap concat].
      rewrite length_app, Hlen. exact Hs.
    + apply bool_decide_eq_false_1 in Hlen. cbn [negb length].
      assert (Hne : run_text run ≠ []) by (by destruct (run_text run)).
      pose (W := fun fontName =>
                   [SetRangeFontName charIndex (charIndex + length (run_text run))
                                     fontName;
                    SetRangeFontSize charIndex (charIndex + length (run_text run))
                      (Math_max 1 (Math_round (num_or (run_fontSize run)
                                                 (Qc_of_Z 14) * scale)))]
                   ++ match run_color run with
                      | Some c =>
                          [SetRangeFills charIndex
                                         (charIndex + length (run_text run))
                                         [SOLID c]]
                      | None => []
                      end
                   ++ (if run_underline run
                       then [SetRangeTextDecoration charIndex
                               (charIndex + length (run_text run)) (js "UNDERLINE")]
                       else [])
                   ++ (if run_strikethrough run
                       then [SetRangeTextDecoration charIndex
                               (charIndex + length (run_text run))
                               (js "STRIKETHROUGH")]
                       else [])).
      assert (Hhere : ∀ fontName a,
                 a ∈ W fontName →
                 spanOf a
                 = Some (charIndex, (charIndex + length (run_text run))%nat)
                 ∧ ∀ v, fontSizeOf a = Some v → ∃ z, (1 ≤ z)%Z ∧ v = Qc_of_Z z).
      { intros fontName. apply Forall_forall. unfold W.
        destruct (run_color run), (run_underline run), (run_strikethrough run);
          cbn [app]; repeat constructor;
          intros v Hv; cbn [fontSizeOf] in Hv;
          first [discriminate
                | injection Hv as <-; apply scaled_font_size_is_positive_integer]. }
      assert (HW : ∀ fontName,
                 length (List.filter isFontRange (W fontName)) = 1%nat).
      { intros fontName. unfold W. cbn [app List.filter isFontRange length].
        destruct (run_color run), (run_underline run), (run_strikethrough run);
          done. }
      unfold bind at 1, tryCatch at 1. unfold bind at 1, ret at 1.
      destruct (loadFont_keeps_scene (run_fontFamily run) (run_fontWeight run)
                  (bool_decide (run_fontStyle run = js "italic")) h)
        as (Hcons & Hpar & Hcre).
      destruct (loadFont (run_fontFamily run) (run_fontWeight run)
                  (bool_decide (run_fontStyle run = js "italic")) h)
        as [h1 [fontName|err]]; cbn [fst snd] in *.
      * destruct (IH (charIndex + length (run_text run))%nat (props ++ W fontName) h1)
          as (added & entries & h' & Hrun & Hc & Hp & Hcr & Hsp & Hfs & Hn).
        exists (W fontName ++ added), entries, h'.
        split; [etransitivity; [exact Hrun|by rewrite <- app_assoc]|].
        rewrite Hc, Hcons, Hp, Hpar, Hcr, Hcre.
        split; [done|]. split; [done|]. split; [done|]. split; [|split].
        -- intros a [Ha|Ha]%elem_of_app.
           ++ exists [], run, rest. repeat split; try done.
              rewrite (proj1 (Hhere fontName a Ha)). unfold fullTextOf. cbn.
              by rewrite Nat.add_0_r.
           ++ destruct (Hsp a Ha) as (before & r & after & -> & Hner & Hs).
              exists (run :: before), r, after. repeat split; try done.
              rewrite Hs. unfold fullTextOf. cbn [fmap list_fmap concat].
              rewrite length_app. f_equal. f_equal; lia.
        -- intros a v [Ha|Ha]%elem_of_app.
           ++ apply (Hhere fontName a Ha).
           ++ by apply Hfs.
        -- rewrite List.filter_app, length_app, HW. lia.
      * unfold bind at 1, consoleWrite at 1, ret at 1.
        set (h2 := with_console _ h1).
        destruct (IH (charIndex + length (run_text run))%nat props h2)
          as (added & entries & h' & Hrun & Hc & Hp & Hcr & Hsp & Hfs & Hn).
        exists added, (ConsoleError (js "Failed to apply text formatting:") err
                       :: entries), h'.
        rewrite Hrun, Hc, Hp, Hcr. unfold h2.
        cbn [console parent created with_console]. rewrite Hcons, Hpar, Hcre.
        split; [done|]. split; [by rewrite <- app_assoc|].
        split; [done|]. split; [done|]. split; [|split; [done|]].
        -- intros a Ha.
           destruct (Hsp a Ha) as (before & r & after & -> & Hner & Hs).
           exists (run :: before), r, after. repeat split; try done.
           rewrite Hs. unfold fullTextOf. cbn [fmap list_fmap concat].
           rewrite length_app. f_equal. f_equal; lia.
        -- cbn [length]. lia.
Qed.

(** X3. Per-run failure isolation: the styling loop always returns, and
    each run with text ends up either with its font range written or
    with one console entry; none is dropped silently, none stops the
    loop, and the loop neither creates nor appends a node. *)
Theorem styleRuns_styles_or_logs_every_run scale rs charIndex props h :
  ∃ added entries h',
    styleRuns scale rs charIndex props h = (h', Return (props ++ added))
    ∧ console h' = console h ++ entries
    ∧ parent h' = parent h
    ∧ created h' = created h
    ∧ (length (List.filter isFontRange added) + length entries
       = length (List.filter hasText rs))%nat.
Proof.
  destruct (styleRuns_accounting scale rs charIndex props h)
    as (added & entries & h' & Hrun & Hc & Hp & Hcr & _ & _ & Hn).
  by exists added, entries, h'.
Qed.

End RunStyling.

(** ** The text node of a shape *)

Lemma omap_none {A B} (pick : A → option B) (l : list A) :
  (∀ a, a ∈ l → pick a = None) → omap pick l = [].
Proof.
  induction l as [|a l IH]; intros Hpick; [done|].
  cbn [omap list_omap]. rewrite (Hpick a) by (by left).
  apply IH. intros c Hc. apply Hpick. by right.
Qed.

Lemma omap_rotationWrites {B} (pick : Assign → option B) rotation :
  (∀ v, pick (SetRotation v) = None) → omap pick (rotationWrites rotation) = [].
Proof.
  intros Hpick. unfold rotationWrites. destruct (bool_decide _); [done|].
  cbn [omap list_omap]. by rewrite Hpick.
Qed.

Section TextNode.
Context `{Platform}.

(** The text node [createTextForShape] appends. *)
Lemma createTextForShape_text_node
    fields text firstRun others x y width height scale h i :
  el_text fields = Some text →
  runs text = firstRun :: others →
  trim (fullTextOf (runs text)) ≠ [] →
  loadsAt (fontLog h)
          (ladder (run_fontFamily firstRun) (run_fontWeight firstRun)
                  (bool_decide (run_fontStyle firstRun = js "italic"))) i →
  ∃ node h',
    createTextForShape fields x y width height scale h = (h', Return tt)
    ∧ parent h' = parent h ++ [node]
    ∧ created h' = created h ++ [TEXT]
    ∧ nodeType node = TEXT
    ∧ nodeCharacters node = Some (fullTextOf (runs text))
    ∧ nodeBox node
      = Some (x + Qc_of_Z 4 * scale, y + Qc_of_Z 4 * scale,
              Math_max 1 (width - Qc_of_Z 4 * scale * 2),
              Math_max 1 (height - Qc_of_Z 4 * scale * 2))
    ∧ (∀ a v, a ∈ nodeProps node → fontSizeOf a = Some v →
              ∃ z, (1 ≤ z)%Z ∧ v = Qc_of_Z z)
    ∧ (∀ a s e, a ∈ nodeProps node → spanOf a = Some (s, e) →
                ∃ run, run ∈ runs text
                       ∧ run_text run ≠ []
                       ∧ e = (s + length (run_text run))%nat
                       ∧ (e ≤ length (fullTextOf (runs text)))%nat
                       ∧ take (length (run_text run))
                              (drop s (fullTextOf (runs text)))
                         = run_text run)
    ∧ nodeRotation node
      = (if bool_decide (el_rotation fields = 0) then None
         else Some (- el_rotation fields)).
Proof.
  intros Htext Hruns Hnonblank Hfont. unfold createTextForShape.
  rewrite Htext. rewrite Hruns in Hnonblank |- *.
  rewrite (proj2 (truthy_nonempty _) Hnonblank). cbn [negb].
  unfold bind at 1, figmaCreate at 1.
  set (h0 := with_created (created h ++ [TEXT]) h).
  assert (Hlog : fontLog h0 = fontLog h) by done.
  destruct (climb_finds _ _ _ Hfont) as [defaultFont Hfound].
  unfold bind at 1. rewrite loadFont_climb, Hlog, Hfound. cbn [fst snd].
  set (h1 := with_fontLog _ h0).
  set (props0 := [SetFontName defaultFont; _; _]).
  destruct (styleRuns_accounting scale (firstRun :: others) 0 props0 h1)
    as (added & entries & h2 & Hrun & _ & Hp & Hcr & Hsp & Hfs & _).
  unfold bind at 1. rewrite Hrun. unfold appendChild.
  eexists _, _. split; [reflexivity|].
  cbn [parent created with_parent nodeType nodeProps]. rewrite Hp, Hcr.
  split; [done|]. split; [done|]. split; [done|].
  assert (Hrange : ∀ a, a ∈ added → is_Some (spanOf a)).
  { intros a Ha. destruct (Hsp a Ha) as (? & ? & ? & _ & _ & ->). by eexists. }
  assert (Hnopick : ∀ B (pick : Assign → option B),
             (∀ a, is_Some (spanOf a) → pick a = None) →
             omap pick added = []).
  { intros B pick Hpick. apply omap_none. intros a Ha. by apply Hpick, Hrange. }
  split; [|split; [|split; [|split]]].
  - unfold nodeCharacters, lastWrite. cbn [nodeProps].
    rewrite !omap_app, Hnopick, omap_rotationWrites; [done|done|].
    intros a [se Ha]. by destruct a.
  - unfold nodeBox, nodeX, nodeY, nodeSize, lastWrite. cbn [nodeProps].
    rewrite !omap_app, !Hnopick, !omap_rotationWrites; try done;
      intros a [se Ha]; by destruct a.
  - intros a v Ha Hv. cbn [nodeProps] in Ha. rewrite !elem_of_app in Ha.
    destruct Ha as [[Ha|Ha]|[Ha|Ha]].
    + unfold props0 in Ha. rewrite !elem_of_cons, elem_of_nil in Ha.
      destruct Ha as [-> | [-> | [-> | []]]]; try done.
      injection Hv as <-. apply scaled_font_size_is_positive_integer.
    + by apply (Hfs a).
    + rewrite !elem_of_cons, elem_of_nil in Ha.
      destruct Ha as [-> | [-> | [-> | [-> | [-> | [-> | []]]]]]]; done.
    + unfold rotationWrites in Ha.
      destruct (bool_decide (el_rotation fields = 0));
        [by apply elem_of_nil in Ha|].
      by apply list_elem_of_singleton in Ha as ->.
  - intros a s e Ha Hs. cbn [nodeProps] in Ha. rewrite !elem_of_app in Ha.
    destruct Ha as [[Ha|Ha]|[Ha|Ha]].
    + unfold props0 in Ha. rewrite !elem_of_cons, elem_of_nil in Ha.
      destruct Ha as [-> | [-> | [-> | []]]]; done.
    + destruct (Hsp a Ha) as (before & run & after & Heq & Hne & Hspan).
      rewrite Hspan in Hs. injection Hs as <- <-. cbn [Nat.add].
      exists run. rewrite Heq.
      split; [apply elem_of_app; right; by left|]. split; [done|].
      split; [done|]. rewrite fullTextOf_app.
      change (fullTextOf (run :: after)) with (run_text run ++ fullTextOf after).
      rewrite drop_app_length, take_app_length, !length_app. split; [lia|done].
    + rewrite !elem_of_cons, elem_of_nil in Ha.
      destruct Ha as [-> | [-> | [-> | [-> | [-> | [-> | []]]]]]]; done.
    + unfold rotationWrites in Ha.
      destruct (bool_decide (el_rotation fields = 0));
        [by apply elem_of_nil in Ha|].
      by apply list_elem_of_singleton in Ha as ->.
  - unfold nodeRotation, lastWrite. cbn [nodeProps].
    rewrite !omap_app, Hnopick by (intros a [se Ha]; by destruct a).
    unfold rotationWrites.
    by destruct (bool_decide (el_rotation fields = 0)).
Qed.

(** X4. A shape's text, when it is not blank and the font of its first run
    resolves, becomes exactly one text node appended to the container:
    it carries the concatenated text, sits inside the shape box with a
    padding of [4 * scale] on every side (never smaller than 1 by 1),
    every font size written on it is a whole number of at least 1, and
    every range written on it cuts the text of one non-empty run out of
    the node's characters. *)
Theorem createTextForShape_builds_one_text_node
    fields text firstRun others x y width height scale h i :
  el_text fields = Some text →
  runs text = firstRun :: others →
  trim (fullTextOf (runs text)) ≠ [] →
  loadsAt (fontLog h)
          (ladder (run_fontFamily firstRun) (run_fontWeight firstRun)
                  (bool_decide (run_fontStyle firstRun = js "italic"))) i →
  ∃ node h',
    createTextForShape fields x y width height scale h = (h', Return tt)
    ∧ parent h' = parent h ++ [node]
    ∧ created h' = created h ++ [TEXT]
    ∧ nodeType node = TEXT
    ∧ nodeCharacters node = Some (fullTextOf (runs text))
    ∧ nodeBox node
      = Some (x + Qc_of_Z 4 * scale, y + Qc_of_Z 4 * scale,
              Math_max 1 (width - Qc_of_Z 4 * scale * 2),
              Math_max 1 (height - Qc_of_Z 4 * scale * 2))
    ∧ (∀ a v, a ∈ nodeProps node → fontSizeOf a = Some v →
              ∃ z, (1 ≤ z)%Z ∧ v = Qc_of_Z z)
    ∧ (∀ a s e, a ∈ nodeProps node → spanOf a = Some (s, e) →
                ∃ run, run ∈ runs text
                       ∧ run_text run ≠ []
                       ∧ e = (s + length (run_text run))%nat
                       ∧ (e ≤ length (fullTextOf (runs text)))%nat
                       ∧ take (length (run_text run))
                              (drop s (fullTextOf (runs text)))
                         = run_text run).
Proof.
  intros Htext Hruns Hnonblank Hfont.
  destruct (createTextForShape_text_node fields text firstRun others x y width
              height scale h i Htext Hruns Hnonblank Hfont)
    as (node & h' & Hrun & Hp & Hc & Ht & Hchars & Hbox & Hsizes & Hspans & _).
  by exists node, h'.
Qed.

End TextNode.

(** ** Shapes and lines *)

Section ShapeAndLine.
Context `{Platform}.

(** The node [createShape] appends first, write by write. *)
Lemma createShape_node fields x y width height scale h :
  let shapeType :=
    match el_shapeType fields with
    | Some s => if truthy s then s else js "RECTANGLE"
    | None => js "RECTANGLE"
    end in
  let kind :=
    if bool_decide (shapeType = js "ELLIPSE")
    then (ELLIPSE, [Resize width height])
    else if bool_decide (shapeType = js "ROUND_RECTANGLE")
    then (RECTANGLE,
          [Resize width height;
           SetCornerRadius (Math_min width height * Q2Qc (1 # 10))])
    else (RECTANGLE, [Resize width height]) in
  ∃ more,
    parent (createShape fields x y width height scale h).1
    = parent h
      ++ Node kind.1
              (kind.2
               ++ [SetX x; SetY y]
               ++ [SetFills match el_fillColor fields with
                            | Some c => [SOLID c]
                            | None => []
                            end]
               ++ match el_strokeColor fields, el_strokeWeight fields with
                  | Some c, Some w =>
                      if bool_decide (w = 0) then []
                      else [SetStrokes [SOLID c]; SetStrokeWeight w]
                  | _, _ => []
                  end
               ++ rotationWrites (el_rotation fields)) []
         :: more.
Proof.
  intros shapeType kind. unfold createShape. fold shapeType.
  set (after := fun _ : unit => match el_text fields with
                                | Some text => _
                                | None => _
                                end).
  assert (Hafter : ∀ u, sceneOnly (after u)).
  { intros u. unfold after.
    destruct (el_text fields) as [text|]; [|apply sceneOnly_ret].
    destruct (bool_decide (0 < length (runs text))%nat);
      [apply sceneOnly_createTextForShape|apply sceneOnly_ret]. }
  assert (Hrun : ∀ (k : NodeType * list Assign) h0,
             parent h0 = parent h →
             ∃ more,
               parent ((let* node := ret k in
                        appendChild
                          (Node node.1
                             (node.2
                              ++ [SetX x; SetY y]
                              ++ [SetFills match el_fillColor fields with
                                           | Some c => [SOLID c]
                                           | None => []
                                           end]
                              ++ match el_strokeColor fields,
                                       el_strokeWeight fields with
                                 | Some c, Some w =>
                                     if bool_decide (w = 0) then []
                                     else [SetStrokes [SOLID c]; SetStrokeWeight w]
                                 | _, _ => []
                                 end
                              ++ rotationWrites (el_rotation fields)) [])
                        >> after tt) h0).1
               = parent h ++ Node k.1 (k.2 ++ [SetX x; SetY y]
                              ++ [SetFills match el_fillColor fields with
                                           | Some c => [SOLID c]
                                           | None => []
                                           end]
                              ++ match el_strokeColor fields,
                                       el_strokeWeight fields with
                                 | Some c, Some w =>
                                     if bool_decide (w = 0) then []
                                     else [SetStrokes [SOLID c]; SetStrokeWeight w]
                                 | _, _ => []
                                 end
                              ++ rotationWrites (el_rotation fields)) [] :: more).
  { intros k h0 Hh0. unfold bind at 1, ret at 1. unfold bind at 1, appendChild at 1.
    cbv beta iota. set (h1 := with_parent _ h0).
    destruct (Hafter tt h1) as (_ & _ & _ & _ & more & Hmore).
    exists more. rewrite Hmore. unfold h1. cbn [parent with_parent].
    by rewrite Hh0, <- app_assoc. }
  unfold kind.
  destruct (bool_decide (shapeType = js "ELLIPSE")).
  - destruct (Hrun (ELLIPSE, [Resize width height])
                (with_created (created h ++ [ELLIPSE]) h) eq_refl) as [more Hm].
    exists more. rewrite <- Hm. unfold bind at 1 3, figmaCreate at 1. by unfold ret at 1.
  - destruct (bool_decide (shapeType = js "ROUND_RECTANGLE")).
    + destruct (Hrun (RECTANGLE,
                      [Resize width height;
                       SetCornerRadius (Math_min width height * Q2Qc (1 # 10))])
                  (with_created (created h ++ [RECTANGLE]) h) eq_refl)
        as [more Hm].
      exists more. rewrite <- Hm. unfold bind at 1 3, figmaCreate at 1.
      by unfold ret at 1.
    + destruct (Hrun (RECTANGLE, [Resize width height])
                  (with_created (created h ++ [RECTANGLE]) h) eq_refl)
        as [more Hm].
      exists more. rewrite <- Hm. unfold bind at 1 3, figmaCreate at 1.
      by unfold ret at 1.
Qed.

(** X5. The shape node is painted exactly as the element declares: its
    fill is always written, the element's solid color or explicitly
    nothing; a stroke is written only when the element has both a
    stroke color and a non-zero stroke weight; the rotation is written
    only when it is not zero, and negated; the node is an ellipse only
    for the shape type [ELLIPSE] and has a corner radius only for
    [ROUND_RECTANGLE]. *)
Theorem createShape_paints_what_is_declared fields x y width height scale h :
  ∃ node more,
    parent (createShape fields x y width height scale h).1
    = parent h ++ node :: more
    ∧ nodeFills node
      = Some match el_fillColor fields with
             | Some c => [SOLID c]
             | None => []
             end
    ∧ (nodeStrokes node, nodeStrokeWeight node)
      = match el_strokeColor fields, el_strokeWeight fields with
        | Some c, Some w =>
            if bool_decide (w = 0) then (None, None) else (Some [SOLID c], Some w)
        | _, _ => (None, None)
        end
    ∧ nodeRotation node
      = (if bool_decide (el_rotation fields = 0) then None
         else Some (- el_rotation fields))
    ∧ (nodeType node = ELLIPSE ↔ el_shapeType fields = Some (js "ELLIPSE"))
    ∧ (is_Some (nodeCornerRadius node)
       ↔ el_shapeType fields = Some (js "ROUND_RECTANGLE")).
Proof.
  destruct (createShape_node fields x y width height scale h) as [more Hm].
  eexists _, more. split; [exact Hm|]. clear Hm.
  assert (Hkind : ∀ target,
             target ≠ js "RECTANGLE" → target ≠ [] →
             bool_decide (match el_shapeType fields with
                          | Some s => if truthy s then s else js "RECTANGLE"
                          | None => js "RECTANGLE"
                          end = target) = true
             ↔ el_shapeType fields = Some target).
  { intros target Hr He. rewrite bool_decide_eq_true.
    destruct (el_shapeType fields) as [[|c s]|]; cbn [truthy]; split;
      intros Heq; try congruence. }
  pose proof (Hkind (js "ELLIPSE") ltac:(by vm_compute) ltac:(by vm_compute)) as HE.
  pose proof (Hkind (js "ROUND_RECTANGLE") ltac:(by vm_compute) ltac:(by vm_compute))
    as HR.
  assert (HER : js "ELLIPSE" ≠ js "ROUND_RECTANGLE") by (by vm_compute).
  unfold nodeFills, nodeStrokes, nodeStrokeWeight, nodeRotation, nodeCornerRadius,
    lastWrite.
  destruct (bool_decide (_ = js "ELLIPSE"));
    [|destruct (bool_decide (_ = js "ROUND_RECTANGLE"))];
    cbn [fst snd nodeType nodeProps]; rewrite !omap_app;
    unfold rotationWrites.
  - assert (Hell : el_shapeType fields = Some (js "ELLIPSE")) by (by apply HE).
    repeat split;
      try (destruct (el_strokeColor fields), (el_strokeWeight fields);
           repeat case_bool_decide; done).
    + intros [r Hr]. exfalso. revert Hr.
      destruct (el_strokeColor fields), (el_strokeWeight fields);
        repeat case_bool_decide; done.
    + intros Hround. congruence.
  - assert (Hround : el_shapeType fields = Some (js "ROUND_RECTANGLE"))
      by (by apply HR).
    repeat split;
      try (destruct (el_strokeColor fields), (el_strokeWeight fields);
           repeat case_bool_decide; done).
    intros Hell. congruence.
  - repeat split;
      try (destruct (el_strokeColor fields), (el_strokeWeight fields);
           repeat case_bool_decide; done).
    + intros Hell. by apply HE in Hell.
    + intros [r Hr']. exfalso. revert Hr'.
      destruct (el_strokeColor fields), (el_strokeWeight fields);
        repeat case_bool_decide; done.
    + intros Hround. by apply HR in Hround.
Qed.

(** X6. A line element always yields exactly one line node and nothing
    else: its length is the norm of the effective size and its height
    0, its rotation is always written (the effective size is never
    zero), no fill is ever written on it, and its stroke weight is the
    element's when that is present and not zero, and 1 otherwise. *)
Theorem createElement_line_builds_one_stroked_line
    fields children imageData scale h :
  el_type fields = js "line" →
  let width := effectiveWidth fields scale in
  let height := effectiveHeight fields scale in
  ∃ node,
    createElement (Element fields children) imageData scale h
    = (hostAfter h [LINE] [] [node], Return tt)
    ∧ nodeType node = LINE
    ∧ nodeBox node
      = Some (el_x fields * scale, el_y fields * scale,
              Math_sqrt (width * width + height * height), 0)
    ∧ nodeRotation node
      = Some (- (Math_atan2 height width * (Qc_of_Z 180 / Math_PI)))
    ∧ nodeFills node = None
    ∧ nodeStrokeWeight node
      = Some match el_strokeWeight fields with
             | Some w => if bool_decide (w = 0) then 1 else w
             | None => 1
             end
    ∧ nodeStrokes node = match el_strokeColor fields with
                         | Some c => Some [SOLID c]
                         | None => None
                         end.
Proof.
  intros Ht width height. rewrite createElement_line by done.
  assert (Hw : effectiveWidth fields scale ≠ 0).
  { intros Hz. pose proof (Math_max_spec 1
      (el_width fields * Math_abs (el_scaleX fields) * scale)) as (Hge & _).
    unfold effectiveWidth in Hz. rewrite Hz in Hge. by apply Qcle_not_lt in Hge. }
  unfold createLine. fold width height.
  rewrite (bool_decide_eq_false_2 (width = 0)) by done. cbn [negb orb].
  eexists. split.
  { unfold bind, figmaCreate, appendChild, hostAfter, with_created, with_parent.
    cbn [fontLog created console ui parent page selection viewport].
    by rewrite app_nil_r. }
  unfold nodeBox, nodeX, nodeY, nodeSize, nodeRotation, nodeFills,
    nodeStrokeWeight, nodeStrokes, lastWrite, num_or.
  cbn [nodeType nodeProps].
  destruct (el_strokeColor fields), (el_strokeWeight fields); done.
Qed.

End ShapeAndLine.

(** ** Tables: the edge cases and the cell texts *)

Section TableMore.
Context `{Platform}.

Lemma textsOf_app l1 l2 : textsOf (l1 ++ l2) = textsOf l1 ++ textsOf l2.
Proof. unfold textsOf. apply omap_app. Qed.

Lemma cellText_row (rows : list (list (list N))) r c :
  rows !! r ≫= (fun cells => cells !! c) = default [] (rows !! r) !! c.
Proof. by destruct (rows !! r). Qed.

(** The text nodes of row [r], columns [k], [k+1], ..., [k+n-1]. *)
Lemma textsOf_row rows fontName cw ch padding scale r n :
  ∀ k,
    textsOf (flat_map (cellNodes rows fontName cw ch padding scale r) (seq k n))
    = List.filter hasInk (take n (drop k (default [] (rows !! r)))).
Proof.
  induction n as [|n IH]; intros k; [done|].
  cbn [seq flat_map]. rewrite textsOf_app, IH. unfold cellNodes at 1.
  rewrite cellText_row.
  destruct (default [] (rows !! r) !! k) as [text|] eqn:Hk.
  - rewrite (drop_S _ _ _ Hk). cbn [take List.filter default from_option].
    unfold hasInk at 2, id. by destruct (truthy (trim text)).
  - apply lookup_ge_None in Hk.
    rewrite !drop_ge by lia. cbn [default from_option]. by destruct n.
Qed.

Lemma textsOf_rows rows fontName cc cw ch padding scale n :
  ∀ k,
    textsOf (flat_map (fun row =>
               flat_map (cellNodes rows fontName cw ch padding scale row) (seq 0 cc))
               (seq k n))
    = List.filter hasInk (flat_map (take cc) (take n (drop k rows))).
Proof.
  induction n as [|n IH]; intros k; [done|].
  cbn [seq flat_map]. rewrite textsOf_app, IH, textsOf_row, drop_0.
  destruct (rows !! k) as [row|] eqn:Hk.
  - rewrite (drop_S _ _ _ Hk). cbn [take flat_map default].
    by rewrite List.filter_app.
  - apply lookup_ge_None in Hk. rewrite !drop_ge by lia.
    cbn [default from_option]. rewrite !take_nil. by destruct cc.
Qed.

Lemma cellNodes_text rows fontName cw ch padding scale r c text :
  rows !! r ≫= (fun cells => cells !! c) = Some text →
  hasInk text = true →
  Node TEXT
       [SetFontName fontName; SetCharacters text; SetFontSize (Qc_of_Z 10);
        SetX (Qc_of_nat c * cw + padding); SetY (Qc_of_nat r * ch + padding);
        Resize (cw - padding * 2) (ch - padding * 2);
        SetTextAutoResize (js "TRUNCATE")] []
  ∈ cellNodes rows fontName cw ch padding scale r c.
Proof.
  intros Hcell Hink. unfold cellNodes. rewrite Hcell. cbn [default from_option].
  unfold id. unfold hasInk in Hink. rewrite Hink. apply list_elem_of_further, list_elem_of_here.
Qed.

Lemma tableCells_text rows fontName rc cc cw ch padding scale r c text :
  (r < rc)%nat → (c < cc)%nat →
  rows !! r ≫= (fun cells => cells !! c) = Some text →
  hasInk text = true →
  Node TEXT
       [SetFontName fontName; SetCharacters text; SetFontSize (Qc_of_Z 10);
        SetX (Qc_of_nat c * cw + padding); SetY (Qc_of_nat r * ch + padding);
        Resize (cw - padding * 2) (ch - padding * 2);
        SetTextAutoResize (js "TRUNCATE")] []
  ∈ tableCells rows fontName rc cc cw ch padding scale.
Proof.
  intros Hr Hc Hcell Hink. unfold tableCells.
  apply list_elem_of_In, in_flat_map. exists r. split; [apply in_seq; lia|].
  apply in_flat_map. exists c. split; [apply in_seq; lia|].
  by apply list_elem_of_In, cellNodes_text.
Qed.

Lemma tableCells_text_nodes rows fontName rc cc cw ch padding scale :
  Forall (fun node => nodeType node = TEXT →
                      nodeFontSize node = Some (Qc_of_Z 10)
                      ∧ nodeFontName node = Some fontName)
         (tableCells rows fontName rc cc cw ch padding scale).
Proof.
  unfold tableCells. apply Forall_forall. intros node Hin.
  apply list_elem_of_In, in_flat_map in Hin. destruct Hin as (r & _ & Hin).
  apply in_flat_map in Hin. destruct Hin as (c & _ & Hin).
  unfold cellNodes in Hin. destruct Hin as [<-|Hin]; [done|].
  destruct (truthy _); [|done]. destruct Hin as [<-|[]]. done.
Qed.

(** X7. A table with no first-row cell draws nothing at all, however many
    cells its other rows have: the rows are absent, there is no row, or
    the first row is empty.  No node is created and no font is
    requested. *)
Theorem createTable_without_first_row_cells_draws_nothing
    fields children imageData scale h :
  el_type fields = js "table" →
  el_rows fields = None ∨ el_rows fields = Some []
  ∨ (∃ rest, el_rows fields = Some ([] :: rest)) →
  createElement (Element fields children) imageData scale h = (h, Return tt).
Proof.
  intros Ht Hrows. rewrite createElement_table by done. unfold createTable.
  by destruct Hrows as [->|[->|[rest ->]]].
Qed.

(** X8. A table needs the default font even when no cell has text: when no
    rung of the ladder of Arial 400 loads, the table is lost as a
    whole.  Its frame was created but is never appended, no cell is
    created, the whole ladder was tried, and the exception is the
    failed load of Arial Regular; under [createElements] that becomes
    one console entry. *)
Theorem createTable_without_default_font_is_lost
    fields children imageData scale h rows row0 rest :
  el_type fields = js "table" →
  el_rows fields = Some rows →
  rows = row0 :: rest →
  row0 ≠ [] →
  (∀ i, ¬ loadsAt (fontLog h) (ladder (js "Arial") (Qc_of_Z 400) false) i) →
  let h' := with_fontLog (fontLog h ++ ladder (js "Arial") (Qc_of_Z 400) false)
                         (with_created (created h ++ [FRAME]) h) in
  createElement (Element fields children) imageData scale h
  = (h', Throw (FontLoadError arialRegular))
  ∧ parent h' = parent h
  ∧ createElements [Element fields children] imageData scale h
    = (with_console
         (console h ++ [ConsoleError (js "Failed to create element:")
                                     (FontLoadError arialRegular)]) h',
       Return tt).
Proof.
  intros Ht Hrows -> Hne Hnone h'.
  assert (Hrun : createElement (Element fields children) imageData scale h
                 = (h', Throw (FontLoadError arialRegular))).
  { rewrite createElement_table by done. unfold createTable. rewrite Hrows.
    cbn [default length]. destruct row0 as [|c0 row0]; [done|].
    cbn [length].
    rewrite (bool_decide_eq_false_2 (S (length rest) = 0%nat)) by done.
    rewrite (bool_decide_eq_false_2 (S (length row0) = 0%nat)) by done.
    cbn [orb]. unfold bind at 1, figmaCreate at 1. unfold bind at 1.
    rewrite loadFont_climb.
    set (h0 := with_created (created h ++ [FRAME]) h).
    change (fontLog h0) with (fontLog h).
    destruct (climb_spec (fontLog h) (ladder (js "Arial") (Qc_of_Z 400) false))
      as (n & Hn & Hlog & _ & Hres).
    destruct (climb (fontLog h) (ladder (js "Arial") (Qc_of_Z 400) false)).2
      as [f|] eqn:Hclimb.
    - destruct Hres as (_ & Hl & _). by destruct (Hnone _ Hl).
    - destruct Hres as [-> _]. rewrite Hlog, firstn_all. done. }
  split; [done|]. split; [done|].
  unfold createElements. cbn [forOf]. unfold bind, tryCatch. rewrite Hrun.
  unfold consoleWrite, ret. done.
Qed.

(** X9. What a table says: when the default font resolves, the text nodes
    of the table frame carry, in reading order, exactly the texts with
    ink among the first [colCount] cells of each row, where [colCount]
    is the length of the first row (cells beyond it are dropped, a
    short row just has fewer); each of them is set, at size 10
    whatever the scale, in the font the resolver returned for Arial at
    weight 400, which is the first rung of that ladder that loads; and
    the text of cell (row, col) sits inside its cell, inset by the
    padding [4 * scale] on every side. *)
Theorem createTable_texts_follow_the_grid
    fields children imageData scale h rows row0 rest i :
  el_type fields = js "table" →
  el_rows fields = Some rows →
  rows = row0 :: rest →
  row0 ≠ [] →
  loadsAt (fontLog h) (ladder (js "Arial") (Qc_of_Z 400) false) i →
  let cellWidth := effectiveWidth fields scale / Qc_of_nat (length row0) in
  let cellHeight := effectiveHeight fields scale / Qc_of_nat (length rows) in
  let padding := Qc_of_Z 4 * scale in
  ∃ tableFrame fontName h',
    createElement (Element fields children) imageData scale h = (h', Return tt)
    ∧ parent h' = parent h ++ [tableFrame]
    ∧ (loadFont (js "Arial") (Qc_of_Z 400) false
                (with_created (created h ++ [FRAME]) h)).2 = Return fontName
    ∧ (∃ n, ladder (js "Arial") (Qc_of_Z 400) false !! n = Some fontName
            ∧ loadsAt (fontLog h) (ladder (js "Arial") (Qc_of_Z 400) false) n
            ∧ ∀ j, (j < n)%nat →
                   ¬ loadsAt (fontLog h)
                             (ladder (js "Arial") (Qc_of_Z 400) false) j)
    ∧ textsOf (nodeChildren tableFrame)
      = List.filter hasInk (flat_map (take (length row0)) rows)
    ∧ Forall (fun node => nodeType node = TEXT →
                          nodeFontSize node = Some (Qc_of_Z 10)
                          ∧ nodeFontName node = Some fontName)
             (nodeChildren tableFrame)
    ∧ (∀ row col text,
         (col < length row0)%nat →
         rows !! row ≫= (fun cells => cells !! col) = Some text →
         hasInk text = true →
         ∃ node, node ∈ nodeChildren tableFrame
                 ∧ nodeType node = TEXT
                 ∧ nodeCharacters node = Some text
                 ∧ nodeBox node
                   = Some (Qc_of_nat col * cellWidth + padding,
                           Qc_of_nat row * cellHeight + padding,
                           cellWidth - padding * 2, cellHeight - padding * 2)).
Proof.
  intros Ht Hrows Hshape Hne Hfont cellWidth cellHeight padding.
  rewrite createElement_table by done.
  destruct (createTable_grid fields (el_x fields * scale) (el_y fields * scale)
              (effectiveWidth fields scale) (effectiveHeight fields scale)
              scale h rows row0 rest i Hrows Hshape Hne Hfont)
    as (fontName & hFont & Hload & ->).
  fold cellWidth cellHeight padding.
  pose proof (loadFont_climb (js "Arial") (Qc_of_Z 400) false
                (with_created (created h ++ [FRAME]) h)) as Hc.
  rewrite Hload in Hc.
  pose proof (f_equal fst Hc) as Hhost. pose proof (f_equal snd Hc) as Hres.
  cbn [fst snd] in Hhost, Hres. clear Hc.
  assert (Hparent : parent hFont = parent h) by (by rewrite Hhost).
  assert (Hrung : ∃ n, ladder (js "Arial") (Qc_of_Z 400) false !! n = Some fontName
                       ∧ loadsAt (fontLog h)
                                 (ladder (js "Arial") (Qc_of_Z 400) false) n
                       ∧ ∀ j, (j < n)%nat →
                              ¬ loadsAt (fontLog h)
                                  (ladder (js "Arial") (Qc_of_Z 400) false) j).
  { destruct (climb_spec (fontLog (with_created (created h ++ [FRAME]) h))
                (ladder (js "Arial") (Qc_of_Z 400) false))
      as (n & _ & _ & Hbefore & Hspec).
    destruct (climb _ _).2 as [f|]; [|discriminate Hres].
    injection Hres as <-. destruct Hspec as (Hpos & Hloads & Hl).
    exists (n - 1)%nat. split; [done|]. split; [done|]. exact Hbefore. }
  assert (Hreturned : (loadFont (js "Arial") (Qc_of_Z 400) false
                                (with_created (created h ++ [FRAME]) h)).2
                      = Return fontName) by (by rewrite Hload).
  clear Hhost Hres Hload.
  eexists _, fontName, _. split; [reflexivity|].
  unfold hostAfter. cbn [parent with_parent with_created nodeChildren].
  rewrite Hparent. split; [reflexivity|]. cbn [nodeChildren].
  split; [done|]. split; [done|]. split; [|split].
  - unfold tableCells. rewrite textsOf_rows, drop_0, firstn_all. done.
  - apply tableCells_text_nodes.
  - intros row col text Hcol Hcell Hink.
    assert (Hrow : (row < length rows)%nat).
    { destruct (rows !! row) eqn:Hr; [|done]. by apply lookup_lt_Some in Hr. }
    eexists. split; [by apply tableCells_text|]. done.
Qed.

End TableMore.

(** ** Element lists and groups *)

Section ElementLists.
Context `{Platform}.

(** X10. Materializing elements only ever adds to the container: whatever
    the elements are, and whether they succeed or fail, the children
    already in the container stay in place in front of the new ones,
    and neither the message channel nor the page, the selection or the
    viewport is touched. *)
Theorem createElements_only_appends elements imageData scale h :
  let h' := (createElements elements imageData scale h).1 in
  (∃ added, parent h' = parent h ++ added)
  ∧ ui h' = ui h ∧ page h' = page h
  ∧ selection h' = selection h ∧ viewport h' = viewport h.
Proof.
  intros h'.
  destruct (sceneOnly_createElements elements imageData scale h)
    as (Hu & Hp & Hs & Hv & Hmore).
  done.
Qed.

Lemma createElement_unknown fields children imageData scale h :
  el_type fields ∉ [js "shape"; js "image"; js "line"; js "table"; js "group"] →
  createElement (Element fields children) imageData scale h = (h, Return tt).
Proof.
  intros Hunknown. rewrite createElement_eq. unfold dispatch. cbn [fieldsOf].
  assert (Hne : ∀ tag,
             In tag [js "shape"; js "image"; js "line"; js "table"; js "group"] →
             bool_decide (el_type fields = tag) = false).
  { intros tag Hin. apply bool_decide_eq_false_2. intros Heq. apply Hunknown.
    rewrite Heq. by apply list_elem_of_In. }
  rewrite !Hne; [done|..]; cbn [In]; by repeat (first [left; reflexivity | right]).
Qed.

(** X11. An element whose type is none of the five known ones is skipped
    without a trace, children included: the list is materialized as if
    the element were not in it. *)
Theorem createElements_skips_unknown_types
    before fields children after imageData scale h :
  el_type fields ∉ [js "shape"; js "image"; js "line"; js "table"; js "group"] →
  createElements (before ++ Element fields children :: after) imageData scale h
  = createElements (before ++ after) imageData scale h.
Proof.
  intros Hunknown.
  rewrite !createElements_app, createElements_cons, createElement_unknown by done.
  done.
Qed.

(** X12. Inside a group nothing isolates the children from each other: when
    a child fails, the group fails with the child's exception at the
    host the child left, so the children after it are never attempted,
    while what the children before it appended stays.  At the top
    level the whole group then counts as one failed element. *)
Theorem createGroup_stops_at_first_failing_child
    fields before child after imageData scale h hBefore h' err :
  el_type fields = js "group" →
  let place := fun c =>
    Element (childFields (el_x fields * scale) (el_y fields * scale) scale c)
            (childrenOf c) in
  forOf (fun c => createElement (place c) imageData scale) before h
  = (hBefore, Return tt) →
  createElement (place child) imageData scale hBefore = (h', Throw err) →
  createElement (Element fields (Some (before ++ child :: after))) imageData scale h
  = (h', Throw err)
  ∧ createElements [Element fields (Some (before ++ child :: after))]
                   imageData scale h
    = (with_console
         (console h' ++ [ConsoleError (js "Failed to create element:") err]) h',
       Return tt).
Proof.
  intros Ht place Hbefore Hchild.
  assert (Hrun : createElement (Element fields (Some (before ++ child :: after)))
                               imageData scale h = (h', Throw err)).
  { rewrite createElement_group by done. unfold createGroup. cbn [childrenOf].
    rewrite bool_decide_eq_false_2
      by (rewrite length_app; cbn [length]; lia).
    rewrite forOf_app. unfold bind at 1.
    change (forOf _ before h)
      with (forOf (fun c => createElement (place c) imageData scale) before h).
    rewrite Hbefore. cbn [forOf]. unfold bind at 1.
    change (createElement _ imageData scale hBefore)
      with (createElement (place child) imageData scale hBefore).
    by rewrite Hchild. }
  split; [done|]. rewrite createElements_cons, Hrun. done.
Qed.

End ElementLists.

(** ** Images: the drawn image and the named placeholders *)

Section ImageMore.
Context `{Platform}.

Lemma startsWith_app p s : startsWith p (p ++ s) = true.
Proof.
  induction p as [|a p IH]; [done|]. cbn [app startsWith].
  by rewrite bool_decide_eq_true_2, IH.
Qed.

Lemma takeUntil_app c mime rest :
  c ∉ mime → takeUntil c (mime ++ c :: rest) = mime.
Proof.
  induction mime as [|a mime IH]; intros Hc; cbn [app takeUntil].
  - by rewrite bool_decide_eq_true_2.
  - rewrite not_elem_of_cons in Hc. destruct Hc as [Hne Hc].
    rewrite bool_decide_eq_false_2 by done. by rewrite IH.
Qed.

(** The pattern of the image materializer takes a well-formed data URL
    apart into exactly its media type and its payload. *)
Lemma matchDataUrl_wellformed mime payload :
  mime ≠ [] → 59%N ∉ mime →
  payload ≠ [] → Forall (fun c => isLineTerminator c = false) payload →
  matchDataUrl (js "data:" ++ mime ++ js ";base64," ++ payload)
  = Some (mime, payload).
Proof.
  intros Hmime Hsemi Hpayload Hline.
  assert (Hrun : takeUntil 59 (mime ++ js ";base64," ++ payload) = mime).
  { change (js ";base64," ++ payload) with (59%N :: js "base64," ++ payload).
    by apply takeUntil_app. }
  unfold matchDataUrl. rewrite startsWith_app.
  change (drop 5 (js "data:" ++ mime ++ js ";base64," ++ payload))
    with (mime ++ js ";base64," ++ payload).
  cbv zeta. rewrite !Hrun, !drop_app_length, startsWith_app.
  change (drop 8 (js ";base64," ++ payload)) with payload.
  rewrite (proj2 (truthy_nonempty mime) Hmime),
    (proj2 (truthy_nonempty payload) Hpayload).
  cbn [andb].
  assert (Hall : forallb (fun c => negb (isLineTerminator c)) payload = true).
  { apply forallb_forall. intros c Hc.
    rewrite Forall_forall in Hline. rewrite Hline; [done|].
    by apply list_elem_of_In. }
  by rewrite Hall.
Qed.

(** X13. An image whose entry in the image data is a well-formed data URL
    that the host decodes and accepts is drawn as exactly one
    rectangle named [Image], at the element's scaled position and with
    its effective size, filled with the image in mode [FILL] and
    rotated against the element's rotation; nothing is logged, and the
    media type plays no part. *)
Theorem createImage_draws_wellformed_data_url
    fields children imageData scale h imageUrl mime payload bytes imageHash :
  el_type fields = js "image" →
  el_imageUrl fields = Some imageUrl →
  imageUrl ≠ [] →
  imageData !! imageUrl = Some (js "data:" ++ mime ++ js ";base64," ++ payload) →
  mime ≠ [] → 59%N ∉ mime →
  payload ≠ [] → Forall (fun c => isLineTerminator c = false) payload →
  base64Decode payload = Some bytes →
  createImageHash bytes = Some imageHash →
  ∃ node,
    createElement (Element fields children) imageData scale h
    = (hostAfter h [RECTANGLE] [] [node], Return tt)
    ∧ nodeType node = RECTANGLE
    ∧ nodeName node = Some (js "Image")
    ∧ nodeFills node = Some [IMAGE imageHash (js "FILL")]
    ∧ nodeBox node
      = Some (el_x fields * scale, el_y fields * scale,
              effectiveWidth fields scale, effectiveHeight fields scale)
    ∧ nodeRotation node
      = (if bool_decide (el_rotation fields = 0) then None
         else Some (- el_rotation fields)).
Proof.
  intros Ht Hurl Hkey Hdata Hmime Hsemi Hpayload Hline Hdecode Hhash.
  rewrite createElement_image by done.
  assert (Huse : usableImage imageData imageUrl = Some imageHash).
  { unfold usableImage. rewrite Hdata.
    rewrite matchDataUrl_wellformed by done. rewrite Hdecode, Hhash.
    by destruct mime. }
  rewrite (createImage_usable _ _ _ _ _ _ _ _ _ Hurl Hkey Huse).
  eexists. split; [reflexivity|].
  unfold imageRectangle, nodeName, nodeFills, nodeBox, nodeX, nodeY, nodeSize,
    nodeRotation, lastWrite, rotationWrites.
  cbn [nodeType nodeProps]. by destruct (bool_decide (el_rotation fields = 0)).
Qed.

(** X14. The placeholder says what went wrong.  When the lookup of the
    key in the image data finds nothing, neither an entry nor an
    inherited member, or finds an empty entry, the placeholder is
    named [Image (failed to load)] and nothing is logged; in every
    other case it is named [Image (error)] and exactly one console
    entry carries the cause: the type error of calling [match] on an
    inherited member when the key names one and has no entry, the
    fixed error [Invalid base64 data] when the entry is not a data
    URL, and otherwise the failure of the decoder or of the image
    constructor. *)
Theorem createImage_placeholder_names_the_failure
    fields children imageData scale h imageUrl :
  el_type fields = js "image" →
  el_imageUrl fields = Some imageUrl →
  imageUrl ≠ [] →
  usableImage imageData imageUrl = None →
  let box := placeholder (el_x fields * scale) (el_y fields * scale)
                         (effectiveWidth fields scale)
                         (effectiveHeight fields scale) in
  let run := createElement (Element fields children) imageData scale h in
  match getMember imageData imageUrl with
  | None | Some (Str []) =>
      run = (hostAfter h [RECTANGLE] [] [box (js "Image (failed to load)")],
             Return tt)
  | Some (Proto _) =>
      imageData !! imageUrl = None
      ∧ inherits imageUrl = true
      ∧ run = (hostAfter h [RECTANGLE]
                 [ConsoleError (js "Failed to create image:")
                               (TypeError (js "base64Data.match"))]
                 [box (js "Image (error)")],
               Return tt)
  | Some (Str base64Data) =>
      ∃ err,
        imageData !! imageUrl = Some base64Data
        ∧ run = (hostAfter h [RECTANGLE]
                   [ConsoleError (js "Failed to create image:") err]
                   [box (js "Image (error)")],
                 Return tt)
        ∧ match matchDataUrl base64Data with
          | None => err = Error (js "Invalid base64 data")
          | Some (_, base64Content) =>
              match base64Decode base64Content with
              | None => err = HostError (js "base64Decode")
              | Some _ => err = HostError (js "createImage")
              end
          end
  end.
Proof.
  intros Ht Hurl Hkey Huse box run. subst run.
  rewrite createElement_image by done. fold box.
  unfold createImage. rewrite Hurl.
  rewrite (proj2 (truthy_nonempty imageUrl) Hkey). cbn [negb].
  unfold usableImage in Huse. unfold getMember.
  destruct (imageData !! imageUrl) as [[|c d]|].
  - run. by rewrite app_nil_r.
  - cbn [truthy negb] in Huse |- *.
    destruct (matchDataUrl (c :: d)) as [[mime payload]|].
    + destruct (base64Decode payload) as [bytes|].
      * eexists. split; [done|]. split; [|reflexivity]. run. rewrite Huse. by run.
      * eexists. split; [done|]. split; [|reflexivity]. by run.
    + eexists. split; [done|]. split; [|reflexivity]. by run.
  - destruct (inherits imageUrl).
    + split; [done|]. split; [done|]. by run.
    + run. by rewrite app_nil_r.
Qed.

End ImageMore.

(** ** A shape whose text cannot be set *)

Section ShapeTextFailure.
Context `{Platform}.

Lemma loadFont_fails fontFamily fontWeight isItalic h :
  (∀ i, ¬ loadsAt (fontLog h) (ladder fontFamily fontWeight isItalic) i) →
  loadFont fontFamily fontWeight isItalic h
  = (with_fontLog (fontLog h ++ ladder fontFamily fontWeight isItalic) h,
     Throw (FontLoadError arialRegular)).
Proof.
  intros Hnone. rewrite loadFont_climb.
  destruct (climb_spec (fontLog h) (ladder fontFamily fontWeight isItalic))
    as (n & Hn & Hlog & _ & Hres).
  destruct (climb (fontLog h) (ladder fontFamily fontWeight isItalic)).2 as [f|].
  - destruct Hres as (_ & Hl & _). by destruct (Hnone _ Hl).
  - destruct Hres as [-> _]. by rewrite Hlog, firstn_all.
Qed.

(** [createShape] is the shape node, then the text on the host that
    has the shape. *)
Lemma createShape_then_text fields x y width height scale h :
  ∃ shape,
    (nodeType shape = RECTANGLE ∨ nodeType shape = ELLIPSE)
    ∧ createShape fields x y width height scale h
      = match el_text fields with
        | Some text =>
            if bool_decide (0 < length (runs text))%nat
            then createTextForShape fields x y width height scale
            else ret tt
        | None => ret tt
        end (with_parent (parent h ++ [shape])
                         (with_created (created h ++ [nodeType shape]) h)).
Proof.
  unfold createShape.
  destruct (bool_decide (_ = js "ELLIPSE"));
    [|destruct (bool_decide (_ = js "ROUND_RECTANGLE"))];
    (eexists (Node _ _ []); split; [|unfold bind, figmaCreate, appendChild, ret;
                      cbn [fst snd nodeType]; reflexivity]);
    cbn [nodeType]; first [by left | by right].
Qed.

(** X15. When no font at all can be loaded for the first run of a shape's
    text, the element fails with the failed load of Arial Regular, but
    the shape itself is already in the container and stays there: the
    text node was created and is never appended. *)
Theorem createShape_keeps_shape_when_text_font_is_missing
    fields children imageData scale h text firstRun others :
  el_type fields = js "shape" →
  el_text fields = Some text →
  runs text = firstRun :: others →
  trim (fullTextOf (runs text)) ≠ [] →
  (∀ i, ¬ loadsAt (fontLog h)
                  (ladder (run_fontFamily firstRun) (run_fontWeight firstRun)
                          (bool_decide (run_fontStyle firstRun = js "italic"))) i) →
  ∃ shape h',
    createElement (Element fields children) imageData scale h
    = (h', Throw (FontLoadError arialRegular))
    ∧ parent h' = parent h ++ [shape]
    ∧ (nodeType shape = RECTANGLE ∨ nodeType shape = ELLIPSE)
    ∧ created h' = created h ++ [nodeType shape; TEXT]
    ∧ console h' = console h.
Proof.
  intros Ht Htext Hruns Hink Hnone. rewrite createElement_shape by done.
  destruct (createShape_then_text fields (el_x fields * scale) (el_y fields * scale)
              (effectiveWidth fields scale) (effectiveHeight fields scale) scale h)
    as (shape & Hkind & ->).
  rewrite Htext, Hruns. cbn [length].
  rewrite (bool_decide_eq_true_2 (0 < S (length others))%nat) by lia.
  unfold createTextForShape. rewrite Htext. rewrite Hruns in Hink |- *.
  rewrite (proj2 (truthy_nonempty _) Hink). cbn [negb].
  unfold bind at 1, figmaCreate at 1. unfold bind at 1.
  rewrite loadFont_fails by done.
  eexists shape, _. split; [reflexivity|].
  cbn [parent created console with_fontLog with_created with_parent].
  split; [done|]. split; [done|]. split; [|done].
  by rewrite <- app_assoc.
Qed.

End ShapeTextFailure.

(** ** The orchestrator: layout, fit and the message handler *)

Section OrchestratorMore.
Context `{Platform}.

Lemma slideLoop_keeps_parent totalSlides imageData scale rest :
  ∀ i frames h,
    parent (slideLoop totalSlides i rest frames imageData scale h).1 = parent h.
Proof.
  induction rest as [|slide rest IH]; intros i frames h; [done|].
  cbn [slideLoop]. unfold bind at 1, postMessage at 1.
  unfold bind at 1, figmaCreate at 1. unfold bind at 1.
  set (h1 := with_created _ _).
  destruct (fillContainer_createElements (elements slide) imageData scale h1)
    as (content & h2 & -> & _ & _ & _ & _ & Hpar).
  unfold bind at 1, appendToPage at 1. rewrite IH. cbn [parent with_page].
  by rewrite Hpar.
Qed.

(** What an import of at least one slide leaves behind. *)
Lemma importPresentation_run presentation imageData h :
  slides presentation ≠ [] →
  let n := length (slides presentation) in
  ∃ contents h',
    importPresentation presentation imageData h = (h', Return tt)
    ∧ length contents = n
    ∧ ui h' = ui h ++ (progressEvent n <$> seq 0 n) ++ [MsgComplete n]
    ∧ page h' = page h ++ slideFrames 0 contents
    ∧ selection h' = slideFrames 0 contents
    ∧ viewport h' = viewport h ++ [slideFrames 0 contents]
    ∧ parent h' = parent h.
Proof.
  intros Hs n. unfold importPresentation. fold n.
  rewrite (bool_decide_eq_false_2 (n = 0%nat))
    by (unfold n; by destruct (slides presentation)).
  unfold bind at 1, consoleWrite at 1. unfold bind at 1.
  set (h0 := with_console _ h).
  destruct (slideLoop_spec n imageData (fitScale presentation)
              (slides presentation) 0%nat [] h0)
    as (contents & h1 & Hrun & Hlen & Hu & Hp & Hsel & Hv).
  rewrite Hrun. exists contents. eexists. split; [reflexivity|].
  unfold bind, setSelection, scrollAndZoomIntoView, postMessage.
  cbn [fst snd ui page selection viewport parent with_selection with_viewport
       with_ui app].
  rewrite Hu, Hp, Hv. unfold h0. cbn [ui page viewport with_console]. fold n.
  repeat split; try done.
  - by rewrite <- app_assoc.
  - pose proof (slideLoop_keeps_parent n imageData (fitScale presentation)
                  (slides presentation) 0%nat [] h0) as Hparent.
    by rewrite Hrun in Hparent.
Qed.

Lemma slideFrames_lookup i contents k frame :
  slideFrames i contents !! k = Some frame →
  ∃ content, contents !! k = Some content ∧ frame = slideFrame (i + k) content.
Proof.
  unfold slideFrames. intros Hk.
  apply lookup_zip_with_Some in Hk as (j & content & -> & Hj & Hc).
  apply lookup_seq in Hj as [-> _]. by exists content.
Qed.

(** X16. The frames of an import stand side by side without touching: frame
    [k] is named [Slide k+1], is 1920 by 1080 and white whatever the
    page size of the presentation, and sits at [x = k * 2020], [y = 0];
    the viewport is scrolled once, to exactly these frames, and the
    container the plugin was given is left as it was. *)
Theorem importPresentation_lays_frames_side_by_side presentation imageData h :
  slides presentation ≠ [] →
  ∃ frames h',
    importPresentation presentation imageData h = (h', Return tt)
    ∧ page h' = page h ++ frames
    ∧ length frames = length (slides presentation)
    ∧ viewport h' = viewport h ++ [frames]
    ∧ parent h' = parent h
    ∧ ∀ k frame,
        frames !! k = Some frame →
        nodeType frame = FRAME
        ∧ nodeName frame = Some (js "Slide " ++ js_nat (k + 1))
        ∧ nodeBox frame
          = Some (Qc_of_nat k * Qc_of_Z 2020, 0, Qc_of_Z 1920, Qc_of_Z 1080)
        ∧ nodeFills frame = Some [SOLID white].
Proof.
  intros Hs.
  destruct (importPresentation_run presentation imageData h Hs)
    as (contents & h' & Hrun & Hlen & _ & Hp & _ & Hv & Hpar).
  exists (slideFrames 0 contents), h'.
  split; [done|]. split; [done|].
  split; [by rewrite slideFrames_length|]. split; [done|]. split; [done|].
  intros k frame Hk. apply slideFrames_lookup in Hk as (content & _ & ->).
  cbn [Nat.add]. unfold slideFrame, nodeName, nodeBox, nodeX, nodeY, nodeSize,
    nodeFills, lastWrite.
  cbn [nodeType nodeProps omap last]. repeat split.
Qed.

(** X18. The handler of UI messages.  An import message runs the import and
    never takes the failure branch: with at least one slide the UI
    receives the progress events and one completion event and no error
    event, with no slide it receives the one error event of the import
    itself; the plugin stays open.  A cancel message closes the plugin
    and does nothing else, and a message of any other type is ignored. *)
Theorem onmessage_routes_by_type messageOf msg p :
  let n := length (slides (msg_presentation msg)) in
  let after := onmessage messageOf msg p in
  after.2 = Return tt
  ∧ (msg_type msg = js "import-slides" →
     after.1 = {| plugin_host :=
                    (importPresentation (msg_presentation msg) (msg_imageData msg)
                                        (plugin_host p)).1;
                  plugin_closed := plugin_closed p |}
     ∧ ∃ events,
         ui (plugin_host after.1) = ui (plugin_host p) ++ events
         ∧ List.filter isErrorEvent events
           = (if bool_decide (n = 0%nat)
              then [MsgError (js "No slides found in presentation")] else [])
         ∧ (n ≠ 0%nat → last events = Some (MsgComplete n)))
  ∧ (msg_type msg = js "cancel" →
     after.1 = {| plugin_host := plugin_host p; plugin_closed := true |})
  ∧ (msg_type msg ≠ js "import-slides" → msg_type msg ≠ js "cancel" →
     after.1 = p).
Proof.
  intros n after. subst after. unfold onmessage.
  assert (Hrun : ∃ h' events,
             importPresentation (msg_presentation msg) (msg_imageData msg)
                                (plugin_host p) = (h', Return tt)
             ∧ ui h' = ui (plugin_host p) ++ events
             ∧ List.filter isErrorEvent events
               = (if bool_decide (n = 0%nat)
                  then [MsgError (js "No slides found in presentation")] else [])
             ∧ (n ≠ 0%nat → last events = Some (MsgComplete n))).
  { destruct (slides (msg_presentation msg)) as [|slide rest] eqn:Hslides.
    - unfold importPresentation. rewrite Hslides. cbn [length bool_decide].
      rewrite bool_decide_eq_true_2 by done.
      eexists _, [_]. split; [reflexivity|]. split; [done|].
      subst n. by rewrite bool_decide_eq_true_2.
    - destruct (importPresentation_run (msg_presentation msg) (msg_imageData msg)
                  (plugin_host p)) as (contents & h' & Hrun & _ & Hu & _).
      { by rewrite Hslides. }
      rewrite Hslides in Hu. fold n in Hu.
      exists h', ((progressEvent n <$> seq 0 n) ++ [MsgComplete n]).
      split; [done|]. split; [done|].
      rewrite (bool_decide_eq_false_2 (n = 0%nat)) by done.
      split; [|intros _; by rewrite last_snoc].
      rewrite List.filter_app. cbn [List.filter isErrorEvent app].
      rewrite app_nil_r. generalize (seq 0 n). intros indices.
      induction indices as [|i indices IH]; [done|]. done. }
  destruct Hrun as (h' & events & Hrun & Hu & Herr & Hlast).
  unfold tryCatch. rewrite Hrun. cbn [fst snd].
  destruct (decide (msg_type msg = js "import-slides")) as [Himport|Himport];
    [|destruct (decide (msg_type msg = js "cancel")) as [Hcancel|Hcancel]].
  - rewrite (bool_decide_eq_true_2 _ Himport). cbn [fst snd plugin_host].
    split; [done|]. split; [|split].
    + intros _. split; [done|]. by exists events.
    + intros Hc. rewrite Hc in Himport. by vm_compute in Himport.
    + done.
  - rewrite (bool_decide_eq_false_2 _ Himport), (bool_decide_eq_true_2 _ Hcancel).
    cbn [fst snd]. split; [done|]. split; [done|]. split; done.
  - rewrite (bool_decide_eq_false_2 _ Himport), (bool_decide_eq_false_2 _ Hcancel).
    cbn [fst snd]. split; [done|]. split; [done|]. split; done.
Qed.

End OrchestratorMore.

(** ** A shape and its text *)

Section ShapeWithText.
Context `{Platform}.

Lemma createShape_shape_then_text fields x y width height scale h :
  ∃ shape,
    (nodeType shape = RECTANGLE ∨ nodeType shape = ELLIPSE)
    ∧ nodeBox shape = Some (x, y, width, height)
    ∧ nodeRotation shape
      = (if bool_decide (el_rotation fields = 0) then None
         else Some (- el_rotation fields))
    ∧ createShape fields x y width height scale h
      = match el_text fields with
        | Some text =>
            if bool_decide (0 < length (runs text))%nat
            then createTextForShape fields x y width height scale
            else ret tt
        | None => ret tt
        end (with_parent (parent h ++ [shape])
                         (with_created (created h ++ [nodeType shape]) h)).
Proof.
  unfold createShape.
  destruct (bool_decide (_ = js "ELLIPSE"));
    [|destruct (bool_decide (_ = js "ROUND_RECTANGLE"))];
    (eexists (Node _ _ []); split; [|split; [|split]]; cycle 3;
     [unfold bind, figmaCreate, appendChild, ret; cbn [fst snd nodeType];
      reflexivity
     |cbn [nodeType]; first [by left | by right]
     |unfold nodeBox, nodeX, nodeY, nodeSize, lastWrite, rotationWrites
     |unfold nodeRotation, lastWrite, rotationWrites]).
  all: cbn [fst snd nodeType nodeProps]; rewrite !omap_app;
    destruct (el_strokeColor fields), (el_strokeWeight fields);
    repeat case_bool_decide; done.
Qed.

(** X19. A shape with visible text whose first-run font resolves becomes
    exactly two nodes, the shape and then its text, so the text lies
    on top of the shape: the shape has the element's scaled box, the
    text carries the concatenated runs, sits inside the shape's box
    inset by [4 * scale] on every side, and is rotated exactly as the
    shape is. *)
Theorem createShape_puts_text_on_top_of_its_shape
    fields children imageData scale h text firstRun others i :
  el_type fields = js "shape" →
  el_text fields = Some text →
  runs text = firstRun :: others →
  trim (fullTextOf (runs text)) ≠ [] →
  loadsAt (fontLog h)
          (ladder (run_fontFamily firstRun) (run_fontWeight firstRun)
                  (bool_decide (run_fontStyle firstRun = js "italic"))) i →
  let x := el_x fields * scale in
  let y := el_y fields * scale in
  let width := effectiveWidth fields scale in
  let height := effectiveHeight fields scale in
  ∃ shape textNode h',
    createElement (Element fields children) imageData scale h = (h', Return tt)
    ∧ parent h' = parent h ++ [shape; textNode]
    ∧ created h' = created h ++ [nodeType shape; TEXT]
    ∧ (nodeType shape = RECTANGLE ∨ nodeType shape = ELLIPSE)
    ∧ nodeBox shape = Some (x, y, width, height)
    ∧ nodeType textNode = TEXT
    ∧ nodeCharacters textNode = Some (fullTextOf (runs text))
    ∧ nodeBox textNode
      = Some (x + Qc_of_Z 4 * scale, y + Qc_of_Z 4 * scale,
              Math_max 1 (width - Qc_of_Z 4 * scale * 2),
              Math_max 1 (height - Qc_of_Z 4 * scale * 2))
    ∧ nodeRotation textNode = nodeRotation shape.
Proof.
  intros Ht Htext Hruns Hink Hfont x y width height.
  rewrite createElement_shape by done. fold x y width height.
  destruct (createShape_shape_then_text fields x y width height scale h)
    as (shape & Hkind & Hbox & Hrot & ->).
  rewrite Htext, Hruns. cbn [length].
  rewrite (bool_decide_eq_true_2 (0 < S (length others))%nat) by lia.
  set (h1 := with_parent _ _).
  destruct (createTextForShape_text_node fields text firstRun others x y width
              height scale h1 i Htext Hruns Hink Hfont)
    as (textNode & h' & Hrun & Hp & Hc & Hty & Hchars & Htbox & _ & _ & Htrot).
  exists shape, textNode, h'. rewrite Hrun, Hp, Hc, Hrot, Htrot.
  unfold h1. cbn [parent created with_parent with_created].
  rewrite Hruns in Hchars. rewrite <- !app_assoc. done.
Qed.

End ShapeWithText.


(** ** What each frame holds *)

Section FrameContents.
Context `{Platform}.

Lemma slideLoop_contents totalSlides imageData scale rest :
  ∀ i frames h,
  ∃ contents h',
    slideLoop totalSlides i rest frames imageData scale h
    = (h', Return (frames ++ slideFrames i contents))
    ∧ page h' = page h ++ slideFrames i contents
    ∧ Forall2 (fun slide content =>
                 ∃ hk, parent hk = []
                       ∧ content
                         = parent (createElements (elements slide) imageData
                                                  scale hk).1)
              rest contents.
Proof.
  induction rest as [|slide rest IH]; intros i frames h.
  - exists [], h. cbn [slideLoop]. unfold slideFrames. cbn.
    rewrite !app_nil_r. by repeat split.
  - cbn [slideLoop]. unfold bind at 1, postMessage at 1.
    unfold bind at 1, figmaCreate at 1. unfold bind at 1.
    set (h0 := with_created _ _).
    pose proof (createElements_returns (elements slide) imageData scale
                  (with_parent [] h0)) as Hret.
    destruct (sceneOnly_createElements (elements slide) imageData scale
                (with_parent [] h0)) as (_ & Hpage & _).
    unfold fillContainer.
    destruct (createElements (elements slide) imageData scale (with_parent [] h0))
      as [h1 o] eqn:Hrun. cbn [fst snd] in Hret, Hpage. subst o.
    unfold bind at 1, appendToPage at 1.
    set (h2 := with_page _ _).
    destruct (IH (S i) (frames ++ [slideFrame i (parent h1)]) h2)
      as (contents & h' & -> & Hp & Hall).
    exists (parent h1 :: contents), h'.
    assert (Hframes : slideFrames i (parent h1 :: contents)
                      = slideFrame i (parent h1) :: slideFrames (S i) contents)
      by done.
    rewrite Hframes. split; [by rewrite <- app_assoc|]. split.
    + rewrite Hp. unfold h2. cbn [page with_page with_parent]. rewrite Hpage.
      unfold h0. cbn [page with_parent with_created with_ui].
      by rewrite <- app_assoc.
    + constructor; [|done]. exists (with_parent [] h0). split; [done|].
      by rewrite Hrun.
Qed.

Lemma slideFrames_children {A} (R : A → list SceneNode → Prop) items contents i :
  Forall2 R items contents →
  Forall2 (fun item frame => R item (nodeChildren frame)) items
          (slideFrames i contents).
Proof.
  intros Hall. revert i. unfold slideFrames.
  induction Hall as [|item content items contents Hc _ IH]; intros i;
    [constructor|].
  cbn [length seq zip_with]. constructor; [exact Hc|apply IH].
Qed.

(** X20. Every frame is filled from its own slide and from nothing else:
    the children of the frame of slide [k] are exactly the nodes that
    materializing the elements of slide [k], at the fit scale of the
    presentation, appends to an empty container. *)
Theorem importPresentation_fills_each_frame_from_its_own_slide
    presentation imageData h :
  slides presentation ≠ [] →
  ∃ frames h',
    importPresentation presentation imageData h = (h', Return tt)
    ∧ page h' = page h ++ frames
    ∧ Forall2 (fun slide frame =>
                 ∃ hk, parent hk = []
                       ∧ nodeChildren frame
                         = parent (createElements (elements slide) imageData
                                     (fitScale presentation) hk).1)
              (slides presentation) frames.
Proof.
  intros Hs. unfold importPresentation.
  rewrite (bool_decide_eq_false_2 (length (slides presentation) = 0%nat))
    by (by destruct (slides presentation)).
  unfold bind at 1, consoleWrite at 1. unfold bind at 1.
  set (h0 := with_console _ h).
  destruct (slideLoop_contents (length (slides presentation)) imageData
              (fitScale presentation) (slides presentation) 0%nat [] h0)
    as (contents & h1 & -> & Hp & Hall).
  exists (slideFrames 0 contents). eexists. split; [reflexivity|].
  unfold bind, setSelection, scrollAndZoomIntoView, postMessage.
  cbn [fst snd page with_selection with_viewport with_ui app].
  split; [by rewrite Hp|].
  exact (slideFrames_children _ _ _ 0%nat Hall).
Qed.

End FrameContents.


(** ** Every created node is accounted for *)

Section NodeBooks.
Context `{Platform}.

Lemma booksAfter_refl h : booksAfter h h [] [].
Proof. unfold booksAfter. cbn [flat_map]. by rewrite !app_nil_r. Qed.

Lemma booksAfter_trans h h1 h2 new1 new2 orphans :
  booksAfter h h1 new1 [] → booksAfter h1 h2 new2 orphans →
  booksAfter h h2 (new1 ++ new2) orphans.
Proof.
  intros [Hp1 Hc1] [Hp2 Hc2]. unfold booksAfter.
  rewrite Hp2, Hp1, Hc2, Hc1, flat_map_app, app_nil_r.
  by rewrite <- !app_assoc.
Qed.

Lemma accounted_ret : accounted (ret tt).
Proof. intros h. exists []. apply booksAfter_refl. Qed.

Lemma accounted_then (m : M unit) (k : M unit) :
  accounted m → accounted k → accounted (m >> k).
Proof.
  intros Hm Hk h. unfold bind. destruct (Hm h) as [new1 H1].
  destruct (m h) as [h1 [[]|e]]; cbn [fst snd] in H1 |- *.
  - destruct (Hk h1) as [new2 H2]. exists (new1 ++ new2).
    destruct (k h1) as [h2 [[]|e]]; cbn [fst snd] in H2 |- *.
    + by apply (booksAfter_trans h h1 h2).
    + destruct H2 as (orphan & Ho & H2). exists orphan. split; [done|].
      by apply (booksAfter_trans h h1 h2).
  - by exists new1.
Qed.

Lemma accounted_forOf {A} (f : A → M unit) (l : list A) :
  Forall (fun a => accounted (f a)) l → accounted (forOf f l).
Proof.
  induction 1 as [|a l Ha _ IH]; cbn [forOf]; [apply accounted_ret|].
  by apply accounted_then.
Qed.

Lemma typesOf_childless (l : list SceneNode) :
  Forall (fun n => nodeChildren n = []) l → flat_map typesOf l = nodeType <$> l.
Proof.
  induction 1 as [|[t props children] l Hn _ IH]; [done|].
  cbn [nodeChildren] in Hn. subst children. cbn [flat_map typesOf fmap list_fmap app].
  by rewrite IH.
Qed.

Lemma tableCells_childless rows fontName rc cc cw ch padding scale :
  Forall (fun n => nodeChildren n = [])
         (tableCells rows fontName rc cc cw ch padding scale).
Proof.
  unfold tableCells. apply Forall_forall. intros node Hin.
  apply list_elem_of_In, in_flat_map in Hin. destruct Hin as (r & _ & Hin).
  apply in_flat_map in Hin. destruct Hin as (c & _ & Hin).
  unfold cellNodes in Hin. destruct Hin as [<-|Hin]; [done|].
  destruct (truthy _); [|done]. destruct Hin as [<-|[]]. done.
Qed.

(** One childless node created and appended, and nothing else. *)
Lemma booksAfter_one h h' node :
  nodeChildren node = [] →
  parent h' = parent h ++ [node] →
  created h' = created h ++ [nodeType node] →
  booksAfter h h' [node] [].
Proof.
  intros Hn Hp Hc. unfold booksAfter. rewrite Hp, Hc.
  destruct node as [t props children]. cbn [nodeChildren] in Hn. subst children.
  done.
Qed.

Ltac one_node :=
  eexists [_]; apply booksAfter_one; [|reflexivity|]; reflexivity.

Lemma accounted_createLine fields x y width height :
  accounted (createLine fields x y width height).
Proof.
  intros h. unfold createLine, bind, figmaCreate, appendChild. cbn [fst snd].
  one_node.
Qed.

Lemma accounted_createImage fields x y width height imageData :
  accounted (createImage fields x y width height imageData).
Proof.
  intros h. destruct (el_imageUrl fields) as [[|c imageUrl]|] eqn:Hurl.
  - rewrite createImage_no_url by (by right). exists []. apply booksAfter_refl.
  - destruct (usableImage imageData (c :: imageUrl)) as [imageHash|] eqn:Huse.
    + rewrite (createImage_usable _ _ _ _ _ _ _ _ _ Hurl ltac:(done) Huse).
      cbn [fst snd]. one_node.
    + destruct (createImage_unusable fields x y width height imageData h
                  (c :: imageUrl) Hurl ltac:(done) Huse) as (name & entries & ->).
      cbn [fst snd]. one_node.
  - rewrite createImage_no_url by (by left). exists []. apply booksAfter_refl.
Qed.

Lemma accounted_createTable fields x y width height scale :
  accounted (createTable fields x y width height scale).
Proof.
  intros h. unfold createTable.
  destruct (bool_decide _ || bool_decide _);
    [exists []; apply booksAfter_refl|].
  unfold bind, figmaCreate. rewrite loadFont_climb.
  destruct (climb _ _).2 as [fontName|]; cbn [fst snd].
  - rewrite forOf_figmaCreate. unfold appendChild.
    cbn [fst snd]. eexists [_]. unfold booksAfter.
    cbn [parent created with_parent with_created with_fontLog flat_map typesOf].
    split; [reflexivity|]. cbn [typesOf].
    rewrite (typesOf_childless _ (tableCells_childless _ _ _ _ _ _ _ _)).
    rewrite !app_nil_r. by rewrite <- app_assoc.
  - exists []. exists FRAME. split; [by left|]. unfold booksAfter.
    cbn [parent created with_parent with_created with_fontLog flat_map app].
    by rewrite app_nil_r.
Qed.

Lemma accounted_createTextForShape fields x y width height scale :
  accounted (createTextForShape fields x y width height scale).
Proof.
  intros h. unfold createTextForShape.
  destruct (el_text fields) as [text|]; [|exists []; apply booksAfter_refl].
  destruct (runs text) as [|firstRun others] eqn:Hruns;
    [exists []; apply booksAfter_refl|].
  destruct (truthy (trim _)); cbn [negb]; [|exists []; apply booksAfter_refl].
  unfold bind, figmaCreate. rewrite loadFont_climb.
  destruct (climb _ _).2 as [defaultFont|]; cbn [fst snd].
  - set (h1 := with_fontLog _ _). set (props0 := [SetFontName defaultFont; _; _]).
    destruct (styleRuns_accounting scale (firstRun :: others) 0 props0 h1)
      as (added & entries & h2 & Hrun & _ & Hp & Hcr & _).
    rewrite Hrun. unfold appendChild. cbn [fst snd].
    eexists [_]. apply booksAfter_one;
      [|cbn [parent with_parent]; rewrite Hp; reflexivity|]; [reflexivity|].
    cbn [parent created with_parent nodeType]. by rewrite Hcr.
  - exists []. exists TEXT. split; [by right|]. unfold booksAfter.
    cbn [parent created with_parent with_created with_fontLog flat_map app].
    by rewrite app_nil_r.
Qed.

Lemma createShape_childless_then_text fields x y width height scale h :
  ∃ shape,
    nodeChildren shape = []
    ∧ createShape fields x y width height scale h
      = match el_text fields with
        | Some text =>
            if bool_decide (0 < length (runs text))%nat
            then createTextForShape fields x y width height scale
            else ret tt
        | None => ret tt
        end (with_parent (parent h ++ [shape])
                         (with_created (created h ++ [nodeType shape]) h)).
Proof.
  unfold createShape.
  destruct (bool_decide (_ = js "ELLIPSE"));
    [|destruct (bool_decide (_ = js "ROUND_RECTANGLE"))];
    (eexists (Node _ _ []); split; [done|];
     unfold bind, figmaCreate, appendChild, ret; cbn [fst snd nodeType];
     reflexivity).
Qed.

Lemma accounted_createShape fields x y width height scale :
  accounted (createShape fields x y width height scale).
Proof.
  intros h.
  destruct (createShape_childless_then_text fields x y width height scale h)
    as (shape & Hn & ->).
  set (h1 := with_parent _ _).
  assert (Hshape : booksAfter h h1 [shape] []) by (by apply booksAfter_one).
  assert (Htext : accounted
                    match el_text fields with
                    | Some text =>
                        if bool_decide (0 < length (runs text))%nat
                        then createTextForShape fields x y width height scale
                        else ret tt
                    | None => ret tt
                    end).
  { destruct (el_text fields) as [text|]; [|apply accounted_ret].
    destruct (bool_decide _);
      [apply accounted_createTextForShape|apply accounted_ret]. }
  destruct (Htext h1) as [new Hnew]. exists (shape :: new).
  destruct (_ h1) as [h2 [[]|e]]; cbn [fst snd] in Hnew |- *.
  - by apply (booksAfter_trans h h1 h2 [shape] new).
  - destruct Hnew as (orphan & Ho & Hnew). exists orphan. split; [done|].
    by apply (booksAfter_trans h h1 h2 [shape] new).
Qed.

Lemma accounted_dispatch group fields imageData scale :
  (∀ x y, accounted (group x y)) →
  accounted (dispatch group fields imageData scale).
Proof.
  intros Hgroup. unfold dispatch.
  destruct (bool_decide (el_type fields = js "shape"));
    [apply accounted_createShape|].
  destruct (bool_decide (el_type fields = js "image"));
    [apply accounted_createImage|].
  destruct (bool_decide (el_type fields = js "line"));
    [apply accounted_createLine|].
  destruct (bool_decide (el_type fields = js "table"));
    [apply accounted_createTable|].
  destruct (bool_decide (el_type fields = js "group"));
    [apply Hgroup|apply accounted_ret].
Qed.

Lemma accounted_createElementOn imageData scale node :
  ∀ fields, accounted (createElementOn node fields imageData scale).
Proof.
  induction node as [fields0|fields0 children IH] using SlideElement_nested_ind;
    intros fields; cbn [createElementOn]; apply accounted_dispatch; intros x y.
  - apply accounted_ret.
  - destruct (bool_decide (length children = 0%nat)); [apply accounted_ret|].
    apply accounted_forOf. apply Forall_forall. intros child Hin.
    rewrite Forall_forall in IH. by apply IH.
Qed.

(** X24. No node is lost on success, and exactly one on failure.  When
    [createElement] returns, on any element and however deep its
    groups, the nodes it created are exactly the nodes it appended to
    the container together with their children, in order.  When it
    throws, exactly one node more was created than was appended: the
    frame of the table or the text node whose font could not be
    loaded. *)
Theorem createElement_accounts_for_every_node element imageData scale h :
  let run := createElement element imageData scale h in
  ∃ new,
    parent run.1 = parent h ++ new
    ∧ match run.2 with
      | Return _ => created run.1 = created h ++ flat_map typesOf new
      | Throw _ =>
          ∃ orphan,
            (orphan = FRAME ∨ orphan = TEXT)
            ∧ created run.1 = created h ++ flat_map typesOf new ++ [orphan]
      end.
Proof.
  intros run. subst run. unfold createElement.
  destruct (accounted_createElementOn imageData scale element (fieldsOf element) h)
    as [new Hnew].
  exists new. destruct (createElementOn _ _ _ _ h) as [h' [[]|e]];
    cbn [fst snd] in Hnew |- *.
  - destruct Hnew as [Hp Hc]. split; [done|]. by rewrite Hc, app_nil_r.
  - destruct Hnew as (orphan & Ho & Hp & Hc). split; [done|]. by exists orphan.
Qed.

End NodeBooks.


(** ** The compiled build against the sources *)

Section CompiledBuild.
Context `{Platform}.

Lemma forOf_ext_in {A} (f g : A → M unit) (l : list A) h :
  Forall (fun a => ∀ h', f a h' = g a h') l → forOf f l h = forOf g l h.
Proof.
  intros Hfg. revert h. induction Hfg as [|a l Ha _ IH]; intros h; [done|].
  cbn [forOf]. unfold bind. rewrite Ha. destruct (g a h) as [h' [[]|e]]; [|done].
  apply IH.
Qed.

Lemma compiled_cellNodes rows fontName cellWidth cellHeight row col :
  Compiled.cellNodes rows fontName cellWidth cellHeight row col
  = cellNodes rows fontName cellWidth cellHeight (Qc_of_Z 4 * 1) 1 row col.
Proof.
  unfold Compiled.cellNodes, cellNodes.
  replace (Qc_of_Z 4 * 1) with (Qc_of_Z 4) by ring.
  replace (Qc_of_Z 4 * 2) with (Qc_of_Z 8) by (by apply Qc_is_canon).
  by replace (Math_max 1 1) with (1 : Qc) by (by apply Qc_is_canon).
Qed.

Lemma compiled_createTable fields x y width height h :
  Compiled.createTable fields x y width height h
  = createTable fields x y width height 1 h.
Proof.
  unfold Compiled.createTable, createTable.
  destruct (bool_decide _ || bool_decide _); [done|].
  apply bind_ext; [done|]. intros [] h1.
  apply bind_ext; [apply legacy_loadFont_eq|]. intros fontName h2.
  assert (Hcells :
    flat_map (fun row =>
      flat_map (fun col =>
        Compiled.cellNodes (default [] (el_rows fields)) fontName
          (width / Qc_of_nat match default [] (el_rows fields) with
                             | [] => 0
                             | row0 :: _ => length row0
                             end)
          (height / Qc_of_nat (length (default [] (el_rows fields)))) row col)
        (seq 0 match default [] (el_rows fields) with
               | [] => 0
               | row0 :: _ => length row0
               end))
      (seq 0 (length (default [] (el_rows fields))))
    = tableCells (default [] (el_rows fields)) fontName
        (length (default [] (el_rows fields)))
        match default [] (el_rows fields) with
        | [] => 0%nat
        | row0 :: _ => length row0
        end
        (width / Qc_of_nat match default [] (el_rows fields) with
                           | [] => 0
                           | row0 :: _ => length row0
                           end)
        (height / Qc_of_nat (length (default [] (el_rows fields))))
        (Qc_of_Z 4 * 1) 1).
  { unfold tableCells. apply flat_map_ext. intros row.
    apply flat_map_ext. intros col. apply compiled_cellNodes. }
  cbv zeta. by rewrite Hcells.
Qed.

Lemma compiled_createShape fields x y width height h :
  match el_text fields with
  | Some text => length (runs text) = 0%nat
  | None => True
  end →
  Compiled.createShape fields x y width height h
  = createShape fields x y width height 1 h.
Proof.
  intros Hplain. unfold Compiled.createShape, createShape.
  apply bind_ext; [done|]. intros node h1.
  apply bind_ext; [done|]. intros [] h2.
  destruct (el_text fields) as [text|]; [|done].
  by rewrite Hplain.
Qed.

Lemma compiled_dispatch (g1 g2 : Qc → Qc → M unit) fields imageData h :
  (el_type fields = js "group" → ∀ x y h', g1 x y h' = g2 x y h') →
  (el_type fields = js "shape" →
   match el_text fields with
   | Some text => length (runs text) = 0%nat
   | None => True
   end) →
  Compiled.dispatch g1 fields imageData h = dispatch g2 fields imageData 1 h.
Proof.
  intros Hgroup Hshape. unfold Compiled.dispatch, dispatch.
  unfold effectiveWidth, effectiveHeight. rewrite !Qcmult_1_r.
  case_bool_decide as Hs; [by apply compiled_createShape, Hshape|].
  destruct (bool_decide (el_type fields = js "image")); [done|].
  destruct (bool_decide (el_type fields = js "line")); [done|].
  destruct (bool_decide (el_type fields = js "table"));
    [apply compiled_createTable|].
  case_bool_decide as Hg; [by apply Hgroup|done].
Qed.

Lemma compiled_childFields x y child :
  Compiled.childFields x y child = childFields x y 1 child.
Proof.
  unfold Compiled.childFields, childFields.
  replace (x / 1) with x by (by field). by replace (y / 1) with y by (by field).
Qed.

Lemma textless_group fields children :
  el_type fields = js "group" →
  textless (Element fields (Some children)) = true →
  Forall (fun child => textless child = true) children.
Proof.
  intros Ht Hplain. cbn [textless] in Hplain.
  rewrite bool_decide_eq_true_2 in Hplain by done.
  apply Forall_forall. intros child Hin.
  rewrite forallb_forall in Hplain. by apply Hplain, list_elem_of_In.
Qed.

Lemma textless_shape fields children :
  el_type fields = js "shape" →
  textless (Element fields children) = true →
  match el_text fields with
  | Some text => length (runs text) = 0%nat
  | None => True
  end.
Proof.
  intros Ht Hplain. cbn [textless] in Hplain. rewrite Ht in Hplain.
  change (bool_decide (js "shape" = js "group")) with false in Hplain.
  change (bool_decide (js "shape" = js "shape")) with true in Hplain.
  destruct (el_text fields) as [text|]; [|done].
  by apply bool_decide_eq_true_1 in Hplain.
Qed.

Lemma compiled_createElementOn imageData node :
  textless node = true →
  ∀ fields h,
    el_type fields = el_type (fieldsOf node) →
    el_text fields = el_text (fieldsOf node) →
    Compiled.createElementOn node fields imageData h
    = createElementOn node fields imageData 1 h.
Proof.
  induction node as [fields0|fields0 children IH] using SlideElement_nested_ind;
    intros Hplain fields h Htype Htext; cbn [fieldsOf] in Htype, Htext.
  - cbn [Compiled.createElementOn createElementOn].
    apply compiled_dispatch; [done|].
    intros Hs. rewrite Htext. apply (textless_shape fields0 None); [|done].
    by rewrite <- Htype.
  - cbn [Compiled.createElementOn createElementOn].
    apply compiled_dispatch.
    + intros Hg x y h'. destruct (bool_decide (length children = 0%nat)); [done|].
      rewrite Htype in Hg.
      pose proof (textless_group fields0 children Hg Hplain) as Hchildren.
      apply forOf_ext_in.
      rewrite Forall_forall in IH, Hchildren. apply Forall_forall.
      intros child Hin h''. rewrite compiled_childFields.
      apply IH; [done|by apply Hchildren|by destruct child..].
    + intros Hs. rewrite Htext.
      apply (textless_shape fields0 (Some children)); [|done].
      by rewrite <- Htype.
Qed.

(** X21. The sources at scale 1 are the compiled build, text apart: on
    every list of elements in which no shape carries text runs,
    however nested its groups, the compiled [createElements] and the
    current one at scale 1 leave the same host (the same nodes with
    the same writes in the same order, the same font requests, the
    same console entries) and return alike; the same holds for a
    single element. *)
Theorem compiled_build_is_the_sources_at_scale_one elements imageData h :
  forallb textless elements = true →
  Compiled.createElements elements imageData h
  = createElements elements imageData 1 h
  ∧ Forall (fun element =>
              ∀ h', Compiled.createElement element imageData h'
                    = createElement element imageData 1 h')
           elements.
Proof.
  intros Hplain.
  assert (Hall : Forall (fun element =>
                           ∀ h', Compiled.createElement element imageData h'
                                 = createElement element imageData 1 h')
                        elements).
  { apply Forall_forall. intros element Hin h'.
    rewrite forallb_forall in Hplain.
    unfold Compiled.createElement, createElement.
    apply compiled_createElementOn; [|done..].
    by apply Hplain, list_elem_of_In. }
  split; [|done]. unfold Compiled.createElements, createElements.
  apply forOf_ext_in. apply Forall_forall. intros element Hin h'.
  rewrite Forall_forall in Hall. unfold tryCatch. by rewrite (Hall element Hin).
Qed.

End CompiledBuild.


(** ** The sign-in worker hands each token over once *)

Section WorkerFacts.
Context `{Worker.Google}.

Lemma str_or_truthy (s : list N) : s ≠ [] → Worker.str_or (Some s) [] = s.
Proof. by destruct s. Qed.

(** A poll for a session, on a worker that has a store. *)
Lemma fetch_poll sessionId env kv now :
  sessionId ≠ [] →
  Worker.TOKEN_STORE env = Some kv →
  Worker.fetch (Worker.poll sessionId) env now
  = match Worker.kvGet kv now sessionId with
    | Some token =>
        if truthy token
        then (Worker.handedOver token, Some (Worker.kvDelete kv sessionId))
        else (Worker.pending, Some kv)
    | None => (Worker.pending, Some kv)
    end.
Proof.
  intros Hs Hstore. unfold Worker.fetch, Worker.poll.
  cbn [Worker.req_method Worker.req_pathname Worker.req_searchParams].
  decide_tags. cbn [Worker.get]. decide_tags.
  rewrite str_or_truthy by done.
  rewrite (proj2 (truthy_nonempty sessionId) Hs). cbn [negb]. by rewrite Hstore.
Qed.

(** A callback whose code Google exchanges for a token. *)
Lemma fetch_callback_grants request env kv code sessionId token now :
  Worker.req_method request ≠ js "OPTIONS" →
  Worker.req_pathname request = js "/callback" →
  Worker.str_or (Worker.get (Worker.req_searchParams request) (js "error")) [] = [] →
  Worker.str_or (Worker.get (Worker.req_searchParams request) (js "code")) [] = code →
  code ≠ [] →
  Worker.sessionOf request = sessionId →
  Worker.TOKEN_STORE env = Some kv →
  Worker.exchange code (Worker.GOOGLE_CLIENT_ID env) (Worker.GOOGLE_CLIENT_SECRET env)
                  (Worker.req_origin request ++ js "/callback")
  = Worker.ExchangeGrants token →
  Worker.fetch request env now
  = (Worker.Reply 200 Worker.htmlHeaders
       (Worker.BodyHtml (Worker.SuccessPage token)),
     if truthy sessionId
     then Some (Worker.kvPut kv now sessionId token Worker.TOKEN_TTL)
     else Some kv).
Proof.
  intros Hm Hp Herr Hcode Hne Hsession Hstore Hgrant.
  unfold Worker.sessionOf in Hsession. rewrite Hp in Hsession.
  change (bool_decide (js "/callback" = js "/callback")) with true in Hsession.
  cbv iota in Hsession.
  unfold Worker.fetch. rewrite (bool_decide_eq_false_2 _ Hm), Hp. decide_tags.
  rewrite Herr, Hcode, Hsession. cbn [truthy].
  rewrite (proj2 (truthy_nonempty code) Hne). cbn [negb].
  by rewrite Hgrant, Hstore.
Qed.

(** X22. The hand-over is one-time and bounded in time.  After a callback
    for a non-empty session whose code Google exchanged for a token,
    a poll for that session made before the 300 seconds are over gets
    exactly that token, and every poll after it, at whatever time, is
    told that the token is pending and leaves the store as it is; a
    first poll made when the 300 seconds are over is told the same. *)
Theorem worker_hands_token_over_once
    request env kv code sessionId token t0 :
  Worker.req_method request ≠ js "OPTIONS" →
  Worker.req_pathname request = js "/callback" →
  Worker.str_or (Worker.get (Worker.req_searchParams request) (js "error")) [] = [] →
  Worker.str_or (Worker.get (Worker.req_searchParams request) (js "code")) [] = code →
  code ≠ [] →
  Worker.sessionOf request = sessionId →
  sessionId ≠ [] →
  Worker.TOKEN_STORE env = Some kv →
  Worker.exchange code (Worker.GOOGLE_CLIENT_ID env) (Worker.GOOGLE_CLIENT_SECRET env)
                  (Worker.req_origin request ++ js "/callback")
  = Worker.ExchangeGrants token →
  token ≠ [] →
  let after := Worker.withStore (Worker.fetch request env t0).2 env in
  (Worker.fetch request env t0).1
  = Worker.Reply 200 Worker.htmlHeaders
      (Worker.BodyHtml (Worker.SuccessPage token))
  ∧ (∀ t1, (t1 < t0 + 300)%Z →
       let first := Worker.fetch (Worker.poll sessionId) after t1 in
       first.1 = Worker.handedOver token
       ∧ ∀ t2, Worker.fetch (Worker.poll sessionId)
                            (Worker.withStore first.2 env) t2
               = (Worker.pending, first.2))
  ∧ (∀ t1, (t0 + 300 ≤ t1)%Z →
       (Worker.fetch (Worker.poll sessionId) after t1).1 = Worker.pending).
Proof.
  intros Hm Hp Herr Hcode Hne Hsession Hs Hstore Hgrant Htoken after.
  subst after.
  rewrite (fetch_callback_grants request env kv code sessionId token t0) by done.
  rewrite (proj2 (truthy_nonempty sessionId) Hs). cbn [fst snd].
  split; [done|].
  set (kv1 := Worker.kvPut kv t0 sessionId token Worker.TOKEN_TTL).
  assert (Hget : ∀ t1, Worker.kvGet kv1 t1 sessionId
                       = if bool_decide (t1 < t0 + 300)%Z then Some token else None).
  { intros t1. unfold Worker.kvGet, kv1, Worker.kvPut. by rewrite lookup_insert_eq. }
  split.
  - intros t1 Ht1.
    rewrite (fetch_poll sessionId _ kv1 t1) by done.
    rewrite Hget, bool_decide_eq_true_2 by done.
    rewrite (proj2 (truthy_nonempty token) Htoken). cbn [fst snd].
    split; [done|]. intros t2.
    rewrite (fetch_poll sessionId _ (Worker.kvDelete kv1 sessionId) t2) by done.
    unfold Worker.kvGet, Worker.kvDelete. by rewrite lookup_delete_eq.
  - intros t1 Ht1. rewrite (fetch_poll sessionId _ kv1 t1) by done.
    rewrite Hget, bool_decide_eq_false_2 by lia. done.
Qed.

(** X23. A request touches the store at one key at most, the session it
    speaks for, and a token leaves the worker only towards the session
    it was filed under: whatever the request, every other key keeps
    its entry; a preflight, a request to any path but [/callback] and
    [/token], and a request without a session leave the whole store as
    it is; and when the response hands a token over, that token was in
    the store under the session of the request, not yet expired, and
    is gone from it afterwards. *)
Theorem worker_store_changes_only_at_the_session request env kv now :
  Worker.TOKEN_STORE env = Some kv →
  ∃ kv',
    (Worker.fetch request env now).2 = Some kv'
    ∧ (∀ key, key ≠ Worker.sessionOf request → kv' !! key = kv !! key)
    ∧ (Worker.req_method request = js "OPTIONS"
       ∨ (Worker.req_pathname request ≠ js "/callback"
          ∧ Worker.req_pathname request ≠ js "/token")
       ∨ Worker.sessionOf request = [] →
       kv' = kv)
    ∧ (∀ token,
         (Worker.fetch request env now).1 = Worker.handedOver token →
         ∃ expiration,
           kv !! Worker.sessionOf request = Some (token, expiration)
           ∧ (now < expiration)%Z
           ∧ kv' !! Worker.sessionOf request = None).
Proof.
  intros Hstore. unfold Worker.fetch, Worker.sessionOf. rewrite Hstore.
  set (params := Worker.req_searchParams request).
  destruct (decide (Worker.req_method request = js "OPTIONS")) as [Hm|Hm].
  { rewrite (bool_decide_eq_true_2 _ Hm). exists kv. cbn [fst snd].
    repeat split; first [done | intros token Heq; discriminate Heq]. }
  rewrite (bool_decide_eq_false_2 _ Hm).
  destruct (decide (Worker.req_pathname request = js "/auth")) as [Ha|Ha].
  { rewrite (bool_decide_eq_true_2 _ Ha). exists kv. cbn [fst snd].
    repeat split; first [done | intros token Heq; discriminate Heq]. }
  rewrite (bool_decide_eq_false_2 _ Ha).
  destruct (decide (Worker.req_pathname request = js "/callback")) as [Hc|Hc].
  { rewrite (bool_decide_eq_true_2 _ Hc).
    set (sessionId := Worker.str_or (Worker.get params (js "state")) []).
    destruct (truthy (Worker.str_or (Worker.get params (js "error")) [])).
    { exists kv. cbn [fst snd]. repeat split; first [done | intros token Heq; discriminate Heq]. }
    destruct (truthy (Worker.str_or (Worker.get params (js "code")) [])); cbn [negb].
    2:{ exists kv. cbn [fst snd]. repeat split; first [done | intros token Heq; discriminate Heq]. }
    destruct (Worker.exchange _ _ _ _) as [message|error description|access_token].
    - exists kv. cbn [fst snd]. repeat split; first [done | intros token Heq; discriminate Heq].
    - exists kv. cbn [fst snd]. repeat split; first [done | intros token Heq; discriminate Heq].
    - destruct (truthy sessionId) eqn:Hs.
      + eexists. cbn [fst snd]. split; [reflexivity|]. split; [|split].
        * intros key Hkey. unfold Worker.kvPut. by rewrite lookup_insert_ne.
        * apply truthy_nonempty in Hs. intros [Hopt|[[Hno _]|Hempty]]; done.
        * intros token Heq. discriminate Heq.
      + exists kv. cbn [fst snd]. repeat split; first [done | intros token Heq; discriminate Heq]. }
  rewrite (bool_decide_eq_false_2 _ Hc).
  destruct (decide (Worker.req_pathname request = js "/token")) as [Ht|Ht].
  2:{ rewrite (bool_decide_eq_false_2 _ Ht). exists kv. cbn [fst snd].
      repeat split; first [done | intros token Heq; discriminate Heq]. }
  rewrite (bool_decide_eq_true_2 _ Ht).
  set (sessionId := Worker.str_or (Worker.get params (js "session")) []).
  destruct (truthy sessionId) eqn:Hs; cbn [negb].
  2:{ exists kv. cbn [fst snd]. repeat split; first [done | intros token Heq; discriminate Heq]. }
  unfold Worker.kvGet.
  destruct (kv !! sessionId) as [[value expiration]|] eqn:Hlook.
  2:{ exists kv. cbn [fst snd]. repeat split; first [done | intros token Heq; discriminate Heq]. }
  case_bool_decide as Hnow.
  2:{ exists kv. cbn [fst snd]. repeat split; first [done | intros token Heq; discriminate Heq]. }
  destruct (truthy value) eqn:Hv.
  2:{ exists kv. cbn [fst snd]. repeat split; first [done | intros token Heq; discriminate Heq]. }
  eexists. cbn [fst snd]. split; [reflexivity|]. split; [|split].
  - intros key Hkey. unfold Worker.kvDelete. by rewrite lookup_delete_ne.
  - apply truthy_nonempty in Hs. intros [Hopt|[[_ Hno]|Hempty]]; done.
  - intros token Heq. injection Heq as <-. exists expiration.
    split; [done|]. split; [done|]. unfold Worker.kvDelete.
    by rewrite lookup_delete_eq.
Qed.

End WorkerFacts.


(** ** Further runs on sample documents *)

Example stray_table_frame :
  let after := (createElements (H := noFonts) [Element table2x3 None] ∅ 1
                               initialHost).1 in
  created after = [FRAME] ∧ parent after = []
  ∧ console after = [ConsoleError (js "Failed to create element:")
                                  (FontLoadError arialRegular)].
Proof. by vm_compute. Qed.

Example compiled_text_differs :
  parent (Compiled.createElement (H := interOnly) hiShape ∅ initialHost).1
  ≠ parent (createElement (H := interOnly) hiShape ∅ 1 initialHost).1.
Proof. intros Heq. vm_compute in Heq. discriminate Heq. Qed.

Example worker_round_trip :
  let env := {| Worker.GOOGLE_CLIENT_ID := js "id";
                Worker.GOOGLE_CLIENT_SECRET := js "secret";
                Worker.TOKEN_STORE := Some Worker.emptyStore |} in
  let callback := {| Worker.req_method := js "GET";
                     Worker.req_origin := js "https://worker.example";
                     Worker.req_pathname := js "/callback";
                     Worker.req_searchParams :=
                       [(js "code", js "abc"); (js "state", js "s1")] |} in
  let filed := Worker.fetch (H := Worker.granting) callback env 1000 in
  let first := Worker.fetch (H := Worker.granting) (Worker.poll (js "s1"))
                            (Worker.withStore filed.2 env) 1001 in
  let second := Worker.fetch (H := Worker.granting) (Worker.poll (js "s1"))
                             (Worker.withStore first.2 env) 1002 in
  let other := Worker.fetch (H := Worker.granting) (Worker.poll (js "s2"))
                            (Worker.withStore filed.2 env) 1001 in
  filed.1 = Worker.Reply 200 Worker.htmlHeaders
                         (Worker.BodyHtml (Worker.SuccessPage (js "tok-abc")))
  ∧ first.1 = Worker.handedOver (js "tok-abc")
  ∧ second.1 = Worker.pending
  ∧ other.1 = Worker.pending.
Proof. by vm_compute. Qed.


(** * The further properties at concrete inputs *)

Ltac differ := let E := fresh in intros E; vm_compute in E; discriminate E.

Lemma interOnly_resolves_helvetica :
  loadsAt (H := interOnly) [] (ladder (H := interOnly) (js "Helvetica") (Qc_of_Z 400) false) 1.
Proof. exists (font "Inter" "Regular"). split; vm_compute; reflexivity. Defined.

Lemma noFonts_resolves_nothing rungs i : ¬ loadsAt (H := noFonts) [] rungs i.
Proof. intros (f & _ & Hav). vm_compute in Hav. discriminate Hav. Defined.

Lemma loadFont_never_adds_bold_or_italic_witness :
  style (font "Inter" "Bold") = js "Bold" ∨ style (font "Inter" "Bold") = js "Regular".
Proof.
  destruct (loadFont_never_adds_bold_or_italic (H := interOnly)
              (js "Roboto") (Qc_of_Z 800) false initialHost (font "Inter" "Bold"))
    as (_ & Hupright & _).
  - vm_compute. reflexivity.
  - apply Hupright. reflexivity.
Defined.

Lemma createTextForShape_builds_one_text_node_witness :
  ∃ node h',
    createTextForShape (H := interOnly) (fieldsOf hiShape) 0 0 (Qc_of_Z 100)
                       (Qc_of_Z 40) 1 initialHost = (h', Return tt)
    ∧ parent h' = parent initialHost ++ [node]
    ∧ created h' = created initialHost ++ [TEXT]
    ∧ nodeType node = TEXT
    ∧ nodeCharacters node = Some (js "Hi").
Proof.
  destruct (createTextForShape_builds_one_text_node (H := interOnly)
              (fieldsOf hiShape) {| runs := [hiRun]; alignment := None |}
              hiRun [] 0 0 (Qc_of_Z 100) (Qc_of_Z 40) 1 initialHost 1
              eq_refl eq_refl)
    as (node & h' & Hrun & Hp & Hc & Ht & Hchars & _).
  - differ.
  - exact interOnly_resolves_helvetica.
  - exists node, h'. repeat split; assumption.
Defined.

Lemma createElement_line_builds_one_stroked_line_witness :
  ∃ node,
    createElement (H := interOnly) (Element (blankFields "line" 0 0 30 40) None)
                  ∅ 1 initialHost
    = (hostAfter initialHost [LINE] [] [node], Return tt)
    ∧ nodeType node = LINE
    ∧ nodeFills node = None
    ∧ nodeStrokeWeight node = Some 1.
Proof.
  destruct (createElement_line_builds_one_stroked_line (H := interOnly)
              (blankFields "line" 0 0 30 40) None ∅ 1 initialHost eq_refl)
    as (node & Hrun & Ht & _ & _ & Hf & Hw & _).
  exists node. repeat split; assumption.
Defined.

Lemma createTable_without_first_row_cells_draws_nothing_witness :
  createElement (H := interOnly)
    (Element (withRows (Some [[]; [js "a"]]) (blankFields "table" 0 0 300 100)) None)
    ∅ 1 initialHost
  = (initialHost, Return tt).
Proof.
  apply (createTable_without_first_row_cells_draws_nothing (H := interOnly)).
  - reflexivity.
  - right. right. exists [[js "a"]]. reflexivity.
Defined.

Lemma createTable_without_default_font_is_lost_witness :
  (createElement (H := noFonts) (Element table2x3 None) ∅ 1 initialHost).2
  = Throw (FontLoadError arialRegular).
Proof.
  assert (Hrow : [js "a"; js ""; js "c"] ≠ []) by discriminate.
  destruct (createTable_without_default_font_is_lost (H := noFonts)
              table2x3 None ∅ 1 initialHost
              [[js "a"; js ""; js "c"]; [js "d"; js " "; js "f"]]
              [js "a"; js ""; js "c"] [[js "d"; js " "; js "f"]]
              eq_refl eq_refl eq_refl Hrow
              (noFonts_resolves_nothing _)) as (Hrun & _).
  rewrite Hrun. reflexivity.
Defined.

Lemma createTable_texts_follow_the_grid_witness :
  ∃ tableFrame h',
    createElement (H := interOnly) (Element table2x3 None) ∅ 1 initialHost
    = (h', Return tt)
    ∧ parent h' = parent initialHost ++ [tableFrame]
    ∧ textsOf (nodeChildren tableFrame) = [js "a"; js "c"; js "d"; js "f"].
Proof.
  assert (Hrow : [js "a"; js ""; js "c"] ≠ []) by discriminate.
  destruct (createTable_texts_follow_the_grid (H := interOnly)
              table2x3 None ∅ 1 initialHost
              [[js "a"; js ""; js "c"]; [js "d"; js " "; js "f"]]
              [js "a"; js ""; js "c"] [[js "d"; js " "; js "f"]] 1
              eq_refl eq_refl eq_refl Hrow interOnly_resolves_arial)
    as (tableFrame & fontName & h' & Hrun & Hp & _ & _ & Htexts & _).
  exists tableFrame, h'. split; [exact Hrun|]. split; [exact Hp|].
  rewrite Htexts. vm_compute. reflexivity.
Defined.

Lemma createElements_skips_unknown_types_witness :
  createElements (H := interOnly)
    ([plainRectangle] ++ Element (blankFields "video" 0 0 10 10) None
                      :: [plainRectangle]) ∅ 1 initialHost
  = createElements (H := interOnly) ([plainRectangle] ++ [plainRectangle]) ∅ 1
                   initialHost.
Proof.
  apply (createElements_skips_unknown_types (H := interOnly)).
  repeat (apply not_elem_of_cons; split; [differ|]). apply not_elem_of_nil.
Defined.

Lemma createGroup_stops_at_first_failing_child_witness :
  (createElement (H := noFonts)
     (Element (blankFields "group" 0 0 0 0)
              (Some ([plainRectangle] ++ Element table2x3 None :: [plainRectangle])))
     ∅ 1 initialHost).2
  = Throw (FontLoadError arialRegular).
Proof.
  pose (place := fun c : SlideElement =>
          Element (childFields (el_x (blankFields "group" 0 0 0 0) * 1)
                               (el_y (blankFields "group" 0 0 0 0) * 1) 1 c)
                  (childrenOf c)).
  pose (hBefore := (forOf (fun c => createElement (H := noFonts) (place c) ∅ 1)
                          [plainRectangle] initialHost).1).
  pose (h' := (createElement (H := noFonts) (place (Element table2x3 None)) ∅ 1
                             hBefore).1).
  destruct (createGroup_stops_at_first_failing_child (H := noFonts)
              (blankFields "group" 0 0 0 0) [plainRectangle]
              (Element table2x3 None) [plainRectangle] ∅ 1 initialHost
              hBefore h' (FontLoadError arialRegular) eq_refl) as (Hrun & _).
  - rewrite (surjective_pairing (forOf _ [plainRectangle] initialHost)).
    apply (f_equal (pair _)). vm_compute. reflexivity.
  - rewrite (surjective_pairing (createElement _ ∅ 1 hBefore)).
    apply (f_equal (pair _)). vm_compute. reflexivity.
  - rewrite Hrun. reflexivity.
Defined.

Lemma createImage_draws_wellformed_data_url_witness :
  ∃ node,
    createElement (H := interOnly) (Element (imageWithUrl (Some (js "k"))) None)
                  {[ js "k" := js "data:image/png;base64,AAAA" ]} 1 initialHost
    = (hostAfter initialHost [RECTANGLE] [] [node], Return tt)
    ∧ nodeType node = RECTANGLE
    ∧ nodeName node = Some (js "Image")
    ∧ nodeFills node = Some [IMAGE (js "AAAA") (js "FILL")].
Proof.
  assert (Hkey : js "k" ≠ []) by discriminate.
  assert (Hmime : js "image/png" ≠ []) by discriminate.
  assert (Hpayload : js "AAAA" ≠ []) by discriminate.
  assert (Hsemi : 59%N ∉ js "image/png").
  { repeat (apply not_elem_of_cons; split; [differ|]). apply not_elem_of_nil. }
  assert (Hline : Forall (fun c => isLineTerminator c = false) (js "AAAA")).
  { repeat constructor. }
  assert (Hdata : ({[ js "k" := js "data:image/png;base64,AAAA" ]}
                     : gmap (list N) (list N)) !! js "k"
                  = Some (js "data:" ++ js "image/png" ++ js ";base64," ++ js "AAAA")).
  { apply lookup_singleton_Some. split; reflexivity. }
  destruct (createImage_draws_wellformed_data_url (H := interOnly)
              (imageWithUrl (Some (js "k"))) None
              {[ js "k" := js "data:image/png;base64,AAAA" ]} 1 initialHost
              (js "k") (js "image/png") (js "AAAA") (js "AAAA") (js "AAAA")
              eq_refl eq_refl Hkey Hdata
              Hmime Hsemi Hpayload Hline eq_refl eq_refl)
    as (node & Hrun & Ht & Hn & Hf & _).
  exists node. repeat split; assumption.
Defined.

Lemma createImage_placeholder_names_the_failure_witness :
  createElement (H := interOnly) (Element (imageWithUrl (Some (js "k"))) None)
                ∅ 1 initialHost
  = (hostAfter initialHost [RECTANGLE] []
       [placeholder (el_x (imageWithUrl (Some (js "k"))) * 1)
                    (el_y (imageWithUrl (Some (js "k"))) * 1)
                    (effectiveWidth (imageWithUrl (Some (js "k"))) 1)
                    (effectiveHeight (imageWithUrl (Some (js "k"))) 1)
                    (js "Image (failed to load)")],
     Return tt).
Proof.
  assert (Hkey : js "k" ≠ []) by discriminate.
  pose proof (createImage_placeholder_names_the_failure (H := interOnly)
                (imageWithUrl (Some (js "k"))) None ∅ 1 initialHost (js "k")
                eq_refl eq_refl Hkey eq_refl) as Hrun.
  cbv zeta in Hrun. rewrite lookup_empty in Hrun. exact Hrun.
Defined.

Lemma createShape_keeps_shape_when_text_font_is_missing_witness :
  ∃ shape h',
    createElement (H := noFonts) hiShape ∅ 1 initialHost
    = (h', Throw (FontLoadError arialRegular))
    ∧ parent h' = parent initialHost ++ [shape]
    ∧ (nodeType shape = RECTANGLE ∨ nodeType shape = ELLIPSE)
    ∧ created h' = created initialHost ++ [nodeType shape; TEXT]
    ∧ console h' = console initialHost.
Proof.
  apply (createShape_keeps_shape_when_text_font_is_missing (H := noFonts)
           (fieldsOf hiShape) None ∅ 1 initialHost
           {| runs := [hiRun]; alignment := None |} hiRun []
           eq_refl eq_refl eq_refl).
  - differ.
  - intros i. apply noFonts_resolves_nothing.
Defined.

Lemma importPresentation_lays_frames_side_by_side_witness :
  ∃ frames h',
    importPresentation (H := interOnly) twoSlides ∅ initialHost = (h', Return tt)
    ∧ page h' = page initialHost ++ frames
    ∧ length frames = 2%nat
    ∧ viewport h' = viewport initialHost ++ [frames].
Proof.
  destruct (importPresentation_lays_frames_side_by_side (H := interOnly)
              twoSlides ∅ initialHost) as (frames & h' & Hrun & Hp & Hl & Hv & _).
  - discriminate.
  - exists frames, h'. repeat split; assumption.
Defined.

Lemma onmessage_routes_by_type_witness :
  (onmessage (H := interOnly) (fun _ => None)
     {| msg_type := js "cancel"; msg_presentation := twoSlides;
        msg_imageData := ∅ |}
     {| plugin_host := initialHost; plugin_closed := false |}).1
  = {| plugin_host := initialHost; plugin_closed := true |}.
Proof.
  destruct (onmessage_routes_by_type (H := interOnly) (fun _ => None)
              {| msg_type := js "cancel"; msg_presentation := twoSlides;
                 msg_imageData := ∅ |}
              {| plugin_host := initialHost; plugin_closed := false |})
    as (_ & _ & Hcancel & _).
  apply Hcancel. reflexivity.
Defined.

Lemma compiled_build_is_the_sources_at_scale_one_witness :
  Compiled.createElements (H := interOnly)
    [plainRectangle; Element table2x3 None; groupOfOne] ∅ initialHost
  = createElements (H := interOnly)
      [plainRectangle; Element table2x3 None; groupOfOne] ∅ 1 initialHost.
Proof.
  apply (compiled_build_is_the_sources_at_scale_one (H := interOnly)
           [plainRectangle; Element table2x3 None; groupOfOne] ∅ initialHost).
  vm_compute. reflexivity.
Defined.

Lemma worker_hands_token_over_once_witness :
  (Worker.fetch (H := Worker.granting) (Worker.poll (js "s1"))
     (Worker.withStore
        (Worker.fetch (H := Worker.granting)
           {| Worker.req_method := js "GET";
              Worker.req_origin := js "https://worker.example";
              Worker.req_pathname := js "/callback";
              Worker.req_searchParams := [(js "code", js "abc"); (js "state", js "s1")] |}
           {| Worker.GOOGLE_CLIENT_ID := js "id";
              Worker.GOOGLE_CLIENT_SECRET := js "secret";
              Worker.TOKEN_STORE := Some Worker.emptyStore |}
           1000).2
        {| Worker.GOOGLE_CLIENT_ID := js "id";
           Worker.GOOGLE_CLIENT_SECRET := js "secret";
           Worker.TOKEN_STORE := Some Worker.emptyStore |})
     1200).1
  = Worker.handedOver (js "tok-" ++ js "abc").
Proof.
  assert (Hcode : js "abc" ≠ []) by discriminate.
  assert (Hsession : js "s1" ≠ []) by discriminate.
  assert (Htoken : js "tok-" ++ js "abc" ≠ []) by discriminate.
  assert (Hmethod : js "GET" ≠ js "OPTIONS") by differ.
  destruct (worker_hands_token_over_once (H := Worker.granting)
              {| Worker.req_method := js "GET";
                 Worker.req_origin := js "https://worker.example";
                 Worker.req_pathname := js "/callback";
                 Worker.req_searchParams :=
                   [(js "code", js "abc"); (js "state", js "s1")] |}
              {| Worker.GOOGLE_CLIENT_ID := js "id";
                 Worker.GOOGLE_CLIENT_SECRET := js "secret";
                 Worker.TOKEN_STORE := Some Worker.emptyStore |}
              Worker.emptyStore (js "abc") (js "s1") (js "tok-" ++ js "abc") 1000
              Hmethod eq_refl eq_refl eq_refl Hcode eq_refl Hsession eq_refl
              eq_refl Htoken) as (_ & Hwithin & _).
  apply (Hwithin 1200%Z). lia.
Defined.

Lemma worker_store_changes_only_at_the_session_witness :
  ∃ kv',
    (Worker.fetch (H := Worker.granting) (Worker.poll (js "s1"))
       {| Worker.GOOGLE_CLIENT_ID := js "id";
          Worker.GOOGLE_CLIENT_SECRET := js "secret";
          Worker.TOKEN_STORE := Some Worker.emptyStore |} 5).2 = Some kv'
    ∧ ∀ key, key ≠ Worker.sessionOf (Worker.poll (js "s1")) →
             kv' !! key = Worker.emptyStore !! key.
Proof.
  destruct (worker_store_changes_only_at_the_session (H := Worker.granting)
              (Worker.poll (js "s1"))
              {| Worker.GOOGLE_CLIENT_ID := js "id";
                 Worker.GOOGLE_CLIENT_SECRET := js "secret";
                 Worker.TOKEN_STORE := Some Worker.emptyStore |}
              Worker.emptyStore 5 eq_refl) as (kv' & Hstore & Hframe & _).
  exists kv'. split; [exact Hstore|exact Hframe].
Defined.

Lemma createShape_puts_text_on_top_of_its_shape_witness :
  ∃ shape textNode h',
    createElement (H := interOnly) hiShape ∅ 1 initialHost = (h', Return tt)
    ∧ parent h' = parent initialHost ++ [shape; textNode]
    ∧ nodeType textNode = TEXT
    ∧ nodeRotation textNode = nodeRotation shape.
Proof.
  destruct (createShape_puts_text_on_top_of_its_shape (H := interOnly)
              (fieldsOf hiShape) None ∅ 1 initialHost
              {| runs := [hiRun]; alignment := None |} hiRun [] 1
              eq_refl eq_refl eq_refl)
    as (shape & textNode & h' & Hrun & Hp & _ & _ & _ & Ht & _ & _ & Hrot).
  - differ.
  - exact interOnly_resolves_helvetica.
  - exists shape, textNode, h'. repeat split; assumption.
Defined.

Lemma importPresentation_fills_each_frame_from_its_own_slide_witness :
  ∃ frames h',
    importPresentation (H := interOnly) twoSlides ∅ initialHost = (h', Return tt)
    ∧ page h' = page initialHost ++ frames.
Proof.
  destruct (importPresentation_fills_each_frame_from_its_own_slide
              (H := interOnly) twoSlides ∅ initialHost)
    as (frames & h' & Hrun & Hp & _).
  - discriminate.
  - exists frames, h'. split; assumption.
Defined.
